(** * The extension manager of the API (api/src/extensions.ts)

    A shallow embedding of [ExtensionManager]: discovery, the load / unload /
    reload cycle, the four registrars and their unregistrars, the watched-path
    bookkeeping of the hot-reload watcher and the per-type bundling loop.

    The class mutates its own fields and several host singletons (the event
    bus, the flow manager, the cron scheduler, Node's module cache).  All of
    them live in one [World] record that is threaded through a state monad in
    which a thrown error keeps the state reached so far, as a JavaScript
    exception does. *)

From Stdlib Require Import Ascii.
From stdpp Require Import base strings list gmap sets.

Set Default Proof Using "Type".
Open Scope string_scope.
Open Scope list_scope.

(** ** Constants (shared/constants/extensions.ts) *)

Inductive AppWithoutHybridType := interface | display | layout | module | panel.
Inductive ApiWithoutHybridType := hook | endpoint | storage.
Inductive HybridType := operation.

Inductive ExtensionType :=
| AppT (t : AppWithoutHybridType)
| ApiT (t : ApiWithoutHybridType)
| HybridT (t : HybridType)
| pack.

Definition APP_SHARED_DEPS : list string :=
  ["@directus/extensions-sdk"; "vue"; "vue-router"; "vue-i18n"; "pinia"].

Definition APP_WITHOUT_HYBRID_EXTENSION_TYPES : list ExtensionType :=
  AppT <$> [interface; display; layout; module; panel].
Definition API_WITHOUT_HYBRID_EXTENSION_TYPES : list ExtensionType :=
  ApiT <$> [hook; endpoint; storage].
Definition HYBRID_EXTENSION_TYPES : list ExtensionType := HybridT <$> [operation].
Definition APP_EXTENSION_TYPES : list ExtensionType :=
  APP_WITHOUT_HYBRID_EXTENSION_TYPES ++ HYBRID_EXTENSION_TYPES.
Definition API_EXTENSION_TYPES : list ExtensionType :=
  API_WITHOUT_HYBRID_EXTENSION_TYPES ++ HYBRID_EXTENSION_TYPES.
Definition EXTENSION_TYPES : list ExtensionType :=
  APP_WITHOUT_HYBRID_EXTENSION_TYPES ++ API_WITHOUT_HYBRID_EXTENSION_TYPES
  ++ HYBRID_EXTENSION_TYPES.

Definition PACK_EXTENSION_TYPE : ExtensionType := pack.
Definition API_EXTENSION_PACKAGE_TYPES : list ExtensionType :=
  API_EXTENSION_TYPES ++ [PACK_EXTENSION_TYPE].
Definition EXTENSION_PACKAGE_TYPES : list ExtensionType :=
  EXTENSION_TYPES ++ [PACK_EXTENSION_TYPE].

Global Instance AppWithoutHybridType_eq_dec : EqDecision AppWithoutHybridType.
Proof. solve_decision. Defined.
Global Instance ApiWithoutHybridType_eq_dec : EqDecision ApiWithoutHybridType.
Proof. solve_decision. Defined.
Global Instance HybridType_eq_dec : EqDecision HybridType.
Proof. solve_decision. Defined.
Global Instance ExtensionType_eq_dec : EqDecision ExtensionType.
Proof. solve_decision. Defined.

(** The bundle map is keyed by extension type; the key is countable through
    its position in [EXTENSION_PACKAGE_TYPES]. *)
Definition type_index (t : ExtensionType) : nat :=
  match t with
  | AppT interface => 0 | AppT display => 1 | AppT layout => 2
  | AppT module => 3 | AppT panel => 4
  | ApiT hook => 5 | ApiT endpoint => 6 | ApiT storage => 7
  | HybridT operation => 8
  | pack => 9
  end.

Global Instance ExtensionType_countable : Countable ExtensionType :=
  inj_countable type_index (λ n, EXTENSION_PACKAGE_TYPES !! n)
    (λ t, ltac:(by destruct t as [[]|[]|[]|])).

(** ** Extension descriptors (shared/types/extensions.ts)

    [Extension] is the union of the four descriptor shapes the manager
    narrows to: a simple app or API extension with one entrypoint, a hybrid
    extension with an [{app, api}] pair, and a pack with no entrypoint. *)

Record ExtensionBase := {
  base_path : string;
  base_name : string;
  base_local : bool;
}.

Inductive Extension :=
| AppExtension (b : ExtensionBase) (t : AppWithoutHybridType) (entrypoint : string)
| ApiExtension (b : ExtensionBase) (t : ApiWithoutHybridType) (entrypoint : string)
| HybridExtension (b : ExtensionBase) (t : HybridType) (app api : string)
| ExtensionPackage (b : ExtensionBase) (children : list string).

Definition ext_base (e : Extension) : ExtensionBase :=
  match e with
  | AppExtension b _ _ | ApiExtension b _ _
  | HybridExtension b _ _ _ | ExtensionPackage b _ => b
  end.

Definition path (e : Extension) : string := base_path (ext_base e).
Definition name (e : Extension) : string := base_name (ext_base e).
Definition local (e : Extension) : bool := base_local (ext_base e).

Definition type (e : Extension) : ExtensionType :=
  match e with
  | AppExtension _ t _ => AppT t
  | ApiExtension _ t _ => ApiT t
  | HybridExtension _ t _ _ => HybridT t
  | ExtensionPackage _ _ => pack
  end.

(** [isExtensionObject(extension, types)] and [isHybridExtension(type)] of
    shared/utils: membership of the type in a list of types. *)
Definition isExtensionObject (e : Extension) (types : list ExtensionType) : bool :=
  bool_decide (type e ∈ types).
Definition isHybridExtension (t : ExtensionType) : bool :=
  bool_decide (t ∈ HYBRID_EXTENSION_TYPES).

(** ** What an extension module exports

    A handler is a JavaScript function value; the bus removes listeners by
    reference, so a handler is represented by its identity.  What a
    third-party [register] function does to the manager is the sequence of
    calls it makes on the API it is handed, ending in a return or a throw: a
    [Behaviour] is that sequence and that ending. *)

Definition Handler := nat.
Definition Error := string.

Record Behaviour (Call : Type) := {
  calls : list Call;
  throws : option Error;
}.
Arguments calls {Call} _.
Arguments throws {Call} _.

Inductive BusKind := filter_kind | action_kind | init_kind.

Inductive HookCall :=
| CallFilter (event : string) (handler : Handler)
| CallAction (event : string) (handler : Handler)
| CallInit (event : string) (handler : Handler)
| CallSchedule (cron : string) (handler : Handler)
| HookContextOn (kind : BusKind) (event : string) (handler : Handler).

Inductive EndpointCall :=
| AddRoute (route : string)
| EndpointContextOn (kind : BusKind) (event : string) (handler : Handler).

Definition HookConfig := Behaviour HookCall.
Definition EndpointRegister := Behaviour EndpointCall.

Inductive EndpointConfig :=
| EndpointFunction (register : EndpointRegister)
| EndpointObject (id : string) (handler : EndpointRegister).

Record OperationApiConfig := {
  operation_id : string;
  operation_handler : Handler;
}.

Record StorageConfig := {
  driver : string;
}.

(** The value [require] returns for a module whose configuration has type
    [C]: the configuration itself ([module.exports = config]) or an object
    holding it under [default]. *)
Inductive Exported (C : Type) :=
| Bare (c : C)
| DefaultWrapped (c : C).
Arguments Bare {C} c.
Arguments DefaultWrapped {C} c.

(** Modelled from the spec: [getModuleDefault] of utils/get-module-default,
    which is not among the sources; it "normalize[s] its export into a single
    configuration value regardless of whether it was exported bare or wrapped
    as a default". *)
Definition getModuleDefault {C} (m : Exported C) : C :=
  match m with
  | Bare c => c
  | DefaultWrapped c => c
  end.

(** ** Host collaborators *)

(** Modelled from the spec: the event bus of ./emitter, which is not among
    the sources: bindings are "tagged with enough identity (event name plus
    handler reference) to be individually removed later", and the per-cycle
    emitter is "reset wholesale".  A bus is the list of its bindings in
    registration order; [off] removes one binding of that identity. *)
Definition Binding : Type := BusKind * string * Handler.
Definition Emitter := list Binding.

Global Instance BusKind_eq_dec : EqDecision BusKind.
Proof. solve_decision. Defined.

Fixpoint remove_one (b : Binding) (em : Emitter) : Emitter :=
  match em with
  | [] => []
  | b' :: em' => if decide (b = b') then em' else b' :: remove_one b em'
  end.

Definition emitter_on (k : BusKind) (event : string) (h : Handler) (em : Emitter) : Emitter :=
  em ++ [(k, event, h)].
Definition emitter_off (k : BusKind) (event : string) (h : Handler) (em : Emitter) : Emitter :=
  remove_one (k, event, h) em.
Definition emitter_offAll (em : Emitter) : Emitter := [].

(** The shared endpoint router: its [stack] of layers, each a sub-router
    mounted at a path, with the routes attached to that sub-router. *)
Record Layer := {
  mount_path : string;
  sub_routes : list string;
}.
Definition Router := list Layer.

(** A node-cron task: [schedule] returns it started, [stop] stops it.  The
    scheduler's table is the list of tasks created so far; a task reference
    is its position in the table. *)
Record ScheduledTask := {
  task_cron : string;
  task_handler : Handler;
  task_running : bool;
}.

Inductive EventHandler :=
| FilterEvent (name : string) (handler : Handler)
| ActionEvent (name : string) (handler : Handler)
| InitEvent (name : string) (handler : Handler)
| ScheduleEvent (task : nat).

Record HookRecord := {
  hook_path : string;
  hook_events : list EventHandler;
}.

Record ApiExtensions := {
  hooks : list HookRecord;
  endpoints : list string;
  storages : list (string * Exported StorageConfig);
  operations : list string;
}.

Record Options := {
  schedule : bool;
  watch : bool;
}.

(** [Partial<Options>]: each field present or absent. *)
Record PartialOptions := {
  schedule_opt : option bool;
  watch_opt : option bool;
}.

Inductive LogEntry :=
| InfoLoaded (names : list string)
| InfoReloading
| InfoAdded (names : list string)
| InfoRemoved (names : list string)
| InfoWatching
| WarnNotLoaded
| WarnCouldntLoad
| WarnCouldntRegister (kind : ExtensionType) (name : string)
| WarnInvalidCron (cron : string)
| WarnCouldntBundle
| WarnMissingSharedDep (dep : string)
| WarnError (e : Error)
| ErrorLogged (e : Error).

(** The fields of [ExtensionManager]. *)
Record Manager := {
  isLoaded : bool;
  options : Options;
  extensions : list Extension;
  appExtensions : gmap ExtensionType string;
  apiExtensions : ApiExtensions;
  apiEmitter : Emitter;
  endpointRouter : Router;
  watcher : option (gset string);
}.

(** The process around it: the host-wide bus, the flow manager's operation
    table (the [addOperation] calls since it was last cleared, in order),
    the cron table, the file names in Node's module cache, the log, the handlers invoked by
    fired tasks, and the number of [chokidar.watch] calls made. *)
Record Host := {
  emitter : Emitter;
  flowOperations : list (string * Handler);
  cronTasks : list ScheduledTask;
  requireCache : gset string;
  log : list LogEntry;
  invoked : list Handler;
  watchersCreated : nat;
}.

Record World := {
  manager : Manager;
  host : Host;
}.

(** ** Field updates *)

Definition set_isLoaded (v : bool) (m : Manager) : Manager :=
  {| isLoaded := v; options := options m; extensions := extensions m;
     appExtensions := appExtensions m; apiExtensions := apiExtensions m;
     apiEmitter := apiEmitter m; endpointRouter := endpointRouter m;
     watcher := watcher m |}.
Definition set_options (v : Options) (m : Manager) : Manager :=
  {| isLoaded := isLoaded m; options := v; extensions := extensions m;
     appExtensions := appExtensions m; apiExtensions := apiExtensions m;
     apiEmitter := apiEmitter m; endpointRouter := endpointRouter m;
     watcher := watcher m |}.
Definition set_extensions (v : list Extension) (m : Manager) : Manager :=
  {| isLoaded := isLoaded m; options := options m; extensions := v;
     appExtensions := appExtensions m; apiExtensions := apiExtensions m;
     apiEmitter := apiEmitter m; endpointRouter := endpointRouter m;
     watcher := watcher m |}.
Definition set_appExtensions (v : gmap ExtensionType string) (m : Manager) : Manager :=
  {| isLoaded := isLoaded m; options := options m; extensions := extensions m;
     appExtensions := v; apiExtensions := apiExtensions m;
     apiEmitter := apiEmitter m; endpointRouter := endpointRouter m;
     watcher := watcher m |}.
Definition set_apiExtensions (v : ApiExtensions) (m : Manager) : Manager :=
  {| isLoaded := isLoaded m; options := options m; extensions := extensions m;
     appExtensions := appExtensions m; apiExtensions := v;
     apiEmitter := apiEmitter m; endpointRouter := endpointRouter m;
     watcher := watcher m |}.
Definition set_apiEmitter (v : Emitter) (m : Manager) : Manager :=
  {| isLoaded := isLoaded m; options := options m; extensions := extensions m;
     appExtensions := appExtensions m; apiExtensions := apiExtensions m;
     apiEmitter := v; endpointRouter := endpointRouter m;
     watcher := watcher m |}.
Definition set_endpointRouter (v : Router) (m : Manager) : Manager :=
  {| isLoaded := isLoaded m; options := options m; extensions := extensions m;
     appExtensions := appExtensions m; apiExtensions := apiExtensions m;
     apiEmitter := apiEmitter m; endpointRouter := v;
     watcher := watcher m |}.
Definition set_watcher (v : option (gset string)) (m : Manager) : Manager :=
  {| isLoaded := isLoaded m; options := options m; extensions := extensions m;
     appExtensions := appExtensions m; apiExtensions := apiExtensions m;
     apiEmitter := apiEmitter m; endpointRouter := endpointRouter m;
     watcher := v |}.

Definition set_hooks (v : list HookRecord) (a : ApiExtensions) : ApiExtensions :=
  {| hooks := v; endpoints := endpoints a; storages := storages a;
     operations := operations a |}.
Definition set_endpoints (v : list string) (a : ApiExtensions) : ApiExtensions :=
  {| hooks := hooks a; endpoints := v; storages := storages a;
     operations := operations a |}.
Definition set_storages (v : list (string * Exported StorageConfig))
    (a : ApiExtensions) : ApiExtensions :=
  {| hooks := hooks a; endpoints := endpoints a; storages := v;
     operations := operations a |}.
Definition set_operations (v : list string) (a : ApiExtensions) : ApiExtensions :=
  {| hooks := hooks a; endpoints := endpoints a; storages := storages a;
     operations := v |}.

Definition set_emitter (v : Emitter) (h : Host) : Host :=
  {| emitter := v; flowOperations := flowOperations h; cronTasks := cronTasks h;
     requireCache := requireCache h; log := log h; invoked := invoked h;
     watchersCreated := watchersCreated h |}.
Definition set_flowOperations (v : list (string * Handler)) (h : Host) : Host :=
  {| emitter := emitter h; flowOperations := v; cronTasks := cronTasks h;
     requireCache := requireCache h; log := log h; invoked := invoked h;
     watchersCreated := watchersCreated h |}.
Definition set_cronTasks (v : list ScheduledTask) (h : Host) : Host :=
  {| emitter := emitter h; flowOperations := flowOperations h; cronTasks := v;
     requireCache := requireCache h; log := log h; invoked := invoked h;
     watchersCreated := watchersCreated h |}.
Definition set_requireCache (v : gset string) (h : Host) : Host :=
  {| emitter := emitter h; flowOperations := flowOperations h;
     cronTasks := cronTasks h; requireCache := v; log := log h;
     invoked := invoked h; watchersCreated := watchersCreated h |}.
Definition set_log (v : list LogEntry) (h : Host) : Host :=
  {| emitter := emitter h; flowOperations := flowOperations h;
     cronTasks := cronTasks h; requireCache := requireCache h; log := v;
     invoked := invoked h; watchersCreated := watchersCreated h |}.
Definition set_invoked (v : list Handler) (h : Host) : Host :=
  {| emitter := emitter h; flowOperations := flowOperations h;
     cronTasks := cronTasks h; requireCache := requireCache h; log := log h;
     invoked := v; watchersCreated := watchersCreated h |}.
Definition set_watchersCreated (v : nat) (h : Host) : Host :=
  {| emitter := emitter h; flowOperations := flowOperations h;
     cronTasks := cronTasks h; requireCache := requireCache h; log := log h;
     invoked := invoked h; watchersCreated := v |}.

Definition on_manager (f : Manager → Manager) (w : World) : World :=
  {| manager := f (manager w); host := host w |}.
Definition on_host (f : Host → Host) (w : World) : World :=
  {| manager := manager w; host := f (host w) |}.

(** ** The monad: state that survives a throw *)

Inductive Outcome (A : Type) :=
| Returned (a : A)
| Thrown (e : Error).
Arguments Returned {A} a.
Arguments Thrown {A} e.

Definition M (A : Type) : Type := World → Outcome A * World.

Global Instance M_ret : MRet M := λ A a w, (Returned a, w).
Global Instance M_bind : MBind M := λ A B f m w,
  match m w with
  | (Returned a, w') => f a w'
  | (Thrown e, w') => (Thrown e, w')
  end.

Definition throw {A} (e : Error) : M A := λ w, (Thrown e, w).

(** [try { m } catch (e) { handler e }] *)
Definition try_catch {A} (m : M A) (handler : Error → M A) : M A := λ w,
  match m w with
  | (Returned a, w') => (Returned a, w')
  | (Thrown e, w') => handler e w'
  end.

Definition gets {A} (f : World → A) : M A := λ w, (Returned (f w), w).
Definition modify (f : World → World) : M unit := λ w, (Returned tt, f w).

(** An awaited call into the outside world: its value, or its rejection
    rethrown. *)
Definition await {A} (r : Outcome A) : M A :=
  match r with
  | Returned a => mret a
  | Thrown e => throw e
  end.

(** [for (const x of l) { body x }] *)
Fixpoint for_each {A} (l : list A) (body : A → M unit) : M unit :=
  match l with
  | [] => mret tt
  | x :: l' => body x;; for_each l' body
  end.

(** A loop that threads a local variable. *)
Fixpoint for_fold {A S} (l : list A) (s : S) (body : A → S → M S) : M S :=
  match l with
  | [] => mret s
  | x :: l' => s' ← body x s; for_fold l' s' body
  end.

Definition is_returned {A} (r : Outcome A) : Prop :=
  match r with
  | Returned _ => True
  | Thrown _ => False
  end.

(** A computation returns when no state makes it throw. *)
Definition returns {A} (m : M A) : Prop := ∀ w, is_returned (m w).1.

(** A computation keeps a projection of the world when, returning or
    throwing, it leaves that projection as it found it. *)
Definition keeps {A B} (π : World → B) (m : M A) : Prop := ∀ w, π (m w).2 = π w.

Definition logger (e : LogEntry) : M unit :=
  modify (on_host (λ h, set_log (log h ++ [e]) h)).

(** ** The platform and the outside world

    Library functions the manager calls and the process configuration it
    reads are fields of [Platform]; they are the same throughout a run.
    What is on disk, and what the bundler makes of it, can differ from one
    cycle to the next: an [Oracle] holds the answers of one cycle. *)

Record Env := {
  EXTENSIONS_PATH : string;
  SERVE_APP : bool;
  EXTENSIONS_AUTO_RELOAD : bool;
  NODE_ENV : string;
  PUBLIC_URL : string;
}.

Record RollupInput := {
  entry : string;
  external : list string;
  alias_entries : list (string * string);
}.

(** [rollup(...)] rejects; or [bundle.generate(...)] rejects; or the code of
    the first output chunk is produced and [bundle.close()] resolves or
    rejects. *)
Inductive RollupOutcome :=
| RollupRejects (e : Error)
| GenerateRejects (e : Error)
| Generated (code : string) (close : option Error).

Class Platform := {
  env : Env;
  (** [path.sep], [path.resolve(...segments)], [path.posix.join(...segments)] *)
  path_sep : Ascii.ascii;
  path_resolve : list string → string;
  posix_join : list string → string;
  (** the relative extensions directory joined with [pluralize(type)] *)
  type_dir : ExtensionType → string;
  (** node-cron's [validate] *)
  validate : string → bool;
  (** shared/utils/node *)
  generateExtensionsEntry : ExtensionType → list Extension → string;
  (** the first file of the asset directory matching the hashed chunk name
      of a shared dependency *)
  find_dep_chunk : string → list string → option string;
  (** the root-relative URL of an asset under the public URL *)
  asset_url : string → string → string;
}.

Record Oracle := {
  ensureExtensionDirs : string → list ExtensionType → Outcome unit;
  getPackageExtensions : string → list ExtensionType → Outcome (list Extension);
  getLocalExtensions : string → list ExtensionType → Outcome (list Extension);
  (** [require.resolve]: the file a request resolves to, if any *)
  require_resolve : string → option string;
  (** what requiring the module file yields in this cycle, at the type its
      registrar declares for it *)
  hook_module : string → Outcome (Exported HookConfig);
  endpoint_module : string → Outcome (Exported EndpointConfig);
  storage_module : string → Outcome (Exported StorageConfig);
  operation_module : string → Outcome (Exported OperationApiConfig);
  (** the [operations/*/index.(js|ts)] glob *)
  globby_operations : Outcome (list string);
  (** the listing of the app's asset directory *)
  readdir_assets : Outcome (list string);
  rollup : RollupInput → RollupOutcome;
}.

(** [s.split(sep)] and [l.join(sep)] for a one-character separator. *)
Fixpoint split_on (sep : Ascii.ascii) (s : string) : list string :=
  match s with
  | EmptyString => [""]
  | String c s' =>
      if decide (c = sep) then "" :: split_on sep s'
      else match split_on sep s' with
           | [] => [String c ""]
           | x :: xs => String c x :: xs
           end
  end.

Definition join_with (sep : Ascii.ascii) (l : list string) : string :=
  String.concat (String sep "") l.

(** ** The extension manager *)

Section ExtensionManager.
Context `{Platform}.

Definition defaultOptions : Options :=
  {| schedule := true;
     watch := EXTENSIONS_AUTO_RELOAD env
              && negb (bool_decide (NODE_ENV env = "development")) |}.

(** The field initialisers and the constructor. *)
Definition new_manager : Manager :=
  {| isLoaded := false;
     options := defaultOptions;
     extensions := [];
     appExtensions := ∅;
     apiExtensions := {| hooks := []; endpoints := []; storages := []; operations := [] |};
     apiEmitter := [];
     endpointRouter := [];
     watcher := None |}.

(** [getExtensionManager] over the module-level [extensionManager]
    variable. *)
Definition getExtensionManager (extensionManager : option Manager)
    : Manager * option Manager :=
  match extensionManager with
  | Some m => (m, extensionManager)
  | None => (new_manager, Some new_manager)
  end.

Definition getExtensionsList (t : option ExtensionType) (m : Manager) : list string :=
  match t with
  | None => name <$> extensions m
  | Some t => name <$> filter (λ extension, type extension = t) (extensions m)
  end.

Definition getAppExtensions (t : ExtensionType) (m : Manager) : option string :=
  appExtensions m !! t.
Definition getApiExtensions (m : Manager) : ApiExtensions := apiExtensions m.
Definition getEndpointRouter (m : Manager) : Router := endpointRouter m.

Definition update_api (f : ApiExtensions → ApiExtensions) : M unit :=
  modify (on_manager (λ m, set_apiExtensions (f (apiExtensions m)) m)).

(** *** Node's [require] and its cache *)

Definition MODULE_NOT_FOUND : Error := "MODULE_NOT_FOUND".

(** [require(request)]: the request is resolved to a file, and the module
    is the cycle's answer for that file, whether evaluated afresh or served
    from the cache; the cache is tracked as the set of files it holds. *)
Definition require {C} (o : Oracle) (load : string → Outcome (Exported C))
    (request : string) : M (Exported C) :=
  match require_resolve o request with
  | None => throw MODULE_NOT_FOUND
  | Some file =>
      instance ← await (load file);
      modify (on_host (λ h, set_requireCache (requireCache h ∪ {[file]}) h));;
      mret instance
  end.

(** [delete require.cache[require.resolve(request)]].  A request the
    registry holds was resolved when its module was required, and Node then
    answers [require.resolve] for it from its path cache whether or not the
    file is still there; the oracle of a cycle is free to answer otherwise,
    so the statements over every oracle cover more than a run can show. *)
Definition delete_require_cache (o : Oracle) (request : string) : M unit :=
  match require_resolve o request with
  | None => throw MODULE_NOT_FOUND
  | Some file =>
      modify (on_host (λ h, set_requireCache (requireCache h ∖ {[file]}) h))
  end.

(** *** node-cron *)

Definition cron_schedule (cron : string) (handler : Handler) : M nat :=
  tasks ← gets (λ w, cronTasks (host w));
  modify (on_host (set_cronTasks
    (tasks ++ [{| task_cron := cron; task_handler := handler; task_running := true |}])));;
  mret (length tasks).

Definition stop_task (t : ScheduledTask) : ScheduledTask :=
  {| task_cron := task_cron t; task_handler := task_handler t; task_running := false |}.

Definition task_stop (task : nat) : M unit :=
  modify (on_host (λ h, set_cronTasks (alter stop_task task (cronTasks h)) h)).

(** Calling a handler: it is recorded as invoked, and it returns or throws
    as [outcome] says. *)
Definition invoke (handler : Handler) (outcome : option Error) : M unit :=
  modify (on_host (λ h, set_invoked (invoked h ++ [handler]) h));;
  match outcome with
  | Some error => throw error
  | None => mret tt
  end.

(** The callback [registerHook] hands to [schedule]. *)
Definition task_callback (handler : Handler) (outcome : option Error) : M unit :=
  opts ← gets (λ w, options (manager w));
  if schedule opts then
    try_catch (invoke handler outcome) (λ error, logger (ErrorLogged error))
  else mret tt.

(** The scheduler reaching a firing time of a task: a running task has its
    callback called. *)
Definition tick (task : nat) (outcome : option Error) : M unit :=
  tasks ← gets (λ w, cronTasks (host w));
  match tasks !! task with
  | Some t => if task_running t then task_callback (task_handler t) outcome else mret tt
  | None => mret tt
  end.

(** *** Hooks *)

Definition on_emitter (f : Emitter → Emitter) : M unit :=
  modify (on_host (λ h, set_emitter (f (emitter h)) h)).
Definition on_apiEmitter (f : Emitter → Emitter) : M unit :=
  modify (on_manager (λ m, set_apiEmitter (f (apiEmitter m)) m)).

(** One call of the hook on [registerFunctions] (or on the context's
    emitter); [events] is [hookHandler.events]. *)
Definition registerFunction (call : HookCall) (events : list EventHandler)
    : M (list EventHandler) :=
  match call with
  | CallFilter event handler =>
      on_emitter (emitter_on filter_kind event handler);;
      mret (events ++ [FilterEvent event handler])
  | CallAction event handler =>
      on_emitter (emitter_on action_kind event handler);;
      mret (events ++ [ActionEvent event handler])
  | CallInit event handler =>
      on_emitter (emitter_on init_kind event handler);;
      mret (events ++ [InitEvent event handler])
  | CallSchedule cron handler =>
      if validate cron then
        task ← cron_schedule cron handler;
        mret (events ++ [ScheduleEvent task])
      else
        logger (WarnInvalidCron cron);;
        mret events
  | HookContextOn kind event handler =>
      on_apiEmitter (emitter_on kind event handler);;
      mret events
  end.

Definition throw_if (e : option Error) : M unit :=
  match e with
  | Some error => throw error
  | None => mret tt
  end.

Definition registerHook (register : HookConfig) (path : string) : M unit :=
  events ← for_fold (calls register) [] registerFunction;
  throw_if (throws register);;
  update_api (λ a, set_hooks (hooks a ++ [{| hook_path := path; hook_events := events |}]) a).

(** One turn of the loop of [registerHooks]; the filter has narrowed the
    descriptor to an API extension, whose entrypoint is a single path. *)
Definition registerHookFrom (o : Oracle) (extension : Extension) : M unit :=
  match extension with
  | ApiExtension _ _ entrypoint =>
      try_catch
        (let hookPath := path_resolve [path extension; entrypoint] in
         hookInstance ← require o (hook_module o) hookPath;
         let config := getModuleDefault hookInstance in
         registerHook config hookPath)
        (λ error,
           logger (WarnCouldntRegister (ApiT hook) (name extension));;
           logger (WarnError error))
  | _ => mret tt
  end.

Definition registerHooks (o : Oracle) : M unit :=
  exts ← gets (λ w, extensions (manager w));
  for_each (filter (λ extension, type extension = ApiT hook) exts) (registerHookFrom o).

Definition unregisterEvent (event : EventHandler) : M unit :=
  match event with
  | FilterEvent name handler => on_emitter (emitter_off filter_kind name handler)
  | ActionEvent name handler => on_emitter (emitter_off action_kind name handler)
  | InitEvent name handler => on_emitter (emitter_off init_kind name handler)
  | ScheduleEvent task => task_stop task
  end.

Definition unregisterHooks (o : Oracle) : M unit :=
  api ← gets (λ w, apiExtensions (manager w));
  for_each (hooks api) (λ record,
    for_each (hook_events record) unregisterEvent;;
    delete_require_cache o (hook_path record));;
  update_api (set_hooks []).

(** *** Endpoints *)

Definition on_router (f : Router → Router) : M unit :=
  modify (on_manager (λ m, set_endpointRouter (f (endpointRouter m)) m)).

(** [router.use(path, scopedRouter)] with a fresh, empty sub-router. *)
Definition router_use (mount : string) (router : Router) : Router :=
  router ++ [{| mount_path := mount; sub_routes := [] |}].

(** The sub-router just mounted is the last layer of the stack; a route the
    handler attaches to [scopedRouter] shows there. *)
Fixpoint attach_route (route : string) (router : Router) : Router :=
  match router with
  | [] => []
  | [scoped] =>
      [{| mount_path := mount_path scoped; sub_routes := sub_routes scoped ++ [route] |}]
  | layer :: rest => layer :: attach_route route rest
  end.

Definition endpointCall (call : EndpointCall) : M unit :=
  match call with
  | AddRoute route => on_router (attach_route route)
  | EndpointContextOn kind event handler => on_apiEmitter (emitter_on kind event handler)
  end.

Definition registerEndpoint (config : EndpointConfig) (path name : string) : M unit :=
  let register :=
    match config with EndpointFunction f => f | EndpointObject _ handler => handler end in
  let routeName :=
    match config with EndpointFunction _ => name | EndpointObject id _ => id end in
  on_router (router_use ("/" +:+ routeName));;
  for_each (calls register) endpointCall;;
  throw_if (throws register);;
  update_api (λ a, set_endpoints (endpoints a ++ [path]) a).

(** One turn of the loop of [registerEndpoints]. *)
Definition registerEndpointFrom (o : Oracle) (extension : Extension) : M unit :=
  match extension with
  | ApiExtension _ _ entrypoint =>
      try_catch
        (let endpointPath := path_resolve [path extension; entrypoint] in
         endpointInstance ← require o (endpoint_module o) endpointPath;
         let config := getModuleDefault endpointInstance in
         registerEndpoint config endpointPath (name extension))
        (λ error,
           logger (WarnCouldntRegister (ApiT endpoint) (name extension));;
           logger (WarnError error))
  | _ => mret tt
  end.

Definition registerEndpoints (o : Oracle) : M unit :=
  exts ← gets (λ w, extensions (manager w));
  for_each (filter (λ extension, type extension = ApiT endpoint) exts)
           (registerEndpointFrom o).

Definition unregisterEndpoints (o : Oracle) : M unit :=
  api ← gets (λ w, apiExtensions (manager w));
  for_each (endpoints api) (delete_require_cache o);;
  on_router (λ _, []);;
  update_api (set_endpoints []).

(** *** Storages *)

(** One turn of the loop of [registerStorages]: what [require] returns is
    stored as the configuration. *)
Definition registerStorageFrom (o : Oracle) (extension : Extension) : M unit :=
  match extension with
  | ApiExtension _ _ entrypoint =>
      try_catch
        (let storagePath := path_resolve [path extension; entrypoint] in
         config ← require o (storage_module o) storagePath;
         update_api (λ a, set_storages (storages a ++ [(storagePath, config)]) a))
        (λ error,
           logger (WarnCouldntRegister (ApiT storage) (name extension));;
           logger (WarnError error))
  | _ => mret tt
  end.

Definition registerStorages (o : Oracle) : M unit :=
  exts ← gets (λ w, extensions (manager w));
  for_each (filter (λ extension, type extension = ApiT storage) exts)
           (registerStorageFrom o).

Definition unregisterStorages (o : Oracle) : M unit :=
  api ← gets (λ w, apiExtensions (manager w));
  for_each (storages api) (λ record, delete_require_cache o record.1);;
  update_api (set_storages []).

(** *** Operations *)

(** What the registration loop reads of an operation, built in or
    discovered: [name], [path] and [entrypoint.api]. *)
Record OperationSource := {
  source_name : string;
  source_path : string;
  source_api : string;
}.

Definition internalOperation (internalPath : string) : OperationSource :=
  let dirs := split_on path_sep internalPath in
  {| source_name :=
       default "undefined"
         (if decide (2 ≤ length dirs)%nat then dirs !! (length dirs - 2) else None);
     source_path := join_with path_sep (take (length dirs - 1) dirs);
     source_api := default "undefined" (last dirs) |}.

Definition operationSource (extension : Extension) : option OperationSource :=
  match extension with
  | HybridExtension _ operation _ api =>
      Some {| source_name := name extension; source_path := path extension;
              source_api := api |}
  | _ => None
  end.

(** Modelled from the spec: the flow manager of ./flows, which is not among
    the sources: a configuration is "forwarded as (id, handler) to the
    workflow engine's operation registry", and "unregistration clears that
    entire registry at once". *)
Definition addOperation (id : string) (handler : Handler) : M unit :=
  modify (on_host (λ h, set_flowOperations (flowOperations h ++ [(id, handler)]) h)).
Definition clearOperations : M unit :=
  modify (on_host (set_flowOperations [])).

Definition registerOperation (config : OperationApiConfig) (path : string) : M unit :=
  addOperation (operation_id config) (operation_handler config);;
  update_api (λ a, set_operations (operations a ++ [path]) a).

Definition registerOperationFrom (o : Oracle) (source : OperationSource) : M unit :=
  try_catch
    (let operationPath := path_resolve [source_path source; source_api source] in
     operationInstance ← require o (operation_module o) operationPath;
     let config := getModuleDefault operationInstance in
     registerOperation config operationPath)
    (λ error,
       logger (WarnCouldntRegister (HybridT operation) (source_name source));;
       logger (WarnError error)).

Definition registerOperations (o : Oracle) : M unit :=
  internalPaths ← await (globby_operations o);
  let internalOperations := internalOperation <$> internalPaths in
  exts ← gets (λ w, extensions (manager w));
  let operations := omap operationSource exts in
  for_each (internalOperations ++ operations) (registerOperationFrom o).

Definition unregisterOperations (o : Oracle) : M unit :=
  api ← gets (λ w, apiExtensions (manager w));
  for_each (operations api) (delete_require_cache o);;
  clearOperations;;
  update_api (set_operations []).

(** *** Bundles for the app *)

(** [depsMapping] is keyed by dependency name; the names of
    [APP_SHARED_DEPS] are distinct, so the record is the list of its entries
    in insertion order. *)
Definition getSharedDepsMapping (o : Oracle) (deps : list string)
    : M (list (string * string)) :=
  appDir ← await (readdir_assets o);
  for_fold deps [] (λ dep depsMapping,
    match find_dep_chunk dep appDir with
    | Some depName => mret (depsMapping ++ [(dep, asset_url (PUBLIC_URL env) depName)])
    | None => logger (WarnMissingSharedDep dep);; mret depsMapping
    end).

(** One turn of the loop over [APP_EXTENSION_TYPES]: [bundles] is assigned
    once [generate] has resolved, before [close] is awaited. *)
Definition bundleType (o : Oracle) (sharedDepsMapping : list (string * string))
    (exts : list Extension) (extensionType : ExtensionType)
    (bundles : gmap ExtensionType string) : M (gmap ExtensionType string) :=
  let entry := generateExtensionsEntry extensionType exts in
  let couldnt_bundle error := logger WarnCouldntBundle;; logger (WarnError error) in
  match rollup o {| entry := entry;
                    external := sharedDepsMapping.*2;
                    alias_entries := sharedDepsMapping |} with
  | RollupRejects error => couldnt_bundle error;; mret bundles
  | GenerateRejects error => couldnt_bundle error;; mret bundles
  | Generated code close =>
      let bundles := <[extensionType := code]> bundles in
      match close with
      | None => mret bundles
      | Some error => couldnt_bundle error;; mret bundles
      end
  end.

Definition generateExtensionBundles (o : Oracle) : M (gmap ExtensionType string) :=
  sharedDepsMapping ← getSharedDepsMapping o APP_SHARED_DEPS;
  exts ← gets (λ w, extensions (manager w));
  for_fold APP_EXTENSION_TYPES ∅ (bundleType o sharedDepsMapping exts).

(** *** The watcher *)

(** Modelled from the spec: chokidar's watcher, which is not among the
    sources, as the set of paths and patterns it tracks: "files belonging to
    newly added extensions are added to the watch set; files belonging to
    removed extensions are unwatched". *)
Definition chokidar_watch (paths : list string) : gset string := list_to_set paths.
Definition watcher_add (paths : list string) (tracked : gset string) : gset string :=
  tracked ∪ list_to_set paths.
Definition watcher_unwatch (paths : list string) (tracked : gset string) : gset string :=
  tracked ∖ list_to_set paths.

Definition extension_types : list ExtensionType :=
  if SERVE_APP env then EXTENSION_TYPES else API_EXTENSION_TYPES.

Definition localExtensionPaths : list string :=
  flat_map (λ t,
    let typeDir := type_dir t in
    if isHybridExtension t
    then [posix_join [typeDir; "*"; "app.js"]; posix_join [typeDir; "*"; "api.js"]]
    else [posix_join [typeDir; "*"; "index.js"]])
  extension_types.

Definition initializeWatcher : M unit :=
  opts ← gets (λ w, options (manager w));
  current ← gets (λ w, watcher (manager w));
  if watch opts && bool_decide (current = None) then
    logger InfoWatching;;
    modify (on_host (λ h, set_watchersCreated (S (watchersCreated h)) h));;
    modify (on_manager (set_watcher
      (Some (chokidar_watch (path_resolve ["package.json"] :: localExtensionPaths)))))
  else mret tt.

Definition toPackageExtensionPaths (exts : list Extension) : list string :=
  flat_map (λ extension,
    match extension with
    | ExtensionPackage _ _ => [path_resolve [path extension; "package.json"]]
    | HybridExtension _ _ app api =>
        [path_resolve [path extension; app]; path_resolve [path extension; api]]
    | AppExtension _ _ entrypoint | ApiExtension _ _ entrypoint =>
        [path_resolve [path extension; entrypoint]]
    end)
  (filter (λ extension, local extension = false) exts).

Definition updateWatchedExtensions (added removed : list Extension) : M unit :=
  current ← gets (λ w, watcher (manager w));
  match current with
  | Some tracked =>
      let addedPackageExtensionPaths := toPackageExtensionPaths added in
      let removedPackageExtensionPaths := toPackageExtensionPaths removed in
      modify (on_manager (set_watcher (Some
        (watcher_unwatch removedPackageExtensionPaths
           (watcher_add addedPackageExtensionPaths tracked)))))
  | None => mret tt
  end.

(** *** The cycle *)

Definition getExtensions (o : Oracle) : M (list Extension) :=
  packageExtensions ← await (getPackageExtensions o "."
    (if SERVE_APP env then EXTENSION_PACKAGE_TYPES else API_EXTENSION_PACKAGE_TYPES));
  localExtensions ← await (getLocalExtensions o (EXTENSIONS_PATH env) extension_types);
  mret (packageExtensions ++ localExtensions).

(** What [load] does once its [try] block is over. *)
Definition load_registrations (o : Oracle) : M unit :=
  registerHooks o;;
  registerEndpoints o;;
  registerStorages o;;
  registerOperations o;;
  (if SERVE_APP env then
     bundles ← generateExtensionBundles o;
     modify (on_manager (set_appExtensions bundles))
   else mret tt);;
  modify (on_manager (set_isLoaded true)).

(** Discovery: the two awaited calls of the [try] block of [load]. *)
Definition discovery (o : Oracle) : M (list Extension) :=
  await (ensureExtensionDirs o (EXTENSIONS_PATH env) extension_types);;
  getExtensions o.

Definition load (o : Oracle) : M unit :=
  try_catch
    (exts ← discovery o;
     modify (on_manager (set_extensions exts)))
    (λ err, logger WarnCouldntLoad;; logger (WarnError err));;
  load_registrations o.

Definition unload (o : Oracle) : M unit :=
  unregisterHooks o;;
  unregisterEndpoints o;;
  unregisterStorages o;;
  unregisterOperations o;;
  on_apiEmitter emitter_offAll;;
  (if SERVE_APP env then modify (on_manager (set_appExtensions ∅)) else mret tt);;
  modify (on_manager (set_isLoaded false)).

Definition added_extensions (prevExtensions exts : list Extension) : list Extension :=
  filter (λ extension,
            ¬ Exists (λ prevExtension, path extension = path prevExtension) prevExtensions)
         exts.
Definition removed_extensions (prevExtensions exts : list Extension) : list Extension :=
  filter (λ prevExtension,
            ¬ Exists (λ extension, path prevExtension = path extension) exts)
         prevExtensions.

Definition log_names (entry : list string → LogEntry) (names : list string) : M unit :=
  if decide (0 < length names)%nat then logger (entry names) else mret tt.

(** Modelled from the spec: the job queue of utils/job-queue, which is not
    among the sources: "exactly one [job] executes at a time, each running
    its full unload/load cycle to completion before the next begins".
    [reload] is the job it enqueues, run as one step. *)
Definition reload (o : Oracle) : M unit :=
  loaded ← gets (λ w, isLoaded (manager w));
  if loaded : bool then
    logger InfoReloading;;
    prevExtensions ← gets (λ w, extensions (manager w));
    unload o;;
    load o;;
    exts ← gets (λ w, extensions (manager w));
    let added := added_extensions prevExtensions exts in
    let removed := removed_extensions prevExtensions exts in
    updateWatchedExtensions added removed;;
    log_names InfoAdded (name <$> added);;
    log_names InfoRemoved (name <$> removed)
  else logger WarnNotLoaded.

Definition merge_options (options : PartialOptions) : Options :=
  {| schedule := default (schedule defaultOptions) (schedule_opt options);
     watch := default (watch defaultOptions) (watch_opt options) |}.

Definition initialize (options : PartialOptions) (o : Oracle) : M unit :=
  modify (on_manager (set_options (merge_options options)));;
  initializeWatcher;;
  loaded ← gets (λ w, isLoaded (manager w));
  if negb loaded then
    load o;;
    exts ← gets (λ w, extensions (manager w));
    updateWatchedExtensions exts [];;
    loadedExtensions ← gets (λ w, getExtensionsList None (manager w));
    log_names InfoLoaded loadedExtensions
  else mret tt.

(** The process at start-up, holding a freshly constructed manager. *)
Definition new_world : World :=
  {| manager := new_manager;
     host := {| emitter := []; flowOperations := []; cronTasks := [];
                requireCache := ∅; log := []; invoked := [];
                watchersCreated := 0 |} |}.

End ExtensionManager.

(** ** A concrete platform, for evaluation *)

Definition production_env : Env :=
  {| EXTENSIONS_PATH := "./extensions"; SERVE_APP := true;
     EXTENSIONS_AUTO_RELOAD := true; NODE_ENV := "production"; PUBLIC_URL := "/" |}.

Definition development_env : Env :=
  {| EXTENSIONS_PATH := "./extensions"; SERVE_APP := true;
     EXTENSIONS_AUTO_RELOAD := true; NODE_ENV := "development"; PUBLIC_URL := "/" |}.

Definition type_name (t : ExtensionType) : string :=
  match t with
  | AppT interface => "interface" | AppT display => "display"
  | AppT layout => "layout" | AppT module => "module" | AppT panel => "panel"
  | ApiT hook => "hook" | ApiT endpoint => "endpoint" | ApiT storage => "storage"
  | HybridT operation => "operation"
  | pack => "pack"
  end.

(** [path.resolve] on POSIX, from the working directory [cwd]: the segments
    from the last absolute one on, or [cwd] and all of them if none is
    absolute, joined by slashes; empty and [.] segments are dropped and a
    [..] takes back the segment before it, never going above the root. *)
Definition is_absolute (p : string) : bool :=
  match p with
  | String c _ => bool_decide (c = "/"%char)
  | EmptyString => false
  end.

Definition normalize_segments (dirs : list string) : list string :=
  foldl (λ kept dir,
           if decide (dir = "" ∨ dir = ".") then kept
           else if decide (dir = "..") then take (length kept - 1) kept
           else kept ++ [dir])
        [] dirs.

Definition posix_resolve (cwd : string) (segments : list string) : string :=
  let resolved :=
    foldl (λ resolved segment,
             if is_absolute segment then segment
             else resolved +:+ "/" +:+ segment)
          cwd segments in
  "/" +:+ join_with "/"%char (normalize_segments (split_on "/"%char resolved)).

(** The test of [getSharedDepsMapping]: the file name holds, anywhere, the
    dependency name with its slashes turned into underscores, a dot, eight
    lower-case hexadecimal digits and [.entry.js]. *)
Fixpoint strip_prefix (prefix s : string) : option string :=
  match prefix with
  | EmptyString => Some s
  | String c prefix' =>
      match s with
      | String c' s' => if decide (c = c') then strip_prefix prefix' s' else None
      | EmptyString => None
      end
  end.

Definition is_hex_digit (c : Ascii.ascii) : bool :=
  bool_decide (c ∈ String.list_ascii_of_string "0123456789abcdef").

Fixpoint strip_hex_digits (n : nat) (s : string) : option string :=
  match n with
  | 0 => Some s
  | S n' =>
      match s with
      | String c s' => if is_hex_digit c then strip_hex_digits n' s' else None
      | EmptyString => None
      end
  end.

Fixpoint slashes_to_underscores (dep : string) : string :=
  match dep with
  | EmptyString => EmptyString
  | String c dep' =>
      String (if decide (c = "/"%char) then "_"%char else c) (slashes_to_underscores dep')
  end.

Definition chunk_here (dep file : string) : bool :=
  match strip_prefix (slashes_to_underscores dep +:+ ".") file with
  | Some hashed =>
      match strip_hex_digits 8 hashed with
      | Some suffix => bool_decide (is_Some (strip_prefix ".entry.js" suffix))
      | None => false
      end
  | None => false
  end.

Fixpoint chunk_within (dep file : string) : bool :=
  chunk_here dep file
  || match file with
     | String _ file' => chunk_within dep file'
     | EmptyString => false
     end.

(** POSIX paths resolved from the working directory [/srv]; only
    [* * * * *] is taken for a valid cron expression. *)
Definition posix_platform (e : Env) : Platform :=
  {| env := e;
     path_sep := "/"%char;
     path_resolve := posix_resolve "/srv";
     posix_join := join_with "/";
     type_dir := λ t, "extensions/" +:+ type_name t +:+ "s";
     validate := λ cron, bool_decide (cron = "* * * * *");
     generateExtensionsEntry := λ t exts,
       "export " +:+ type_name t +:+ ": " +:+
       join_with ","
         (path <$> filter (λ extension, type extension = t) exts);
     find_dep_chunk := λ dep appDir,
       head (filter (λ file, chunk_within dep file = true) appDir);
     asset_url := λ public file, public +:+ "admin/assets/" +:+ file |}.

(** ** Projections of the world used in the statements *)

(** What the registrars, the unregistrars and the bundler never touch: the
    descriptor list, the watcher, the options and the count of watchers
    created. *)
Definition settings (w : World)
    : list Extension * option (gset string) * Options * nat :=
  (extensions (manager w), watcher (manager w), options (manager w),
   watchersCreated (host w)).

(** What a load cycle never touches: whether a watcher exists and what it
    tracks, the options, the count of watchers created. *)
Definition watching (w : World) : option (gset string) * Options * nat :=
  (watcher (manager w), options (manager w), watchersCreated (host w)).

Definition router_of (w : World) : Router := endpointRouter (manager w).
Definition flow_of (w : World) : list (string * Handler) := flowOperations (host w).

(** ** Concrete cycles, for evaluation *)

Definition no_options : PartialOptions :=
  {| schedule_opt := None; watch_opt := None |}.

(** A package extension of type hook; its module registers a filter and
    an action, and schedules a task. *)
Definition audit_extension : Extension :=
  ApiExtension
    {| base_path := "/srv/node_modules/directus-extension-audit";
       base_name := "directus-extension-audit";
       base_local := false |}
    hook "dist/index.js".

Definition audit_hook : HookConfig :=
  {| calls := [CallFilter "items.create" 1; CallAction "items.create" 2;
               CallSchedule "* * * * *" 3];
     throws := None |}.

Definition audit_oracle : Oracle :=
  {| ensureExtensionDirs := λ _ _, Returned tt;
     getPackageExtensions := λ _ _, Returned [audit_extension];
     getLocalExtensions := λ _ _, Returned [];
     require_resolve := λ request, Some request;
     hook_module := λ _, Returned (Bare audit_hook);
     endpoint_module := λ _, Thrown "ENOENT";
     storage_module := λ _, Thrown "ENOENT";
     operation_module := λ _, Thrown "ENOENT";
     globby_operations := Returned [];
     readdir_assets := Returned [];
     rollup := λ input, Generated (entry input) None |}.

(** A cycle in which the extensions directory cannot be prepared. *)
Definition unreadable_oracle : Oracle :=
  {| ensureExtensionDirs := λ _ _, Thrown "EACCES";
     getPackageExtensions := λ _ _, Returned [];
     getLocalExtensions := λ _ _, Returned [];
     require_resolve := λ request, Some request;
     hook_module := λ _, Returned (Bare audit_hook);
     endpoint_module := λ _, Thrown "ENOENT";
     storage_module := λ _, Thrown "ENOENT";
     operation_module := λ _, Thrown "ENOENT";
     globby_operations := Returned [];
     readdir_assets := Returned [];
     rollup := λ input, Generated (entry input) None |}.

Definition production : Platform := posix_platform production_env.
Definition development : Platform := posix_platform development_env.

(** The production process once [initialize()] has loaded the audit hook. *)
Definition audit_world : World :=
  (@initialize production no_options audit_oracle (@new_world production)).2.

(** A hook whose [register] binds a filter, schedules a task and then
    throws. *)
Definition leaky_hook : HookConfig :=
  {| calls := [CallFilter "items.create" 1; CallSchedule "* * * * *" 2];
     throws := Some "boom" |}.

Definition leaky_oracle : Oracle :=
  {| ensureExtensionDirs := λ _ _, Returned tt;
     getPackageExtensions := λ _ _, Returned [audit_extension];
     getLocalExtensions := λ _ _, Returned [];
     require_resolve := λ request, Some request;
     hook_module := λ _, Returned (Bare leaky_hook);
     endpoint_module := λ _, Thrown "ENOENT";
     storage_module := λ _, Thrown "ENOENT";
     operation_module := λ _, Thrown "ENOENT";
     globby_operations := Returned [];
     readdir_assets := Returned [];
     rollup := λ input, Generated (entry input) None |}.

(** The same files, each exporting its configuration bare, or each
    exporting it under [default]. *)
Definition outcome_map {A B} (f : A → B) (r : Outcome A) : Outcome B :=
  match r with
  | Returned a => Returned (f a)
  | Thrown e => Thrown e
  end.

Definition export_as (wrap : ∀ C, C → Exported C) (o : Oracle) : Oracle :=
  {| ensureExtensionDirs := ensureExtensionDirs o;
     getPackageExtensions := getPackageExtensions o;
     getLocalExtensions := getLocalExtensions o;
     require_resolve := require_resolve o;
     hook_module := λ file,
       outcome_map (λ m, wrap _ (getModuleDefault m)) (hook_module o file);
     endpoint_module := λ file,
       outcome_map (λ m, wrap _ (getModuleDefault m)) (endpoint_module o file);
     storage_module := λ file,
       outcome_map (λ m, wrap _ (getModuleDefault m)) (storage_module o file);
     operation_module := λ file,
       outcome_map (λ m, wrap _ (getModuleDefault m)) (operation_module o file);
     globby_operations := globby_operations o;
     readdir_assets := readdir_assets o;
     rollup := rollup o |}.

Definition bare_exports : Oracle → Oracle := export_as (@Bare).
Definition default_exports : Oracle → Oracle := export_as (@DefaultWrapped).

(** A local storage extension and its driver configuration. *)
Definition s3_extension : Extension :=
  ApiExtension
    {| base_path := "/srv/extensions/storages/s3";
       base_name := "s3";
       base_local := true |}
    storage "index.js".

Definition s3_oracle : Oracle :=
  {| ensureExtensionDirs := λ _ _, Returned tt;
     getPackageExtensions := λ _ _, Returned [];
     getLocalExtensions := λ _ _, Returned [s3_extension];
     require_resolve := λ request, Some request;
     hook_module := λ _, Thrown "ENOENT";
     endpoint_module := λ _, Thrown "ENOENT";
     storage_module := λ _, Returned (Bare {| driver := "s3" |});
     operation_module := λ _, Thrown "ENOENT";
     globby_operations := Returned [];
     readdir_assets := Returned [];
     rollup := λ input, Generated (entry input) None |}.

Definition s3_world : World :=
  on_manager (set_extensions [s3_extension]) (@new_world production).

(** ** What the registrars are expected to bind *)

Definition option_list {A} (x : option A) : list A :=
  match x with
  | Some a => [a]
  | None => []
  end.

(** The routes a handler attaches to the router it is given. *)
Definition endpoint_routes (register : EndpointRegister) : list string :=
  omap (λ call, match call with AddRoute route => Some route | _ => None end)
       (calls register).

(** The layer an endpoint configuration is expected to add for an extension
    of a given name: mounted at the name for a bare handler, at the id for an
    object, holding the handler's routes. *)
Definition endpoint_layer (config : EndpointConfig) (name : string) : Layer :=
  match config with
  | EndpointFunction register =>
      {| mount_path := "/" +:+ name; sub_routes := endpoint_routes register |}
  | EndpointObject id handler =>
      {| mount_path := "/" +:+ id; sub_routes := endpoint_routes handler |}
  end.

Section Expected.
Context `{Platform}.

(** The configuration an endpoint extension's entrypoint yields in a cycle,
    if it can be required. *)
Definition endpoint_config (o : Oracle) (extension : Extension) : option EndpointConfig :=
  match extension with
  | ApiExtension _ endpoint entrypoint =>
      match require_resolve o (path_resolve [path extension; entrypoint]) with
      | Some file =>
          match endpoint_module o file with
          | Returned instance => Some (getModuleDefault instance)
          | Thrown _ => None
          end
      | None => None
      end
  | _ => None
  end.

Definition mounted_by (o : Oracle) (extension : Extension) : option Layer :=
  (λ config, endpoint_layer config (name extension)) <$> endpoint_config o extension.

(** The [(id, handler)] pair an operation's entrypoint yields in a cycle, if
    it can be required. *)
Definition operation_binding (o : Oracle) (source : OperationSource)
    : option (string * Handler) :=
  match require_resolve o (path_resolve [source_path source; source_api source]) with
  | Some file =>
      match operation_module o file with
      | Returned instance =>
          let config := getModuleDefault instance in
          Some (operation_id config, operation_handler config)
      | Thrown _ => None
      end
  | None => None
  end.

End Expected.

(** Two endpoint extensions named alpha and beta, each exporting a bare
    handler function. *)
Definition alpha : Extension :=
  ApiExtension
    {| base_path := "/srv/extensions/endpoints/alpha"; base_name := "alpha";
       base_local := true |}
    endpoint "index.js".
Definition beta : Extension :=
  ApiExtension
    {| base_path := "/srv/extensions/endpoints/beta"; base_name := "beta";
       base_local := true |}
    endpoint "index.js".

Definition greeting_oracle : Oracle :=
  {| ensureExtensionDirs := λ _ _, Returned tt;
     getPackageExtensions := λ _ _, Returned [];
     getLocalExtensions := λ _ _, Returned [alpha; beta];
     require_resolve := λ request, Some request;
     hook_module := λ _, Thrown "ENOENT";
     endpoint_module := λ file,
       Returned (DefaultWrapped (EndpointFunction
         {| calls := [AddRoute "/"; AddRoute "/hello"]; throws := None |}));
     storage_module := λ _, Thrown "ENOENT";
     operation_module := λ _, Thrown "ENOENT";
     globby_operations := Returned [];
     readdir_assets := Returned [];
     rollup := λ input, Generated (entry input) None |}.

(** A path segment: a string in which the separator does not occur. *)
Fixpoint free_of (sep : Ascii.ascii) (s : string) : Prop :=
  match s with
  | EmptyString => True
  | String c s' => c ≠ sep ∧ free_of sep s'
  end.

(** A cycle in which the glob finds two built-in operations and discovery
    finds one operation extension; the [mail] entrypoint cannot be required. *)
Definition notify_extension : Extension :=
  HybridExtension
    {| base_path := "/srv/node_modules/directus-extension-notify";
       base_name := "directus-extension-notify";
       base_local := false |}
    operation "dist/app.js" "dist/api.js".

Definition operations_oracle : Oracle :=
  {| ensureExtensionDirs := λ _ _, Returned tt;
     getPackageExtensions := λ _ _, Returned [notify_extension];
     getLocalExtensions := λ _ _, Returned [];
     require_resolve := λ request, Some request;
     hook_module := λ _, Thrown "ENOENT";
     endpoint_module := λ _, Thrown "ENOENT";
     storage_module := λ _, Thrown "ENOENT";
     operation_module := λ file,
       if decide (file = "/srv/dist/operations/log/index.js") then
         Returned (DefaultWrapped {| operation_id := "log"; operation_handler := 10 |})
       else if decide (file = "/srv/node_modules/directus-extension-notify/dist/api.js") then
         Returned (Bare {| operation_id := "notify"; operation_handler := 11 |})
       else Thrown "ENOENT";
     globby_operations :=
       Returned ["dist/operations/log/index.js"; "dist/operations/mail/index.js"];
     readdir_assets := Returned [];
     rollup := λ input, Generated (entry input) None |}.

Section ExpectedBundles.
Context `{Platform}.

(** The shared dependencies whose published chunk is found in the asset
    directory, each with the URL it is externalized to. *)
Definition expected_mapping (appDir : list string) (deps : list string)
    : list (string * string) :=
  omap (λ dep, (λ depName, (dep, asset_url (PUBLIC_URL env) depName))
                 <$> find_dep_chunk dep appDir) deps.

(** A type compiles when [rollup] and [generate] both resolve for its entry
    module; the code of the first output chunk is then its bundle. *)
Definition compiled (o : Oracle) (mapping : list (string * string))
    (exts : list Extension) (t : ExtensionType) : option string :=
  match rollup o {| entry := generateExtensionsEntry t exts;
                    external := mapping.*2;
                    alias_entries := mapping |} with
  | Generated code _ => Some code
  | RollupRejects _ | GenerateRejects _ => None
  end.

(** The bundle map after the turn of the loop for one type. *)
Definition bundle_step (o : Oracle) (mapping : list (string * string))
    (exts : list Extension) (bundles : gmap ExtensionType string)
    (t : ExtensionType) : gmap ExtensionType string :=
  match compiled o mapping exts t with
  | Some code => <[t := code]> bundles
  | None => bundles
  end.

End ExpectedBundles.

(** A cycle in which the bundle of layouts fails in [generate], the bundle
    of modules fails in [rollup], and every other type compiles. *)
Definition bundling_oracle : Oracle :=
  {| ensureExtensionDirs := λ _ _, Returned tt;
     getPackageExtensions := λ _ _, Returned [];
     getLocalExtensions := λ _ _, Returned [];
     require_resolve := λ request, Some request;
     hook_module := λ _, Thrown "ENOENT";
     endpoint_module := λ _, Thrown "ENOENT";
     storage_module := λ _, Thrown "ENOENT";
     operation_module := λ _, Thrown "ENOENT";
     globby_operations := Returned [];
     readdir_assets := Returned ["vue.entry.js"; "pinia.entry.js"];
     rollup := λ input,
       if decide (entry input = "export layout: ") then GenerateRejects "syntax error"
       else if decide (entry input = "export module: ") then RollupRejects "unresolved"
       else Generated ("/*" +:+ entry input +:+ "*/") None |}.

(** ** Runs of the process *)

(** What can happen to the manager once the process is up: a call of
    [initialize], a reload job taken from the queue, a scheduled task
    reaching a firing time. *)
Inductive Event :=
| Initialize (options : PartialOptions) (o : Oracle)
| Reload (o : Oracle)
| Tick (task : nat) (outcome : option Error).

Section Runs.
Context `{Platform}.

Definition run_event (w : World) (e : Event) : World :=
  match e with
  | Initialize options o => (initialize options o w).2
  | Reload o => (reload o w).2
  | Tick task outcome => (tick task outcome w).2
  end.

Definition run (events : list Event) : World := foldl run_event new_world events.

End Runs.

(** Whether the manager has no watcher, and how many were ever created. *)
Definition census (w : World) : bool * nat :=
  (bool_decide (watcher (manager w) = None), watchersCreated (host w)).

(** Either no watcher exists and none was ever created, or one exists and
    it is the only one ever created. *)
Definition one_watcher (w : World) : Prop :=
  census w = (true, 0) ∨ census w = (false, 1).

(** An event that leaves the [watch] option to its default. *)
Definition default_watch (e : Event) : Prop :=
  match e with
  | Initialize options _ => watch_opt options = None
  | Reload _ | Tick _ _ => True
  end.

(** The files one descriptor contributes to the watch set. *)
Definition watched_files `{Platform} (extension : Extension) : list string :=
  toPackageExtensionPaths [extension].

(** The audit package after a rebuild that moved its entrypoint. *)
Definition rebuilt_extension : Extension :=
  ApiExtension
    {| base_path := "/srv/node_modules/directus-extension-audit";
       base_name := "directus-extension-audit";
       base_local := false |}
    hook "build/index.js".

Definition rebuilt_oracle : Oracle :=
  {| ensureExtensionDirs := λ _ _, Returned tt;
     getPackageExtensions := λ _ _, Returned [rebuilt_extension];
     getLocalExtensions := λ _ _, Returned [];
     require_resolve := λ request, Some request;
     hook_module := λ _, Returned (Bare audit_hook);
     endpoint_module := λ _, Thrown "ENOENT";
     storage_module := λ _, Thrown "ENOENT";
     operation_module := λ _, Thrown "ENOENT";
     globby_operations := Returned [];
     readdir_assets := Returned [];
     rollup := λ input, Generated (entry input) None |}.

(** Two packages whose entrypoints resolve to one file, and a cycle in which
    only the second is left. *)
Definition outer_extension : Extension :=
  ApiExtension
    {| base_path := "/srv/node_modules/outer"; base_name := "outer";
       base_local := false |}
    hook "inner/index.js".
Definition inner_extension : Extension :=
  ApiExtension
    {| base_path := "/srv/node_modules/outer/inner"; base_name := "inner";
       base_local := false |}
    hook "index.js".

Definition nested_oracle (found : list Extension) : Oracle :=
  {| ensureExtensionDirs := λ _ _, Returned tt;
     getPackageExtensions := λ _ _, Returned found;
     getLocalExtensions := λ _ _, Returned [];
     require_resolve := λ request, Some request;
     hook_module := λ _, Returned (Bare audit_hook);
     endpoint_module := λ _, Thrown "ENOENT";
     storage_module := λ _, Thrown "ENOENT";
     operation_module := λ _, Thrown "ENOENT";
     globby_operations := Returned [];
     readdir_assets := Returned [];
     rollup := λ input, Generated (entry input) None |}.

Definition nested_world : World :=
  (@initialize production no_options
     (nested_oracle [outer_extension; inner_extension]) (@new_world production)).2.

(** Whether the watcher, if there is one, tracks a path. *)
Definition tracks (w : World) (file : string) : bool :=
  match watcher (manager w) with
  | Some tracked => bool_decide (file ∈ tracked)
  | None => false
  end.

(** A cycle in which the notify package has been installed next to the
    audit package. *)
Definition extended_oracle : Oracle :=
  {| ensureExtensionDirs := λ _ _, Returned tt;
     getPackageExtensions := λ _ _, Returned [audit_extension; notify_extension];
     getLocalExtensions := λ _ _, Returned [];
     require_resolve := λ request, Some request;
     hook_module := λ _, Returned (Bare audit_hook);
     endpoint_module := λ _, Thrown "ENOENT";
     storage_module := λ _, Thrown "ENOENT";
     operation_module := λ _,
       Returned (Bare {| operation_id := "notify"; operation_handler := 11 |});
     globby_operations := Returned [];
     readdir_assets := Returned [];
     rollup := λ input, Generated (entry input) None |}.

(** ** What a cycle is expected to record *)

Section ExpectedRegistry.
Context `{Platform}.

(** The resolved entrypoint of a hook extension and the configuration it
    yields in a cycle, if it can be required. *)
Definition hook_config (o : Oracle) (extension : Extension)
    : option (string * HookConfig) :=
  match extension with
  | ApiExtension _ hook entrypoint =>
      let hookPath := path_resolve [path extension; entrypoint] in
      match require_resolve o hookPath with
      | Some file =>
          match hook_module o file with
          | Returned instance => Some (hookPath, getModuleDefault instance)
          | Thrown _ => None
          end
      | None => None
      end
  | _ => None
  end.

(** The path recorded for a hook extension: that of a hook whose module
    can be required and whose [register] returns. *)
Definition recorded_hook (o : Oracle) (extension : Extension) : option string :=
  match hook_config o extension with
  | Some (hookPath, config) =>
      match throws config with
      | None => Some hookPath
      | Some _ => None
      end
  | None => None
  end.

(** The path recorded for an endpoint extension: that of an endpoint whose
    module can be required and whose handler returns. *)
Definition recorded_endpoint (o : Oracle) (extension : Extension) : option string :=
  match extension, endpoint_config o extension with
  | ApiExtension _ _ entrypoint, Some config =>
      let register :=
        match config with EndpointFunction f => f | EndpointObject _ handler => handler end in
      match throws register with
      | None => Some (path_resolve [path extension; entrypoint])
      | Some _ => None
      end
  | _, _ => None
  end.

(** The record of a storage extension: its resolved entrypoint with what
    [require] returned for it. *)
Definition recorded_storage (o : Oracle) (extension : Extension)
    : option (string * Exported StorageConfig) :=
  match extension with
  | ApiExtension _ storage entrypoint =>
      let storagePath := path_resolve [path extension; entrypoint] in
      match require_resolve o storagePath with
      | Some file =>
          match storage_module o file with
          | Returned config => Some (storagePath, config)
          | Thrown _ => None
          end
      | None => None
      end
  | _ => None
  end.

(** The path recorded for an operation: that of an operation whose module
    can be required. *)
Definition recorded_operation (o : Oracle) (source : OperationSource) : option string :=
  let operationPath := path_resolve [source_path source; source_api source] in
  match operation_binding o source with
  | Some _ => Some operationPath
  | None => None
  end.

End ExpectedRegistry.

Definition hook_paths (w : World) : list string :=
  hook_path <$> hooks (apiExtensions (manager w)).
Definition endpoint_paths (w : World) : list string := endpoints (apiExtensions (manager w)).
Definition storage_records (w : World) : list (string * Exported StorageConfig) :=
  storages (apiExtensions (manager w)).
Definition operation_paths (w : World) : list string :=
  operations (apiExtensions (manager w)).

(** Every path the registry holds: those [unload] resolves again to evict
    the modules from the cache. *)
Definition registry_paths (w : World) : list string :=
  hook_paths w ++ endpoint_paths w ++ (storage_records w).*1 ++ operation_paths w.

Definition resolvable (o : Oracle) (request : string) : Prop :=
  is_Some (require_resolve o request).

Definition loaded_flag (w : World) : bool := isLoaded (manager w).

Definition hooks_of (w : World) : list HookRecord := hooks (apiExtensions (manager w)).
Definition cache_of (w : World) : gset string := requireCache (host w).

(** The files a list of requests resolves to. *)
Definition resolved_files (o : Oracle) (requests : list string) : gset string :=
  list_to_set (omap (require_resolve o) requests).

(** A cycle in which the package of the audit hook has been removed from
    the disk: nothing is discovered and no module can be evaluated.  The
    requests resolved in earlier cycles still resolve, as they do in Node,
    which answers them from its path cache. *)
Definition removed_oracle : Oracle :=
  {| ensureExtensionDirs := λ _ _, Returned tt;
     getPackageExtensions := λ _ _, Returned [];
     getLocalExtensions := λ _ _, Returned [];
     require_resolve := λ request, Some request;
     hook_module := λ _, Thrown "ENOENT";
     endpoint_module := λ _, Thrown "ENOENT";
     storage_module := λ _, Thrown "ENOENT";
     operation_module := λ _, Thrown "ENOENT";
     globby_operations := Returned [];
     readdir_assets := Returned [];
     rollup := λ input, Generated (entry input) None |}.

(** ** What a hook binds and what its record lets [unload] undo *)

(** The binding a call of the hook puts on the host bus. *)
Definition bus_binding (call : HookCall) : option Binding :=
  match call with
  | CallFilter event handler => Some (filter_kind, event, handler)
  | CallAction event handler => Some (action_kind, event, handler)
  | CallInit event handler => Some (init_kind, event, handler)
  | CallSchedule _ _ | HookContextOn _ _ _ => None
  end.

(** What unregistering one recorded event does to the host bus and to the
    cron table. *)
Definition event_off (em : Emitter) (event : EventHandler) : Emitter :=
  match event with
  | FilterEvent name handler => emitter_off filter_kind name handler em
  | ActionEvent name handler => emitter_off action_kind name handler em
  | InitEvent name handler => emitter_off init_kind name handler em
  | ScheduleEvent _ => em
  end.

Definition event_stop (tasks : list ScheduledTask) (event : EventHandler)
    : list ScheduledTask :=
  match event with
  | ScheduleEvent task => alter stop_task task tasks
  | FilterEvent _ _ | ActionEvent _ _ | InitEvent _ _ => tasks
  end.

Definition recorded_events_of (w : World) : list EventHandler :=
  concat (hook_events <$> hooks_of w).

Section ExpectedHookEffects.
Context `{Platform}.

(** The task a call of the hook starts. *)
Definition scheduled_task (call : HookCall) : option ScheduledTask :=
  match call with
  | CallSchedule cron handler =>
      if validate cron
      then Some {| task_cron := cron; task_handler := handler; task_running := true |}
      else None
  | _ => None
  end.

(** The events a hook's calls leave in its record, when the cron table held
    [next] tasks before the first call. *)
Fixpoint recorded_events (calls : list HookCall) (next : nat) : list EventHandler :=
  match calls with
  | [] => []
  | CallFilter event handler :: calls =>
      FilterEvent event handler :: recorded_events calls next
  | CallAction event handler :: calls =>
      ActionEvent event handler :: recorded_events calls next
  | CallInit event handler :: calls =>
      InitEvent event handler :: recorded_events calls next
  | CallSchedule cron handler :: calls =>
      if validate cron
      then ScheduleEvent next :: recorded_events calls (S next)
      else recorded_events calls next
  | HookContextOn _ _ _ :: calls => recorded_events calls next
  end.

(** The calls made in a cycle by the hooks whose module can be required. *)
Definition hook_calls (o : Oracle) (exts : list Extension) : list HookCall :=
  concat (omap (λ extension, (λ pc, calls pc.2) <$> hook_config o extension) exts).

(** No hook that can be required has a [register] that throws. *)
Definition hooks_return (o : Oracle) (exts : list Extension) : Prop :=
  ∀ extension hookPath config,
    extension ∈ exts → hook_config o extension = Some (hookPath, config) →
    throws config = None.

End ExpectedHookEffects.

(** What the hooks of a cycle act on: the host bus, the cron table and the
    events recorded in the registry. *)
Definition hook_state (w : World) : Emitter * list ScheduledTask * list EventHandler :=
  (emitter (host w), cronTasks (host w), recorded_events_of w).

(** [w'] is [w] once [calls] have been made and recorded. *)
Definition bound_by `{Platform} (calls : list HookCall) (w w' : World) : Prop :=
  hook_state w'
  = (emitter (host w) ++ omap bus_binding calls,
     cronTasks (host w) ++ omap scheduled_task calls,
     recorded_events_of w ++ recorded_events calls (length (cronTasks (host w)))).

(** The production process when discovery has found the audit hook and
    nothing is registered yet. *)
Definition discovered_world : World :=
  on_manager (set_extensions [audit_extension]) (@new_world production).


(** The shared dependencies for which the asset directory holds no chunk. *)
Definition missing_deps `{Platform} (appDir deps : list string) : list string :=
  omap (λ dep, match find_dep_chunk dep appDir with
               | Some _ => None
               | None => Some dep
               end) deps.

(** The world once [entries] have been logged. *)
Definition logged (entries : list LogEntry) (w : World) : World :=
  on_host (λ h, set_log (log h ++ entries) h) w.


(** A cycle in which the audit hook is discovered and the glob of built-in
    operations is rejected. *)
Definition rejected_oracle : Oracle :=
  {| ensureExtensionDirs := λ _ _, Returned tt;
     getPackageExtensions := λ _ _, Returned [audit_extension];
     getLocalExtensions := λ _ _, Returned [];
     require_resolve := λ request, Some request;
     hook_module := λ _, Returned (Bare audit_hook);
     endpoint_module := λ _, Thrown "ENOENT";
     storage_module := λ _, Thrown "ENOENT";
     operation_module := λ _, Thrown "ENOENT";
     globby_operations := Thrown "EMFILE";
     readdir_assets := Returned [];
     rollup := λ input, Generated (entry input) None |}.


(** What a completed [initialize(options)] establishes. *)
Definition initialized `{Platform} (given : PartialOptions) (w : World) : Prop :=
  options (manager w) = merge_options given
  ∧ isLoaded (manager w) = true
  ∧ (watch (merge_options given) = true → watcher (manager w) ≠ None).


(** ** The theme of the app

    [getTheme] reads the user store and the browser window: [currentUser]
    may be absent and may lack a [theme]; [window.matchMedia] may be absent,
    and otherwise tells whether a media query matches. *)

Record User := { user_theme : option string }.

Record Window := { matchMedia : option (string → bool) }.

Definition getTheme (currentUser : option User) (window : Window) : string :=
  if bool_decide (currentUser = None
                  ∨ (currentUser ≫= user_theme) = None
                  ∨ (currentUser ≫= user_theme) = Some "auto")
  then
    if match matchMedia window with
       | Some matches => matches "(prefers-color-scheme: dark)"
       | None => false
       end
    then "dark"
    else "light"
  else default "undefined" (currentUser ≫= user_theme).

(** The theme the user has chosen, if it is not left to the system. *)
Definition chosen_theme (currentUser : option User) : option string :=
  match currentUser ≫= user_theme with
  | Some theme => if decide (theme = "auto") then None else Some theme
  | None => None
  end.

(** Whether the browser reports a preference for dark. *)
Definition prefers_dark (window : Window) : bool :=
  match matchMedia window with
  | Some matches => matches "(prefers-color-scheme: dark)"
  | None => false
  end.


(** What a cycle registers and [unload] resets: the registry, the router,
    the flow manager's table and the loaded flag, with the descriptor list
    they come from. *)
Definition registrations (w : World)
    : ApiExtensions * Router * list (string * Handler) * bool * list Extension :=
  (apiExtensions (manager w), endpointRouter (manager w), flowOperations (host w),
   isLoaded (manager w), extensions (manager w)).


(** A cycle whose asset directory holds the published chunks of vue and
    pinia, and a file of vue-router whose name carries no hash. *)
Definition published_oracle : Oracle :=
  {| ensureExtensionDirs := λ _ _, Returned tt;
     getPackageExtensions := λ _ _, Returned [];
     getLocalExtensions := λ _ _, Returned [];
     require_resolve := λ request, Some request;
     hook_module := λ _, Thrown "ENOENT";
     endpoint_module := λ _, Thrown "ENOENT";
     storage_module := λ _, Thrown "ENOENT";
     operation_module := λ _, Thrown "ENOENT";
     globby_operations := Returned [];
     readdir_assets :=
       Returned ["index.html"; "vue.3f8a1c2e.entry.js"; "vue-router.entry.js";
                 "pinia.0b7d9e41.entry.js"];
     rollup := λ input, Generated (entry input) None |}.

(** A cycle in which both endpoints export an object with an id of its own. *)
Definition identified_oracle : Oracle :=
  {| ensureExtensionDirs := λ _ _, Returned tt;
     getPackageExtensions := λ _ _, Returned [];
     getLocalExtensions := λ _ _, Returned [alpha; beta];
     require_resolve := λ request, Some request;
     hook_module := λ _, Thrown "ENOENT";
     endpoint_module := λ file,
       Returned (Bare (EndpointObject
         (if decide (file = "/srv/extensions/endpoints/alpha/index.js")
          then "greet" else "part")
         {| calls := [AddRoute "/"]; throws := None |}));
     storage_module := λ _, Thrown "ENOENT";
     operation_module := λ _, Thrown "ENOENT";
     globby_operations := Returned [];
     readdir_assets := Returned [];
     rollup := λ input, Generated (entry input) None |}.

(** * Reasoning about the monad *)

Lemma bind_run {A B} (m : M A) (f : A → M B) w :
  (m ≫= f) w =
  match m w with
  | (Returned a, w') => f a w'
  | (Thrown e, w') => (Thrown e, w')
  end.
Proof. reflexivity. Qed.

Lemma bind_returned {A B} (m : M A) (f : A → M B) w b w' :
  (m ≫= f) w = (Returned b, w') →
  ∃ a w1, m w = (Returned a, w1) ∧ f a w1 = (Returned b, w').
Proof.
  rewrite bind_run. destruct (m w) as [[a|e] w1]; [eauto | discriminate].
Qed.

Lemma for_each_app {A} (l1 l2 : list A) (body : A → M unit) w :
  for_each (l1 ++ l2) body w = (for_each l1 body;; for_each l2 body) w.
Proof.
  revert w. induction l1 as [|x l1 IH]; intros w; simpl.
  - reflexivity.
  - rewrite !bind_run. destruct (body x w) as [[[]|e] w1]; [|reflexivity].
    rewrite IH. reflexivity.
Qed.

Lemma for_each_ext {A} (l : list A) (body1 body2 : A → M unit) :
  (∀ x w, body1 x w = body2 x w) → ∀ w, for_each l body1 w = for_each l body2 w.
Proof.
  intros Hext. induction l as [|x l IH]; intros w; simpl; [reflexivity|].
  rewrite !bind_run, Hext. destruct (body2 x w) as [[[]|e] w1]; [apply IH | reflexivity].
Qed.

Section Keeps.
Context {B : Type} (π : World → B).

Lemma keeps_ret {A} (a : A) : keeps π (mret a).
Proof. intros w. reflexivity. Qed.

Lemma keeps_throw {A} e : keeps π (throw (A:=A) e).
Proof. intros w. reflexivity. Qed.

Lemma keeps_gets {A} (f : World → A) : keeps π (gets f).
Proof. intros w. reflexivity. Qed.

Lemma keeps_await {A} (r : Outcome A) : keeps π (await r).
Proof. intros w. destruct r; reflexivity. Qed.

Lemma keeps_modify f : (∀ w, π (f w) = π w) → keeps π (modify f).
Proof. intros Hf w. apply Hf. Qed.

Lemma keeps_bind {A C} (m : M A) (f : A → M C) :
  keeps π m → (∀ a, keeps π (f a)) → keeps π (m ≫= f).
Proof.
  intros Hm Hf w. rewrite bind_run. specialize (Hm w).
  destruct (m w) as [[a|e] w1]; simpl in *; [|exact Hm].
  rewrite Hf. exact Hm.
Qed.

Lemma keeps_try_catch {A} (m : M A) handler :
  keeps π m → (∀ e, keeps π (handler e)) → keeps π (try_catch m handler).
Proof.
  intros Hm Hh w. unfold try_catch. specialize (Hm w).
  destruct (m w) as [[a|e] w1]; simpl in *; [exact Hm|].
  rewrite Hh. exact Hm.
Qed.

Lemma keeps_for_each {A} (l : list A) body :
  (∀ x, keeps π (body x)) → keeps π (for_each l body).
Proof.
  intros Hb. induction l as [|x l IH]; simpl.
  - apply keeps_ret.
  - apply keeps_bind; [apply Hb | intros _; exact IH].
Qed.

Lemma keeps_for_fold {A S} (l : list A) (s : S) body :
  (∀ x s, keeps π (body x s)) → keeps π (for_fold l s body).
Proof.
  intros Hb. revert s. induction l as [|x l IH]; intros s; simpl.
  - apply keeps_ret.
  - apply keeps_bind; [apply Hb | intros s'; apply IH].
Qed.

End Keeps.

Lemma returns_ret {A} (a : A) : returns (mret a).
Proof. intros w. exact I. Qed.

Lemma returns_gets {A} (f : World → A) : returns (gets f).
Proof. intros w. exact I. Qed.

Lemma returns_modify f : returns (modify f).
Proof. intros w. exact I. Qed.

Lemma returns_bind {A C} (m : M A) (f : A → M C) :
  returns m → (∀ a, returns (f a)) → returns (m ≫= f).
Proof.
  intros Hm Hf w. rewrite bind_run. specialize (Hm w).
  destruct (m w) as [[a|e] w1]; simpl in *; [apply Hf | contradiction].
Qed.

Lemma returns_try_catch {A} (m : M A) handler :
  (∀ e, returns (handler e)) → returns (try_catch m handler).
Proof.
  intros Hh w. unfold try_catch.
  destruct (m w) as [[a|e] w1]; simpl; [exact I | apply Hh].
Qed.

Lemma returns_for_each {A} (l : list A) body :
  (∀ x, returns (body x)) → returns (for_each l body).
Proof.
  intros Hb. induction l as [|x l IH]; simpl.
  - apply returns_ret.
  - apply returns_bind; [apply Hb | intros _; exact IH].
Qed.

Lemma returns_for_fold {A S} (l : list A) (s : S) body :
  (∀ x s, returns (body x s)) → returns (for_fold l s body).
Proof.
  intros Hb. revert s. induction l as [|x l IH]; intros s; simpl.
  - apply returns_ret.
  - apply returns_bind; [apply Hb | intros s'; apply IH].
Qed.

(** After a computation that returns, a sequence goes on. *)
Lemma bind_after_returns {A C} (m : M A) (f : A → M C) w :
  returns m → ∃ a, m w = (Returned a, (m w).2) ∧ (m ≫= f) w = f a (m w).2.
Proof.
  intros Hm. rewrite bind_run. specialize (Hm w).
  destruct (m w) as [[a|e] w1]; simpl in *; [eauto | contradiction].
Qed.

Create HintDb keeps discriminated.
Create HintDb returns discriminated.

Ltac head_of t :=
  lazymatch t with
  | ?f _ => head_of f
  | _ => t
  end.

Ltac keeps_step :=
  first
    [ solve [eauto with keeps]
    | lazymatch goal with
      | |- keeps _ (mret _) => apply keeps_ret
      | |- keeps _ (throw _) => apply keeps_throw
      | |- keeps _ (gets _) => apply keeps_gets
      | |- keeps _ (await _) => apply keeps_await
      | |- keeps _ (modify _) => apply keeps_modify; intros ?; reflexivity
      | |- keeps _ (_ ≫= _) => apply keeps_bind; [|intros ?]
      | |- keeps _ (try_catch _ _) => apply keeps_try_catch; [|intros ?]
      | |- keeps _ (for_each _ _) => apply keeps_for_each; intros ?
      | |- keeps _ (for_fold _ _ _) => apply keeps_for_fold; intros ? ?
      | |- keeps _ (match ?x with _ => _ end) => destruct x
      | |- keeps _ (let _ := _ in _) => cbv zeta
      | |- keeps _ ?m => let h := head_of m in unfold h
      end ].

Ltac returns_step :=
  first
    [ solve [eauto with returns]
    | lazymatch goal with
      | |- returns (mret _) => apply returns_ret
      | |- returns (gets _) => apply returns_gets
      | |- returns (modify _) => apply returns_modify
      | |- returns (_ ≫= _) => apply returns_bind; [|intros ?]
      | |- returns (try_catch _ _) => apply returns_try_catch; intros ?
      | |- returns (for_each _ _) => apply returns_for_each; intros ?
      | |- returns (for_fold _ _ _) => apply returns_for_fold; intros ? ?
      | |- returns (match ?x with _ => _ end) => destruct x
      | |- returns (let _ := _ in _) => cbv zeta
      | |- returns ?m => let h := head_of m in unfold h
      end ].

(** * What one cycle leaves alone, and when it returns *)

Section Frames.
Context `{Platform}.

Lemma logger_keeps_settings e : keeps settings (logger e).
Proof. repeat keeps_step. Qed.

Lemma require_keeps_settings {C} o (load : string → Outcome (Exported C)) request :
  keeps settings (require o load request).
Proof. unfold require. repeat keeps_step. Qed.

Lemma delete_require_cache_keeps_settings o request :
  keeps settings (delete_require_cache o request).
Proof. unfold delete_require_cache. repeat keeps_step. Qed.

Hint Resolve logger_keeps_settings require_keeps_settings
  delete_require_cache_keeps_settings : keeps.

Lemma registerHook_keeps_settings register p : keeps settings (registerHook register p).
Proof.
  unfold registerHook, registerFunction, cron_schedule, throw_if.
  repeat keeps_step.
Qed.

Hint Resolve registerHook_keeps_settings : keeps.

Lemma registerHooks_keeps_settings o : keeps settings (registerHooks o).
Proof.
  unfold registerHooks. repeat keeps_step.
Qed.

Lemma registerEndpoints_keeps_settings o : keeps settings (registerEndpoints o).
Proof.
  unfold registerEndpoints, registerEndpoint, endpointCall, throw_if.
  repeat keeps_step.
Qed.

Lemma registerStorages_keeps_settings o : keeps settings (registerStorages o).
Proof. unfold registerStorages. repeat keeps_step. Qed.

Lemma registerOperations_keeps_settings o : keeps settings (registerOperations o).
Proof.
  unfold registerOperations, registerOperationFrom, registerOperation.
  repeat keeps_step.
Qed.

Lemma generateExtensionBundles_keeps_settings o :
  keeps settings (generateExtensionBundles o).
Proof.
  unfold generateExtensionBundles, getSharedDepsMapping, bundleType.
  repeat keeps_step.
Qed.

Hint Resolve registerHooks_keeps_settings registerEndpoints_keeps_settings
  registerStorages_keeps_settings registerOperations_keeps_settings
  generateExtensionBundles_keeps_settings : keeps.

Lemma load_registrations_keeps_settings o : keeps settings (load_registrations o).
Proof. unfold load_registrations. repeat keeps_step. Qed.

Lemma unload_keeps_settings o : keeps settings (unload o).
Proof.
  unfold unload, unregisterHooks, unregisterEndpoints, unregisterStorages,
    unregisterOperations, unregisterEvent.
  repeat keeps_step.
Qed.

Lemma discovery_pure o w : (discovery o w).2 = w.
Proof.
  unfold discovery, getExtensions. rewrite !bind_run.
  destruct (ensureExtensionDirs o _ _) as [[]|e]; simpl; [|reflexivity].
  rewrite !bind_run.
  destruct (getPackageExtensions o _ _) as [ps|e]; simpl; [|reflexivity].
  rewrite !bind_run.
  destruct (getLocalExtensions o _ _) as [ls|e]; reflexivity.
Qed.

(** [load] when discovery throws: the two warnings, then the registrations. *)
Lemma load_discovery_thrown o w err :
  (discovery o w).1 = Thrown err →
  load o w = ((logger WarnCouldntLoad;; logger (WarnError err));; load_registrations o) w.
Proof.
  intros Hd. unfold load. rewrite !bind_run. unfold try_catch at 1.
  rewrite bind_run. pose proof (discovery_pure o w) as Hw.
  destruct (discovery o w) as [[exts|e] w1]; simpl in *; [discriminate|].
  injection Hd as ->. subst w1. reflexivity.
Qed.

(** [load] when discovery returns: the list is replaced, then the
    registrations. *)
Lemma load_discovery_returned o w exts :
  (discovery o w).1 = Returned exts →
  load o w = load_registrations o (on_manager (set_extensions exts) w).
Proof.
  intros Hd. unfold load. rewrite !bind_run. unfold try_catch at 1.
  rewrite bind_run. pose proof (discovery_pure o w) as Hw.
  destruct (discovery o w) as [[exts'|e] w1]; simpl in *; [|discriminate].
  injection Hd as ->. subst w1. reflexivity.
Qed.

Lemma load_keeps_watching o : keeps watching (load o).
Proof.
  unfold load, discovery, getExtensions.
  assert (keeps watching (load_registrations o)).
  { intros w. pose proof (load_registrations_keeps_settings o w) as Hs.
    unfold settings, watching in *. congruence. }
  repeat keeps_step.
Qed.

(** The three synchronous registrars never throw. *)
Lemma registerHooks_returns o : returns (registerHooks o).
Proof. unfold registerHooks. repeat returns_step. Qed.

Lemma registerEndpoints_returns o : returns (registerEndpoints o).
Proof. unfold registerEndpoints. repeat returns_step. Qed.

Lemma registerStorages_returns o : returns (registerStorages o).
Proof. unfold registerStorages. repeat returns_step. Qed.

Lemma is_returned_unit (r : Outcome unit) : is_returned r ↔ r = Returned tt.
Proof. destruct r as [[]|e]; simpl; split; try done. Qed.

(** The operation registrar throws only when the glob does. *)
(** The operation registrar throws only when the glob does. *)
Lemma registerOperations_returned o w :
  is_returned (registerOperations o w).1 ↔ is_returned (globby_operations o).
Proof.
  unfold registerOperations. rewrite bind_run.
  destruct (globby_operations o) as [paths|e]; simpl; [|done].
  split; [done|intros _].
  assert (returns (exts ← gets (λ w, extensions (manager w));
                   for_each ((internalOperation <$> paths) ++ omap operationSource exts)
                     (registerOperationFrom o))) as Hr.
  { repeat returns_step. }
  apply Hr.
Qed.

(** The bundler throws only when the asset directory cannot be listed. *)
Lemma generateExtensionBundles_returned o w :
  is_returned (generateExtensionBundles o w).1 ↔ is_returned (readdir_assets o).
Proof.
  unfold generateExtensionBundles, getSharedDepsMapping. rewrite !bind_run.
  destruct (readdir_assets o) as [appDir|e]; simpl; [|done].
  split; [done|intros _].
  assert (returns (
    sharedDepsMapping ← for_fold APP_SHARED_DEPS [] (λ dep depsMapping,
      match find_dep_chunk dep appDir with
      | Some depName => mret (depsMapping ++ [(dep, asset_url (PUBLIC_URL env) depName)])
      | None => logger (WarnMissingSharedDep dep);; mret depsMapping
      end);
    exts ← gets (λ w, extensions (manager w));
    for_fold APP_EXTENSION_TYPES ∅ (bundleType o sharedDepsMapping exts))) as Hr.
  { repeat returns_step. }
  specialize (Hr w). rewrite bind_run in Hr. exact Hr.
Qed.

(** The rest of [load] completes exactly when the glob of built-in
    operations resolves and, if the app is served, the asset directory can
    be listed. *)
Lemma load_registrations_returned o w :
  (load_registrations o w).1 = Returned tt ↔
  is_returned (globby_operations o)
  ∧ (SERVE_APP env = true → is_returned (readdir_assets o)).
Proof.
  rewrite <-is_returned_unit. unfold load_registrations.
  destruct (bind_after_returns (registerHooks o)
    (λ _, registerEndpoints o;; registerStorages o;; registerOperations o;;
          (if SERVE_APP env then
             bundles ← generateExtensionBundles o;
             modify (on_manager (set_appExtensions bundles))
           else mret tt);;
          modify (on_manager (set_isLoaded true))) w (registerHooks_returns o))
    as (? & _ & ->).
  set (w1 := (registerHooks o w).2).
  destruct (bind_after_returns (registerEndpoints o)
    (λ _, registerStorages o;; registerOperations o;;
          (if SERVE_APP env then
             bundles ← generateExtensionBundles o;
             modify (on_manager (set_appExtensions bundles))
           else mret tt);;
          modify (on_manager (set_isLoaded true))) w1 (registerEndpoints_returns o))
    as (? & _ & ->).
  set (w2 := (registerEndpoints o w1).2).
  destruct (bind_after_returns (registerStorages o)
    (λ _, registerOperations o;;
          (if SERVE_APP env then
             bundles ← generateExtensionBundles o;
             modify (on_manager (set_appExtensions bundles))
           else mret tt);;
          modify (on_manager (set_isLoaded true))) w2 (registerStorages_returns o))
    as (? & _ & ->).
  set (w3 := (registerStorages o w2).2).
  rewrite bind_run. pose proof (registerOperations_returned o w3) as Hops.
  destruct (registerOperations o w3) as [[[]|e] w4]; simpl in Hops; simpl;
    [|rewrite <-Hops; tauto].
  rewrite <-Hops. rewrite bind_run.
  destruct (SERVE_APP env).
  - rewrite bind_run. pose proof (generateExtensionBundles_returned o w4) as Hb.
    destruct (generateExtensionBundles o w4) as [[bundles|e] w5]; simpl in *;
      rewrite <-Hb; tauto.
  - simpl. split; [intros _; split; [done|discriminate] | done].
Qed.

Lemma load_registrations_loaded o w :
  (load_registrations o w).1 = Returned tt →
  isLoaded (manager (load_registrations o w).2) = true.
Proof.
  unfold load_registrations.
  match goal with |- (?m w).1 = _ → _ => destruct (m w) as [r w'] eqn:E end.
  simpl. intros ->.
  repeat (apply bind_returned in E as (? & ? & _ & E)).
  injection E as <-. reflexivity.
Qed.

End Frames.

(** * The descriptor list across unload and a failed discovery *)

Section Descriptors.
Context `{Platform}.

(** C3, as amended: [unload] does not discard the descriptor list.  Whatever
    its outcome, the manager holds the descriptors it held before, and the
    extension-names accessor, filtered by type or not, answers as before. *)
Theorem unload_retains_descriptors (o : Oracle) (w : World) (t : option ExtensionType) :
  extensions (manager (unload o w).2) = extensions (manager w)
  ∧ getExtensionsList t (manager (unload o w).2) = getExtensionsList t (manager w).
Proof.
  pose proof (unload_keeps_settings o w) as Hs. unfold settings in Hs.
  assert (extensions (manager (unload o w).2) = extensions (manager w)) as He
    by congruence.
  split; [exact He|]. unfold getExtensionsList. rewrite He. reflexivity.
Qed.

(** C2, as amended: when discovery throws, [load] logs the failure and goes
    on with the registrations; the descriptor list is the one the manager
    held before the call (none on an initial load, the previous cycle's on a
    reload); the call completes exactly when the rest of [load] does, and
    then the manager is marked loaded. *)
Theorem load_discovery_failure (o : Oracle) (w : World) (err : Error) :
  (discovery o w).1 = Thrown err →
  load o w = ((logger WarnCouldntLoad;; logger (WarnError err));; load_registrations o) w
  ∧ extensions (manager (load o w).2) = extensions (manager w)
  ∧ ((load o w).1 = Returned tt ↔
       is_returned (globby_operations o)
       ∧ (SERVE_APP env = true → is_returned (readdir_assets o)))
  ∧ ((load o w).1 = Returned tt → isLoaded (manager (load o w).2) = true).
Proof.
  intros Hd. pose proof (load_discovery_thrown o w err Hd) as Hload.
  split; [exact Hload|]. rewrite Hload.
  set (w0 := ((logger WarnCouldntLoad;; logger (WarnError err)) w).2).
  assert (((logger WarnCouldntLoad;; logger (WarnError err));; load_registrations o) w
          = load_registrations o w0) as -> by reflexivity.
  split; [|split].
  - pose proof (load_registrations_keeps_settings o w0) as Hs.
    unfold settings in Hs. subst w0. simpl in *. congruence.
  - apply load_registrations_returned.
  - apply load_registrations_loaded.
Qed.

End Descriptors.

Lemma load_discovery_failure_witness :
  (@discovery production unreadable_oracle (@new_world production)).1 = Thrown "EACCES"
  ∧ extensions (manager (@load production unreadable_oracle (@new_world production)).2)
    = extensions (manager (@new_world production)).
Proof.
  split; [reflexivity|].
  exact (proj1 (proj2 (@load_discovery_failure production unreadable_oracle
                         (@new_world production) "EACCES" eq_refl))).
Defined.

(** On a reload the list of the previous cycle survives a failed discovery:
    after the audit hook has been loaded and unloaded, a [load] whose
    discovery throws leaves the manager with the audit descriptor, and the
    hook is registered again from it. *)
Lemma failed_discovery_keeps_stale_descriptors :
  let unloaded := (@unload production audit_oracle audit_world).2 in
  let reloaded := (@load production unreadable_oracle unloaded).2 in
  (@discovery production unreadable_oracle unloaded).1 = Thrown "EACCES"
  ∧ extensions (manager reloaded) = [audit_extension]
  ∧ extensions (manager reloaded) ≠ []
  ∧ length (hooks (apiExtensions (manager reloaded))) = 1
  ∧ extensions (manager (@reload production unreadable_oracle audit_world).2)
    = [audit_extension].
Proof. vm_compute. repeat split; discriminate. Qed.

(** After [unload] has returned, the names accessor still lists the audit
    hook. *)
Lemma unload_keeps_extension_names :
  let unloaded := @unload production audit_oracle audit_world in
  unloaded.1 = Returned tt
  ∧ isLoaded (manager unloaded.2) = false
  ∧ getExtensionsList None (manager unloaded.2) = ["directus-extension-audit"]
  ∧ getExtensionsList None (manager unloaded.2) ≠ [].
Proof. vm_compute. repeat split; discriminate. Qed.

(** * Registration, bare and default-wrapped *)

Section Exports.
Context `{Platform}.

Ltac same_registration :=
  intros; rewrite !bind_run; simpl; apply for_each_ext;
  intros extension w'; destruct extension; try reflexivity;
  unfold registerHookFrom, registerEndpointFrom, try_catch, require; simpl;
  destruct (require_resolve _ _); [|reflexivity];
  rewrite !bind_run;
  match goal with
  | |- context [outcome_map _ ?r] => destruct r; reflexivity
  end.

Lemma registerHooks_normalizes o w :
  registerHooks (bare_exports o) w = registerHooks (default_exports o) w.
Proof. unfold registerHooks. same_registration. Qed.

Lemma registerEndpoints_normalizes o w :
  registerEndpoints (bare_exports o) w = registerEndpoints (default_exports o) w.
Proof. unfold registerEndpoints. same_registration. Qed.

Lemma registerOperations_normalizes o w :
  registerOperations (bare_exports o) w = registerOperations (default_exports o) w.
Proof.
  unfold registerOperations. rewrite !bind_run. simpl.
  destruct (globby_operations o) as [paths|e]; simpl; [|reflexivity].
  apply for_each_ext. intros source w'.
  unfold registerOperationFrom, try_catch, require; simpl.
  destruct (require_resolve _ _); [|reflexivity].
  rewrite !bind_run.
  match goal with
  | |- context [outcome_map _ ?r] => destruct r; reflexivity
  end.
Qed.

(** C4: the hook, endpoint and operation registrars register the same from a
    bare and from a default-wrapped export of the same configuration; the
    storage registrar does not normalize: for the local storage extension
    [s3] the registry holds the bare configuration in one case and the
    [default] wrapper in the other. *)
Theorem storage_export_not_normalized :
  (∀ o w, registerHooks (bare_exports o) w = registerHooks (default_exports o) w)
  ∧ (∀ o w, registerEndpoints (bare_exports o) w = registerEndpoints (default_exports o) w)
  ∧ (∀ o w, registerOperations (bare_exports o) w
            = registerOperations (default_exports o) w)
  ∧ storages (apiExtensions (manager
      (@registerStorages production (bare_exports s3_oracle) s3_world).2))
    = [("/srv/extensions/storages/s3/index.js", Bare {| driver := "s3" |})]
  ∧ storages (apiExtensions (manager
      (@registerStorages production (default_exports s3_oracle) s3_world).2))
    = [("/srv/extensions/storages/s3/index.js", DefaultWrapped {| driver := "s3" |})].
Proof.
  split; [apply registerHooks_normalizes|].
  split; [apply registerEndpoints_normalizes|].
  split; [apply registerOperations_normalizes|].
  split; vm_compute; reflexivity.
Qed.

End Exports.

(** * Bindings left behind by a hook that throws *)

(** C1: a hook whose [register] binds a filter and schedules a task before
    it throws.  [load] completes and the hook contributes no record to the
    registry, but the filter stays on the host bus, the task stays running
    and the module stays cached; [unload] returns without removing any of
    them.  For the audit hook, whose [register] returns, [unload] removes
    every binding and stops the task. *)
Theorem throwing_hook_leaks_bindings :
  let loaded := @load production leaky_oracle (@new_world production) in
  let unloaded := @unload production leaky_oracle loaded.2 in
  let leaked_task :=
    {| task_cron := "* * * * *"; task_handler := 2; task_running := true |} in
  let audit_unloaded := @unload production audit_oracle audit_world in
  audit_unloaded.1 = Returned tt
  ∧ emitter (host audit_world)
    = [(filter_kind, "items.create", 1); (action_kind, "items.create", 2)]
  ∧ emitter (host audit_unloaded.2) = []
  ∧ task_running <$> cronTasks (host audit_unloaded.2) = [false]
  ∧ elements (requireCache (host audit_unloaded.2)) = []
  ∧ loaded.1 = Returned tt
  ∧ extensions (manager loaded.2) = [audit_extension]
  ∧ hooks (apiExtensions (manager loaded.2)) = []
  ∧ emitter (host loaded.2) = [(filter_kind, "items.create", 1)]
  ∧ cronTasks (host loaded.2) = [leaked_task]
  ∧ unloaded.1 = Returned tt
  ∧ emitter (host unloaded.2) = [(filter_kind, "items.create", 1)]
  ∧ cronTasks (host unloaded.2) = [leaked_task]
  ∧ elements (requireCache (host unloaded.2))
    = ["/srv/node_modules/directus-extension-audit/dist/index.js"].
Proof. vm_compute. repeat split. Qed.

(** * Scheduled hooks *)

Section Schedule.
Context `{Platform}.

(** C6: [schedule(cron, handler)] called by a hook.  An expression that
    fails validation only logs a warning: no task is created and none is
    recorded in the hook's events.  A valid one creates a running task and
    records it.  When that task fires, in any later state in which it has not
    been stopped, the callback returns whatever the handler does; the
    handler is invoked only if the scheduling option is on; an error it
    raises is logged; and the cron table is left as it was, so the task
    fires again at its next time. *)
Theorem schedule_hook (cron : string) (handler : Handler)
    (events : list EventHandler) (w : World) :
  let created :=
    {| task_cron := cron; task_handler := handler; task_running := true |} in
  let task := length (cronTasks (host w)) in
  registerFunction (CallSchedule cron handler) events w =
    (if validate cron
     then (Returned (events ++ [ScheduleEvent task]),
           on_host (set_cronTasks (cronTasks (host w) ++ [created])) w)
     else (Returned events,
           on_host (λ h, set_log (log h ++ [WarnInvalidCron cron]) h) w))
  ∧ ∀ (w' : World) (outcome : option Error),
      cronTasks (host w') !! task = Some created →
      tick task outcome w' =
        (Returned tt,
         if schedule (options (manager w')) then
           let called := on_host (λ h, set_invoked (invoked h ++ [handler]) h) w' in
           match outcome with
           | None => called
           | Some error => on_host (λ h, set_log (log h ++ [ErrorLogged error]) h) called
           end
         else w')
      ∧ cronTasks (host (tick task outcome w').2) = cronTasks (host w').
Proof.
  intros created task. split.
  { simpl. destruct (validate cron); reflexivity. }
  intros w' outcome Hnth.
  assert (tick task outcome w' =
      (Returned tt,
       if schedule (options (manager w')) then
         let called := on_host (λ h, set_invoked (invoked h ++ [handler]) h) w' in
         match outcome with
         | None => called
         | Some error => on_host (λ h, set_log (log h ++ [ErrorLogged error]) h) called
         end
       else w')) as Htick.
  { unfold tick. rewrite bind_run. simpl. rewrite Hnth. simpl.
    unfold task_callback. rewrite bind_run. simpl.
    destruct (schedule (options (manager w'))); [|reflexivity].
    destruct outcome; reflexivity. }
  split; [exact Htick|].
  rewrite Htick. simpl.
  destruct (schedule (options (manager w'))); [|reflexivity].
  destruct outcome; reflexivity.
Qed.

End Schedule.

Lemma schedule_hook_witness :
  let w := @new_world production in
  let w' := (@registerFunction production (CallSchedule "* * * * *" 3) [] w).2 in
  cronTasks (host w') !! 0 =
    Some {| task_cron := "* * * * *"; task_handler := 3; task_running := true |}
  ∧ (tick 0 (Some "boom") w').1 = Returned tt
  ∧ invoked (host (tick 0 (Some "boom") w').2) = [3]
  ∧ cronTasks (host (tick 0 (Some "boom") w').2) = cronTasks (host w').
Proof.
  pose proof (proj2 (@schedule_hook production "* * * * *" 3 [] (@new_world production))
                (@registerFunction production (CallSchedule "* * * * *" 3) []
                   (@new_world production)).2
                (Some "boom") eq_refl) as (Htick & Htasks).
  split; [reflexivity|].
  split; [exact (f_equal fst Htick)|].
  split; [exact (f_equal (λ r, invoked (host r.2)) Htick)|].
  exact Htasks.
Defined.

(** * Stepping through a sequence *)

Lemma state_after {A C B} (π : World → B) (m : M A) (f : A → M C) w :
  (∀ a, keeps π (f a)) → π ((m ≫= f) w).2 = π (m w).2.
Proof.
  intros Hf. rewrite bind_run. destruct (m w) as [[a|e] w1]; [apply Hf | reflexivity].
Qed.

Lemma state_after_try_catch {A B} (π : World → B) (m : M A) handler w :
  (∀ e, keeps π (handler e)) → π (try_catch m handler w).2 = π (m w).2.
Proof.
  intros Hh. unfold try_catch. destruct (m w) as [[a|e] w1]; simpl; [reflexivity|].
  apply Hh.
Qed.

Ltac after_returning lem :=
  match goal with
  | |- context [(?m ≫= ?k) ?w] =>
      destruct (bind_after_returns m k w lem) as (? & _ & ->)
  end.

(** * Endpoints and their mount segments *)

Section Endpoints.
Context `{Platform}.

Lemma attach_route_last route router layer :
  attach_route route (router ++ [layer])
  = router ++ [{| mount_path := mount_path layer;
                  sub_routes := sub_routes layer ++ [route] |}].
Proof.
  induction router as [|first router IH]; [reflexivity|].
  rewrite <-!app_comm_cons. rewrite <-IH.
  destruct router; reflexivity.
Qed.

Lemma endpointCall_returns call : returns (endpointCall call).
Proof. repeat returns_step. Qed.

Lemma endpoint_calls_router (cs : list EndpointCall) w router layer :
  router_of w = router ++ [layer] →
  router_of (for_each cs endpointCall w).2
  = router ++ [{| mount_path := mount_path layer;
                  sub_routes := sub_routes layer
                    ++ omap (λ call, match call with
                                     | AddRoute route => Some route
                                     | _ => None
                                     end) cs |}].
Proof.
  revert w layer. induction cs as [|call cs IH]; intros w layer Hw.
  - simpl. rewrite app_nil_r. rewrite Hw. by destruct layer.
  - cbn [for_each].
    destruct (bind_after_returns (endpointCall call) (λ _, for_each cs endpointCall) w
                (endpointCall_returns call)) as ([] & _ & ->).
    destruct call as [route|kind event handler].
    + rewrite (IH _ {| mount_path := mount_path layer;
                       sub_routes := sub_routes layer ++ [route] |}).
      * simpl. by rewrite <-app_assoc.
      * unfold router_of in *. simpl. rewrite Hw. apply attach_route_last.
    + rewrite (IH _ layer); [reflexivity|]. exact Hw.
Qed.

Lemma registerEndpoint_router config p name w :
  router_of (registerEndpoint config p name w).2
  = router_of w ++ [endpoint_layer config name].
Proof.
  unfold registerEndpoint.
  match goal with
  | |- context [on_router ?f ≫= ?k] =>
      destruct (bind_after_returns (on_router f) k w) as ([] & _ & ->);
        [repeat returns_step|]
  end.
  rewrite state_after by (intros _; repeat keeps_step).
  erewrite endpoint_calls_router; [|reflexivity].
  destruct config; reflexivity.
Qed.

Lemma omap_cons_option_list {A B} (f : A → option B) x l :
  omap f (x :: l) = option_list (f x) ++ omap f l.
Proof. simpl. destruct (f x); reflexivity. Qed.

Lemma registerEndpointFrom_returns o extension : returns (registerEndpointFrom o extension).
Proof. repeat returns_step. Qed.

Lemma registerEndpointFrom_router o extension w :
  type extension = ApiT endpoint →
  router_of (registerEndpointFrom o extension w).2
  = router_of w ++ option_list (mounted_by o extension).
Proof.
  destruct extension as [| b [] entrypoint | |]; try discriminate. intros _.
  unfold registerEndpointFrom, mounted_by, endpoint_config.
  rewrite state_after_try_catch by (intros ?; repeat keeps_step).
  cbv zeta. unfold require.
  destruct (require_resolve o _) as [file|]; simpl; [|by rewrite app_nil_r].
  rewrite !bind_run.
  destruct (endpoint_module o file) as [instance|e]; simpl; [|by rewrite app_nil_r].
  by rewrite registerEndpoint_router.
Qed.

Lemma mounted_by_other o extension :
  type extension ≠ ApiT endpoint → mounted_by o extension = None.
Proof. by destruct extension as [| b [] entrypoint | |]. Qed.

Lemma registerEndpoints_router o w :
  router_of (registerEndpoints o w).2
  = router_of w ++ omap (mounted_by o) (extensions (manager w)).
Proof.
  unfold registerEndpoints. rewrite bind_run. simpl.
  generalize (extensions (manager w)) as exts. intros exts. revert w.
  induction exts as [|extension exts IH]; intros w.
  - simpl. by rewrite app_nil_r.
  - rewrite filter_cons, omap_cons_option_list. case_decide as Htype.
    + cbn [for_each].
      destruct (bind_after_returns (registerEndpointFrom o extension)
                  (λ _, for_each (filter (λ extension, type extension = ApiT endpoint) exts)
                                 (registerEndpointFrom o)) w
                  (registerEndpointFrom_returns o extension)) as ([] & _ & ->).
      rewrite IH, registerEndpointFrom_router by done. by rewrite app_assoc.
    + rewrite IH, mounted_by_other by done. reflexivity.
Qed.

(** C7: an endpoint is mounted on the shared router at the extension name
    when its configuration is a bare handler and at the configuration's id
    when it is an object, as one new layer holding exactly the routes its
    handler attached, after the layers already there; a cycle mounts one
    layer per endpoint extension whose module could be required.  Two
    endpoints registered in either order add their two segments, in the
    order of registration; endpoints named alpha and beta that export bare
    handlers, registered on an empty router in either order, yield the mount
    segments /alpha and /beta and no other. *)
Theorem endpoint_mount_segments (o : Oracle) (w : World)
    (config : EndpointConfig) (p name' : string) :
  let mounts order :=
    mount_path <$> router_of (registerEndpoints o (on_manager (set_extensions order) w)).2 in
  let segment config extension := mount_path (endpoint_layer config (name extension)) in
  router_of (registerEndpoint config p name' w).2
  = router_of w ++
    [match config with
     | EndpointFunction register =>
         {| mount_path := "/" +:+ name'; sub_routes := endpoint_routes register |}
     | EndpointObject id handler =>
         {| mount_path := "/" +:+ id; sub_routes := endpoint_routes handler |}
     end]
  ∧ router_of (registerEndpoints o w).2
    = router_of w ++ omap (mounted_by o) (extensions (manager w))
  ∧ (∀ (a b : Extension) (ca cb : EndpointConfig),
       endpoint_config o a = Some ca → endpoint_config o b = Some cb →
       mounts [a; b] = (mount_path <$> router_of w) ++ [segment ca a; segment cb b]
       ∧ mounts [b; a] = (mount_path <$> router_of w) ++ [segment cb b; segment ca a]
       ∧ mounts [a; b] ≡ₚ mounts [b; a])
  ∧ (∀ (a b : Extension) (fa fb : EndpointRegister),
       name a = "alpha" → name b = "beta" →
       endpoint_config o a = Some (EndpointFunction fa) →
       endpoint_config o b = Some (EndpointFunction fb) →
       router_of w = [] →
       mounts [a; b] = ["/alpha"; "/beta"]
       ∧ mounts [b; a] = ["/beta"; "/alpha"]
       ∧ mounts [a; b] ≡ₚ mounts [b; a]).
Proof.
  intros mounts segment.
  split; [apply registerEndpoint_router|].
  split; [apply registerEndpoints_router|].
  assert (∀ (a b : Extension) (ca cb : EndpointConfig),
            endpoint_config o a = Some ca → endpoint_config o b = Some cb →
            mounts [a; b] = (mount_path <$> router_of w) ++ [segment ca a; segment cb b])
    as Hordered.
  { intros a b ca cb Hca Hcb. unfold mounts. rewrite registerEndpoints_router.
    change (router_of (on_manager (set_extensions [a; b]) w)) with (router_of w).
    change (extensions (manager (on_manager (set_extensions [a; b]) w))) with [a; b].
    rewrite fmap_app. f_equal. unfold mounted_by. cbn [omap list_omap].
    rewrite Hca, Hcb. reflexivity. }
  split.
  - intros a b ca cb Hca Hcb.
    rewrite (Hordered a b ca cb Hca Hcb), (Hordered b a cb ca Hcb Hca).
    split; [reflexivity|]. split; [reflexivity|].
    apply Permutation_app_head, perm_swap.
  - intros a b fa fb Ha Hb Hca Hcb Hempty.
    rewrite (Hordered a b _ _ Hca Hcb), (Hordered b a _ _ Hcb Hca), Hempty.
    unfold segment. cbn [endpoint_layer mount_path fmap list_fmap app].
    rewrite Ha, Hb. split; [reflexivity|]. split; [reflexivity|]. apply perm_swap.
Qed.

End Endpoints.

Lemma endpoint_mount_segments_witness :
  name alpha = "alpha" ∧ name beta = "beta"
  ∧ mount_path <$> router_of
      (@registerEndpoints production greeting_oracle
         (on_manager (set_extensions [beta; alpha]) (@new_world production))).2
    = ["/beta"; "/alpha"]
  ∧ mount_path <$> router_of
      (@registerEndpoints production identified_oracle
         (on_manager (set_extensions [beta; alpha]) (@new_world production))).2
    = ["/part"; "/greet"].
Proof.
  split; [reflexivity|]. split; [reflexivity|]. split.
  - exact (proj1 (proj2
      (proj2 (proj2 (proj2
         (@endpoint_mount_segments production greeting_oracle (@new_world production)
            (EndpointObject "greet" {| calls := []; throws := None |}) "/p" "x")))
         alpha beta _ _ eq_refl eq_refl eq_refl eq_refl eq_refl))).
  - exact (proj1 (proj2
      (proj1 (proj2 (proj2
         (@endpoint_mount_segments production identified_oracle (@new_world production)
            (EndpointObject "greet" {| calls := []; throws := None |}) "/p" "x")))
         alpha beta _ _ eq_refl eq_refl))).
Defined.

(** * Operations: built-in first, forwarded as (id, handler) *)

Lemma split_on_cons sep s : ∃ x xs, split_on sep s = x :: xs.
Proof.
  induction s as [|c s (x & xs & IH)]; simpl; [eauto|].
  case_decide; [eauto|]. rewrite IH. eauto.
Qed.

Lemma split_on_free sep s : free_of sep s → split_on sep s = [s].
Proof.
  induction s as [|c s IH]; simpl; [done|]. intros [Hc Hs].
  rewrite decide_False by done. by rewrite IH.
Qed.

Lemma split_on_app sep a b :
  split_on sep (a +:+ String sep b) = split_on sep a ++ split_on sep b.
Proof.
  induction a as [|c a IH]; simpl.
  - by rewrite decide_True.
  - case_decide; [by rewrite IH|].
    rewrite IH. destruct (split_on_cons sep a) as (x & xs & ->). reflexivity.
Qed.

Lemma join_with_cons sep x y l :
  join_with sep (x :: y :: l) = x +:+ String sep (join_with sep (y :: l)).
Proof. reflexivity. Qed.

Lemma join_split_on sep s : join_with sep (split_on sep s) = s.
Proof.
  induction s as [|c s IH]; simpl; [reflexivity|].
  destruct (split_on_cons sep s) as (x & xs & Hs). rewrite Hs in *.
  case_decide as Hc.
  - rewrite join_with_cons, IH. by subst.
  - destruct xs as [|y xs]; [simpl in *; by subst|].
    rewrite join_with_cons in *. rewrite <-IH. reflexivity.
Qed.

Section Operations.
Context `{Platform}.

(** A built-in operation is named by its directory. *)
Lemma internalOperation_named dir opname file :
  free_of path_sep opname → free_of path_sep file →
  internalOperation (dir +:+ String path_sep (opname +:+ String path_sep file))
  = {| source_name := opname;
       source_path := dir +:+ String path_sep opname;
       source_api := file |}.
Proof.
  intros Hname Hfile. unfold internalOperation.
  rewrite !split_on_app, (split_on_free _ opname), (split_on_free _ file) by done.
  set (dirs := split_on path_sep dir).
  assert (length (dirs ++ [opname] ++ [file]) = S (S (length dirs))) as Hlen.
  { rewrite !length_app. simpl. lia. }
  rewrite Hlen. f_equal.
  - rewrite decide_True by lia.
    replace (S (S (length dirs)) - 2) with (length dirs) by lia.
    change ([opname] ++ [file]) with (opname :: [file]).
    by rewrite list_lookup_middle.
  - replace (S (S (length dirs)) - 1) with (length (dirs ++ [opname])).
    2:{ rewrite length_app. simpl. lia. }
    rewrite app_assoc, take_app_length.
    unfold dirs. rewrite <-(split_on_free path_sep opname) by done.
    rewrite <-split_on_app. apply join_split_on.
  - by rewrite app_assoc, last_snoc.
Qed.

Lemma registerOperation_flow config p w :
  flow_of (registerOperation config p w).2
  = flow_of w ++ [(operation_id config, operation_handler config)].
Proof. reflexivity. Qed.

Lemma registerOperationFrom_returns o source : returns (registerOperationFrom o source).
Proof. repeat returns_step. Qed.

Lemma registerOperationFrom_flow o source w :
  flow_of (registerOperationFrom o source w).2
  = flow_of w ++ option_list (operation_binding o source).
Proof.
  unfold registerOperationFrom, operation_binding.
  rewrite state_after_try_catch by (intros ?; repeat keeps_step).
  cbv zeta. unfold require.
  destruct (require_resolve o _) as [file|]; simpl; [|by rewrite app_nil_r].
  rewrite !bind_run.
  destruct (operation_module o file) as [instance|e]; simpl; [|by rewrite app_nil_r].
  reflexivity.
Qed.

Lemma operations_loop_flow o sources w :
  flow_of (for_each sources (registerOperationFrom o) w).2
  = flow_of w ++ omap (operation_binding o) sources.
Proof.
  revert w. induction sources as [|source sources IH]; intros w.
  - simpl. by rewrite app_nil_r.
  - cbn [for_each].
    destruct (bind_after_returns (registerOperationFrom o source)
                (λ _, for_each sources (registerOperationFrom o)) w
                (registerOperationFrom_returns o source)) as ([] & _ & ->).
    rewrite IH, registerOperationFrom_flow, omap_cons_option_list.
    by rewrite app_assoc.
Qed.

Lemma registerOperations_flow o w paths :
  globby_operations o = Returned paths →
  flow_of (registerOperations o w).2
  = flow_of w
    ++ omap (operation_binding o) (internalOperation <$> paths)
    ++ omap (operation_binding o) (omap operationSource (extensions (manager w))).
Proof.
  intros Hglob. unfold registerOperations. rewrite bind_run, Hglob. simpl.
  rewrite bind_run. simpl. rewrite operations_loop_flow.
  by rewrite omap_app.
Qed.

Lemma load_registrations_flow o w paths :
  globby_operations o = Returned paths →
  flow_of (load_registrations o w).2
  = flow_of w
    ++ omap (operation_binding o) (internalOperation <$> paths)
    ++ omap (operation_binding o) (omap operationSource (extensions (manager w))).
Proof.
  intros Hglob. unfold load_registrations.
  after_returning (registerHooks_returns o).
  after_returning (registerEndpoints_returns o).
  after_returning (registerStorages_returns o).
  rewrite state_after by (intros _; repeat keeps_step).
  rewrite (registerOperations_flow _ _ paths Hglob).
  set (w1 := (registerHooks o w).2). set (w2 := (registerEndpoints o w1).2).
  set (w3 := (registerStorages o w2).2).
  assert (flow_of w3 = flow_of w) as ->.
  { assert (keeps flow_of (registerHooks o)) as H1 by repeat keeps_step.
    assert (keeps flow_of (registerEndpoints o)) as H2 by repeat keeps_step.
    assert (keeps flow_of (registerStorages o)) as H3 by repeat keeps_step.
    subst w3 w2 w1. by rewrite H3, H2, H1. }
  assert (extensions (manager w3) = extensions (manager w)) as ->; [|done].
  pose proof (registerHooks_keeps_settings o w) as H1.
  pose proof (registerEndpoints_keeps_settings o w1) as H2.
  pose proof (registerStorages_keeps_settings o w2) as H3.
  unfold settings in *. subst w3 w2 w1. congruence.
Qed.

(** C8: the operation registrar forwards each configuration to the flow
    manager as the pair (id, handler), the built-in operations found by the
    glob first, in the glob's order, then the discovered extensions of type
    operation, in discovery order; an operation whose module cannot be
    required is skipped.  The same holds of the whole of [load] after
    discovery.  A built-in operation found at [dir/name/file] is named
    [name]. *)
Theorem operations_registered_in_order (o : Oracle) (w : World)
    (paths : list string) (dir opname file : string) :
  globby_operations o = Returned paths →
  free_of path_sep opname → free_of path_sep file →
  let builtin := omap (operation_binding o) (internalOperation <$> paths) in
  let supplied :=
    omap (operation_binding o) (omap operationSource (extensions (manager w))) in
  flow_of (registerOperations o w).2 = flow_of w ++ builtin ++ supplied
  ∧ flow_of (load_registrations o w).2 = flow_of w ++ builtin ++ supplied
  ∧ internalOperation (dir +:+ String path_sep (opname +:+ String path_sep file))
    = {| source_name := opname;
         source_path := dir +:+ String path_sep opname;
         source_api := file |}
  ∧ ∀ config p w',
      flow_of (registerOperation config p w').2
      = flow_of w' ++ [(operation_id config, operation_handler config)].
Proof.
  intros Hglob Hname Hfile builtin supplied.
  split; [by apply registerOperations_flow|].
  split; [by apply load_registrations_flow|].
  split; [by apply internalOperation_named|].
  apply registerOperation_flow.
Qed.

End Operations.

Lemma operations_registered_in_order_witness :
  let w := on_manager (set_extensions [notify_extension]) (@new_world production) in
  globby_operations operations_oracle
  = Returned ["dist/operations/log/index.js"; "dist/operations/mail/index.js"]
  ∧ flow_of (@registerOperations production operations_oracle w).2
    = [("log", 10); ("notify", 11)]
  ∧ source_name (@internalOperation production "dist/operations/log/index.js") = "log".
Proof.
  assert (free_of "/" "log") as Hlog by (simpl; repeat split; discriminate).
  assert (free_of "/" "index.js") as Hindex by (simpl; repeat split; discriminate).
  pose proof (@operations_registered_in_order production operations_oracle
                (on_manager (set_extensions [notify_extension]) (@new_world production))
                _ "dist/operations" "log" "index.js" eq_refl Hlog Hindex)
    as (Hflow & _ & Hnamed & _).
  split; [reflexivity|].
  split; [exact Hflow|].
  exact (f_equal source_name Hnamed).
Defined.

(** * Bundling, one type at a time *)

Section Bundles.
Context `{Platform}.

Lemma shared_deps_loop appDir deps acc w :
  (for_fold deps acc (λ dep depsMapping,
     match find_dep_chunk dep appDir with
     | Some depName => mret (depsMapping ++ [(dep, asset_url (PUBLIC_URL env) depName)])
     | None => logger (WarnMissingSharedDep dep);; mret depsMapping
     end) w).1
  = Returned (acc ++ expected_mapping appDir deps).
Proof.
  revert acc w. induction deps as [|dep deps IH]; intros acc w.
  - simpl. by rewrite app_nil_r.
  - cbn [for_fold]. unfold expected_mapping. rewrite bind_run, omap_cons_option_list.
    destruct (find_dep_chunk dep appDir) as [depName|]; simpl.
    + rewrite IH. by rewrite <-app_assoc.
    + rewrite IH. reflexivity.
Qed.

Lemma getSharedDepsMapping_run o appDir deps w :
  readdir_assets o = Returned appDir →
  (getSharedDepsMapping o deps w).1 = Returned (expected_mapping appDir deps).
Proof.
  intros Hdir. unfold getSharedDepsMapping. rewrite bind_run, Hdir. simpl.
  apply shared_deps_loop.
Qed.

Lemma bundleType_run o mapping exts t bundles w :
  (bundleType o mapping exts t bundles w).1
  = Returned (bundle_step o mapping exts bundles t).
Proof.
  unfold bundleType, bundle_step, compiled. cbv zeta.
  destruct (rollup o _) as [e|e|code [e|]]; reflexivity.
Qed.

Lemma bundle_loop o mapping exts types bundles w :
  (for_fold types bundles (bundleType o mapping exts) w).1
  = Returned (foldl (bundle_step o mapping exts) bundles types).
Proof.
  revert bundles w. induction types as [|t types IH]; intros bundles w; [reflexivity|].
  cbn [for_fold foldl]. rewrite bind_run.
  pose proof (bundleType_run o mapping exts t bundles w) as Hrun.
  destruct (bundleType o mapping exts t bundles w) as [[bundles'|e] w1];
    simpl in Hrun; [|discriminate].
  injection Hrun as ->. apply IH.
Qed.

Lemma bundle_steps_lookup o mapping exts types bundles t :
  foldl (bundle_step o mapping exts) bundles types !! t
  = match (if decide (t ∈ types) then compiled o mapping exts t else None) with
    | Some code => Some code
    | None => bundles !! t
    end.
Proof.
  revert bundles. induction types as [|t' types IH]; intros bundles.
  - cbn [foldl]. rewrite decide_False by apply not_elem_of_nil. reflexivity.
  - cbn [foldl]. rewrite IH. unfold bundle_step.
    destruct (decide (t ∈ types)) as [Hin|Hout].
    + rewrite decide_True by (by right).
      destruct (compiled o mapping exts t) as [code|] eqn:Ht; [reflexivity|].
      destruct (compiled o mapping exts t') as [code'|] eqn:Ht'; [|reflexivity].
      rewrite lookup_insert_ne; [reflexivity|]. intros ->. congruence.
    + destruct (decide (t = t')) as [->|Hne].
      * rewrite decide_True by (by left).
        destruct (compiled o mapping exts t') as [code|]; [|reflexivity].
        by rewrite lookup_insert_eq.
      * rewrite decide_False by (by intros [?|?]%elem_of_cons).
        destruct (compiled o mapping exts t') as [code'|]; [|reflexivity].
        by rewrite lookup_insert_ne.
Qed.

(** C9: once the asset directory has been listed, [generateExtensionBundles]
    returns whatever the bundler does for any one type, and the map it
    returns holds, for each app extension type whose entry module compiled,
    the code compiled for it, and no entry for any other type. *)
Theorem bundles_per_type (o : Oracle) (w : World) (appDir : list string) :
  readdir_assets o = Returned appDir →
  let mapping := expected_mapping appDir APP_SHARED_DEPS in
  ∃ bundles : gmap ExtensionType string,
    (generateExtensionBundles o w).1 = Returned bundles
    ∧ ∀ t, bundles !! t =
           if decide (t ∈ APP_EXTENSION_TYPES)
           then compiled o mapping (extensions (manager w)) t
           else None.
Proof.
  intros Hdir mapping.
  exists (foldl (bundle_step o mapping (extensions (manager w))) ∅ APP_EXTENSION_TYPES).
  split.
  - unfold generateExtensionBundles. rewrite bind_run.
    pose proof (getSharedDepsMapping_run o appDir APP_SHARED_DEPS w Hdir) as Hmap.
    assert (keeps settings (getSharedDepsMapping o APP_SHARED_DEPS)) as Hkeep
      by repeat keeps_step.
    specialize (Hkeep w).
    destruct (getSharedDepsMapping o APP_SHARED_DEPS w) as [[mapping'|e] w1];
      simpl in Hmap; [|discriminate].
    injection Hmap as ->. rewrite bind_run. unfold gets. cbv beta iota.
    rewrite bundle_loop. unfold settings in Hkeep. simpl in Hkeep.
    by replace (extensions (manager w1)) with (extensions (manager w)) by congruence.
  - intros t. rewrite bundle_steps_lookup, lookup_empty.
    destruct (decide (t ∈ APP_EXTENSION_TYPES)); [|reflexivity].
    by destruct (compiled o mapping (extensions (manager w)) t).
Qed.

End Bundles.

Lemma bundles_per_type_witness :
  readdir_assets bundling_oracle = Returned ["vue.entry.js"; "pinia.entry.js"]
  ∧ ∃ bundles : gmap ExtensionType string,
      (@generateExtensionBundles production bundling_oracle (@new_world production)).1
      = Returned bundles
      ∧ bundles !! AppT layout = None
      ∧ bundles !! AppT module = None
      ∧ bundles !! AppT panel = Some "/*export panel: */"
      ∧ bundles !! ApiT hook = None.
Proof.
  split; [reflexivity|].
  destruct (@bundles_per_type production bundling_oracle (@new_world production)
              _ eq_refl) as (bundles & Hrun & Hlookup).
  exists bundles. split; [exact Hrun|].
  rewrite !Hlookup. repeat split.
Defined.

(** * The watcher is created at most once *)

Section Watcher.
Context `{Platform}.

Lemma load_keeps_census o : keeps census (load o).
Proof.
  intros w. pose proof (load_keeps_watching o w) as Hk.
  unfold watching in Hk. injection Hk as Hw _ Hn.
  unfold census. by rewrite Hw, Hn.
Qed.

Lemma unload_keeps_census o : keeps census (unload o).
Proof.
  intros w. pose proof (unload_keeps_settings o w) as Hk.
  unfold settings in Hk. injection Hk as _ Hw _ Hn.
  unfold census. by rewrite Hw, Hn.
Qed.

Lemma updateWatchedExtensions_keeps_census added removed :
  keeps census (updateWatchedExtensions added removed).
Proof.
  intros w. unfold updateWatchedExtensions. rewrite bind_run. unfold gets.
  cbv beta iota. unfold census.
  destruct (watcher (manager w)) as [tracked|] eqn:Hw; simpl; by rewrite ?Hw.
Qed.

Lemma log_names_keeps_census entry names : keeps census (log_names entry names).
Proof. repeat keeps_step. Qed.

Lemma tick_keeps_census task outcome : keeps census (tick task outcome).
Proof. repeat keeps_step. Qed.

Hint Resolve load_keeps_census unload_keeps_census
  updateWatchedExtensions_keeps_census log_names_keeps_census : keeps.

Lemma reload_keeps_census o : keeps census (reload o).
Proof. unfold reload. repeat keeps_step. Qed.

Lemma initializeWatcher_census w :
  census (initializeWatcher w).2
  = if watch (options (manager w)) && (census w).1
    then (false, S (census w).2)
    else census w.
Proof.
  unfold initializeWatcher. rewrite bind_run. unfold gets at 1. cbv beta iota.
  rewrite bind_run. unfold gets at 1. cbv beta iota.
  unfold census at 2 3 4. cbn [fst snd].
  destruct (watch (options (manager w)) && bool_decide (watcher (manager w) = None));
    reflexivity.
Qed.

Lemma initialize_census options o w :
  census (initialize options o w).2
  = if watch (merge_options options) && (census w).1
    then (false, S (census w).2)
    else census w.
Proof.
  unfold initialize. rewrite bind_run. unfold modify at 1. cbv beta iota.
  set (w0 := on_manager (set_options (merge_options options)) w).
  rewrite state_after by (intros _; repeat keeps_step).
  rewrite initializeWatcher_census. reflexivity.
Qed.

Lemma run_event_one_watcher w e : one_watcher w → one_watcher (run_event w e).
Proof.
  intros Hw. destruct e as [options o|o|task outcome]; simpl.
  - unfold one_watcher. rewrite initialize_census.
    destruct (watch (merge_options options)), Hw as [-> | ->]; simpl; auto.
  - unfold one_watcher. by rewrite reload_keeps_census.
  - unfold one_watcher. by rewrite tick_keeps_census.
Qed.

Lemma foldl_invariant (P : World → Prop) events w :
  (∀ w e, e ∈ events → P w → P (run_event w e)) → P w → P (foldl run_event w events).
Proof.
  revert w. induction events as [|e events IH]; intros w Hstep Hw; [exact Hw|].
  simpl. apply IH.
  - intros w' e' He'. apply Hstep. by right.
  - apply Hstep; [by left | exact Hw].
Qed.

(** C10: the default for [watch] is on exactly when the auto-reload flag is
    set and the run mode is not development.  The process has one manager:
    [getExtensionManager] hands out the one it made first.  In no run of the
    process is a second watcher created.  In development mode, as long as no
    call of [initialize] overrides [watch], no watcher is ever created. *)
Theorem watcher_started_at_most_once (events : list Event) :
  (watch defaultOptions = true ↔
     EXTENSIONS_AUTO_RELOAD env = true ∧ NODE_ENV env ≠ "development")
  ∧ (∀ extensionManager,
       let first := getExtensionManager extensionManager in
       getExtensionManager first.2 = (first.1, first.2))
  ∧ (watchersCreated (host (run events)) ≤ 1)%nat
  ∧ (watcher (manager (run events)) = None → watchersCreated (host (run events)) = 0)
  ∧ (NODE_ENV env = "development" → Forall default_watch events →
       watcher (manager (run events)) = None
       ∧ watchersCreated (host (run events)) = 0).
Proof.
  assert (one_watcher (run events)) as Hone.
  { unfold run. apply (foldl_invariant one_watcher); [|by left].
    intros w e _. apply run_event_one_watcher. }
  split; [|split; [|split; [|split]]].
  - unfold defaultOptions. simpl. rewrite andb_true_iff, negb_true_iff.
    rewrite bool_decide_eq_false. reflexivity.
  - intros [m|]; reflexivity.
  - destruct Hone as [Hc|Hc]; injection Hc as _ ->; lia.
  - intros Hnone. destruct Hone as [Hc|Hc]; injection Hc as Hb Hn; [exact Hn|].
    rewrite Hnone in Hb. by rewrite bool_decide_eq_false in Hb.
  - intros Hdev Hdefault.
    assert (census (run events) = (true, 0)) as Hc.
    { unfold run. apply (foldl_invariant (λ w, census w = (true, 0))); [|reflexivity].
      intros w e He Hw. rewrite Forall_forall in Hdefault.
      specialize (Hdefault e He).
      destruct e as [options o|o|task outcome]; simpl in *.
      - rewrite initialize_census. unfold merge_options. simpl.
        rewrite Hdefault. simpl. rewrite Hdev.
        rewrite bool_decide_eq_true_2 by done. rewrite andb_false_r. exact Hw.
      - by rewrite reload_keeps_census.
      - by rewrite tick_keeps_census. }
    injection Hc as Hb Hn. split; [|exact Hn].
    by apply bool_decide_eq_true in Hb.
Qed.

End Watcher.

(** * The watch set across a reload *)

Section WatchSet.
Context `{Platform}.

Lemma paths_cons extension exts :
  toPackageExtensionPaths (extension :: exts)
  = watched_files extension ++ toPackageExtensionPaths exts.
Proof.
  unfold watched_files, toPackageExtensionPaths. rewrite !filter_cons, filter_nil.
  case_decide; simpl; [by rewrite app_nil_r | reflexivity].
Qed.

Lemma elem_of_paths f exts :
  f ∈ toPackageExtensionPaths exts
  ↔ ∃ extension, extension ∈ exts ∧ f ∈ watched_files extension.
Proof.
  induction exts as [|extension exts IH].
  - split; [by intros ?%elem_of_nil | by intros (? & ?%elem_of_nil & _)].
  - rewrite paths_cons, elem_of_app, IH. split.
    + intros [Hf | (e & He & Hf)]; [exists extension | exists e];
        (split; [|done]); [by left | by right].
    + intros (e & [-> | He]%elem_of_cons & Hf); [by left | right; eauto].
Qed.

(** What each kind of descriptor contributes. *)
Lemma watched_files_by_kind extension :
  watched_files extension =
  if local extension then []
  else match extension with
       | ExtensionPackage _ _ => [path_resolve [path extension; "package.json"]]
       | HybridExtension _ _ app api =>
           [path_resolve [path extension; app]; path_resolve [path extension; api]]
       | AppExtension _ _ entrypoint | ApiExtension _ _ entrypoint =>
           [path_resolve [path extension; entrypoint]]
       end.
Proof.
  unfold watched_files, toPackageExtensionPaths. rewrite filter_cons, filter_nil.
  destruct (local extension); simpl; [reflexivity|].
  destruct extension; reflexivity.
Qed.

Lemma elem_of_added prevExtensions exts extension :
  extension ∈ added_extensions prevExtensions exts
  ↔ extension ∈ exts ∧ ∀ prevExtension, prevExtension ∈ prevExtensions →
                          path extension ≠ path prevExtension.
Proof.
  unfold added_extensions. rewrite list_elem_of_filter, Exists_exists. split.
  - intros [Hnone Hin]. split; [done|]. intros p Hp Heq. apply Hnone. eauto.
  - intros [Hin Hnone]. split; [|done]. intros (p & Hp & Heq). by apply (Hnone p).
Qed.

Lemma elem_of_removed prevExtensions exts prevExtension :
  prevExtension ∈ removed_extensions prevExtensions exts
  ↔ prevExtension ∈ prevExtensions ∧ ∀ extension, extension ∈ exts →
                                          path prevExtension ≠ path extension.
Proof.
  unfold removed_extensions. rewrite list_elem_of_filter, Exists_exists. split.
  - intros [Hnone Hin]. split; [done|]. intros e He Heq. apply Hnone. eauto.
  - intros [Hin Hnone]. split; [|done]. intros (e & He & Heq). by apply (Hnone e).
Qed.

Lemma nothing_added exts : added_extensions exts exts = [].
Proof.
  apply elem_of_nil_inv. intros extension (Hin & Hnew)%elem_of_added.
  by apply (Hnew extension).
Qed.

Lemma nothing_removed exts : removed_extensions exts exts = [].
Proof.
  apply elem_of_nil_inv. intros extension (Hin & Hnew)%elem_of_removed.
  by apply (Hnew extension).
Qed.

(** The incremental update agrees with the fresh computation on every path
    on which the watcher agreed with it before, when descriptors that share
    a path contribute the same files and no descriptor of the new list
    contributes a file of a removed one. *)
Lemma watch_update_agrees (S1 S2 : list Extension) (tracked : gset string) f :
  (∀ p e, p ∈ S1 → e ∈ S2 → path p = path e →
          ∀ f, f ∈ watched_files p ↔ f ∈ watched_files e) →
  (∀ p e, p ∈ removed_extensions S1 S2 → e ∈ S2 →
          ∀ f, f ∈ watched_files p → f ∉ watched_files e) →
  (f ∈ tracked ↔ f ∈ toPackageExtensionPaths S1) →
  f ∈ watcher_unwatch (toPackageExtensionPaths (removed_extensions S1 S2))
        (watcher_add (toPackageExtensionPaths (added_extensions S1 S2)) tracked)
  ↔ f ∈ toPackageExtensionPaths S2.
Proof.
  intros Hsame Hapart Htracked. unfold watcher_unwatch, watcher_add.
  rewrite elem_of_difference, elem_of_union, !elem_of_list_to_set, Htracked.
  rewrite !elem_of_paths. split.
  - intros [[(p & Hp & Hf) | (e & (He & _)%elem_of_added & Hf)] Hkept]; [|eauto].
    destruct (decide (Exists (λ e, path p = path e) S2)) as [Hmatch|Hnone].
    + apply Exists_exists in Hmatch as (e & He & Hpath).
      exists e. split; [done|]. by apply (Hsame p e Hp He Hpath).
    + exfalso. apply Hkept. exists p. split; [|done].
      apply elem_of_removed. split; [done|].
      intros e He Hpath. apply Hnone, Exists_exists. eauto.
  - intros (e & He & Hf). split.
    + destruct (decide (Exists (λ p, path e = path p) S1)) as [Hmatch|Hnone].
      * apply Exists_exists in Hmatch as (p & Hp & Hpath).
        left. exists p. split; [done|]. by apply (Hsame p e Hp He (eq_sym Hpath)).
      * right. exists e. split; [|done]. apply elem_of_added. split; [done|].
        intros p Hp Hpath. apply Hnone, Exists_exists. eauto.
    + intros (p & Hgone & Hfp). by apply (Hapart p e Hgone He f).
Qed.

Lemma updateWatchedExtensions_run added removed w :
  (updateWatchedExtensions added removed w).2
  = match watcher (manager w) with
    | Some tracked =>
        on_manager (set_watcher (Some
          (watcher_unwatch (toPackageExtensionPaths removed)
             (watcher_add (toPackageExtensionPaths added) tracked)))) w
    | None => w
    end.
Proof.
  unfold updateWatchedExtensions. rewrite bind_run. unfold gets. cbv beta iota.
  destruct (watcher (manager w)); reflexivity.
Qed.

Lemma log_names_keeps_settings entry names : keeps settings (log_names entry names).
Proof. repeat keeps_step. Qed.

(** A reload job that runs to its end: the descriptor list it leaves is the
    one [load] produced, and the watcher, if there is one, has had the files
    of the added descriptors added and those of the removed ones unwatched. *)
Lemma reload_run o w w' :
  isLoaded (manager w) = true →
  reload o w = (Returned tt, w') →
  let S1 := extensions (manager w) in
  let S2 := extensions (manager w') in
  S2 = extensions (manager (load o (unload o (logger InfoReloading w).2).2).2)
  ∧ watcher (manager w')
    = (λ tracked,
         watcher_unwatch (toPackageExtensionPaths (removed_extensions S1 S2))
           (watcher_add (toPackageExtensionPaths (added_extensions S1 S2)) tracked))
      <$> watcher (manager w).
Proof.
  intros Hloaded Hrun. unfold reload in Hrun.
  rewrite bind_run in Hrun. unfold gets at 1 in Hrun. cbv beta iota in Hrun.
  rewrite Hloaded in Hrun.
  apply bind_returned in Hrun as ([] & w0 & Hlog & Hrun).
  apply bind_returned in Hrun as (prevExtensions & w0' & Hprev & Hrun).
  injection Hprev as <- <-.
  apply bind_returned in Hrun as ([] & w1 & Hunload & Hrun).
  apply bind_returned in Hrun as ([] & w2 & Hload & Hrun).
  apply bind_returned in Hrun as (exts & w2' & Hexts & Hrun).
  injection Hexts as <- <-.
  apply bind_returned in Hrun as ([] & w3 & Hupdate & Hrun).
  apply bind_returned in Hrun as ([] & w4 & Hadded & Hremoved).
  apply (f_equal snd) in Hlog, Hunload, Hload, Hupdate, Hadded, Hremoved.
  cbn [snd] in Hlog, Hunload, Hload, Hupdate, Hadded, Hremoved.
  pose proof (logger_keeps_settings InfoReloading w) as K0.
  pose proof (unload_keeps_settings o w0) as K1.
  pose proof (load_keeps_watching o w1) as K2.
  pose proof (log_names_keeps_settings InfoAdded
                (name <$> added_extensions (extensions (manager w0))
                                           (extensions (manager w2))) w3) as K4.
  pose proof (log_names_keeps_settings InfoRemoved
                (name <$> removed_extensions (extensions (manager w0))
                                             (extensions (manager w2))) w4) as K5.
  rewrite Hlog in K0. rewrite Hunload in K1. rewrite Hload in K2.
  rewrite Hadded in K4. rewrite Hremoved in K5.
  rewrite updateWatchedExtensions_run in Hupdate.
  unfold settings in K0, K1, K4, K5. unfold watching in K2.
  injection K0 as E0 W0 _ _. injection K1 as E1 W1 _ _. injection K2 as W2 _ _.
  injection K4 as E4 W4 _ _. injection K5 as E5 W5 _ _.
  assert (extensions (manager w3) = extensions (manager w2)
          ∧ watcher (manager w3)
            = (λ tracked,
                 watcher_unwatch
                   (toPackageExtensionPaths
                      (removed_extensions (extensions (manager w0)) (extensions (manager w2))))
                   (watcher_add
                      (toPackageExtensionPaths
                         (added_extensions (extensions (manager w0)) (extensions (manager w2))))
                      tracked)) <$> watcher (manager w2)) as [E3 W3].
  { rewrite <-Hupdate.
    destruct (watcher (manager w2)) as [tracked|] eqn:Hw2; simpl; by rewrite ?Hw2. }
  cbv zeta. rewrite E5, E4, E3, W5, W4, W3, W2, W1, W0, <-E0.
  split; [|reflexivity]. by rewrite <-Hload, <-Hunload, <-Hlog.
Qed.

(** C5, as amended: after a reload job that runs to its end, the added
    descriptors are those of the new list whose path matches no previous
    descriptor and the removed ones those of the previous list whose path
    matches no new descriptor; a non-local pack contributes its manifest, a
    hybrid extension both entrypoints, any other its entrypoint, a local
    extension nothing; the watcher has the files of the added descriptors
    added and those of the removed unwatched; and when the list has not
    changed nothing is added or removed and the watcher is left as it was.
    Provided descriptors of the two lists that share a path contribute the
    same files, and no descriptor of the new list contributes a file of a
    removed one, the watcher tracks a path exactly when the set computed
    afresh from the new list holds it, for every path on which it agreed
    with the set computed from the previous list. *)
Theorem reload_watch_set (o : Oracle) (w w' : World) :
  let S1 := extensions (manager w) in
  let S2 := extensions (manager w') in
  let added := added_extensions S1 S2 in
  let removed := removed_extensions S1 S2 in
  isLoaded (manager w) = true →
  reload o w = (Returned tt, w') →
  (∀ e, e ∈ added ↔ e ∈ S2 ∧ ∀ p, p ∈ S1 → path e ≠ path p)
  ∧ (∀ p, p ∈ removed ↔ p ∈ S1 ∧ ∀ e, e ∈ S2 → path p ≠ path e)
  ∧ (∀ e, watched_files e =
          if local e then []
          else match e with
               | ExtensionPackage _ _ => [path_resolve [path e; "package.json"]]
               | HybridExtension _ _ app api =>
                   [path_resolve [path e; app]; path_resolve [path e; api]]
               | AppExtension _ _ entrypoint | ApiExtension _ _ entrypoint =>
                   [path_resolve [path e; entrypoint]]
               end)
  ∧ watcher (manager w')
    = (λ tracked,
         watcher_unwatch (toPackageExtensionPaths removed)
           (watcher_add (toPackageExtensionPaths added) tracked))
      <$> watcher (manager w)
  ∧ (S2 = S1 → added = [] ∧ removed = [] ∧ watcher (manager w') = watcher (manager w))
  ∧ ((∀ p e, p ∈ S1 → e ∈ S2 → path p = path e →
             ∀ f, f ∈ watched_files p ↔ f ∈ watched_files e) →
     (∀ p e, p ∈ removed → e ∈ S2 →
             ∀ f, f ∈ watched_files p → f ∉ watched_files e) →
     ∀ tracked tracked' f,
       watcher (manager w) = Some tracked →
       watcher (manager w') = Some tracked' →
       (f ∈ tracked ↔ f ∈ toPackageExtensionPaths S1) →
       (f ∈ tracked' ↔ f ∈ toPackageExtensionPaths S2)).
Proof.
  intros S1 S2 added removed Hloaded Hrun.
  destruct (reload_run o w w' Hloaded Hrun) as [_ Hwatcher].
  fold S1 S2 added removed in Hwatcher.
  split; [intros e; apply elem_of_added|].
  split; [intros p; apply elem_of_removed|].
  split; [apply watched_files_by_kind|].
  split; [exact Hwatcher|].
  split.
  - intros Heq. subst added removed. rewrite Heq in *.
    rewrite nothing_added, nothing_removed in *. do 2 (split; [reflexivity|]).
    rewrite Hwatcher. destruct (watcher (manager w)) as [tracked|]; [|reflexivity].
    simpl. f_equal. unfold watcher_unwatch, watcher_add, toPackageExtensionPaths.
    rewrite filter_nil. simpl. by rewrite union_empty_r_L, difference_empty_L.
  - intros Hsame Hapart tracked tracked' f Hw Hw' Hagree.
    rewrite Hw in Hwatcher. simpl in Hwatcher. rewrite Hw' in Hwatcher.
    injection Hwatcher as ->. by apply watch_update_agrees.
Qed.

End WatchSet.

Lemma reload_watch_set_witness :
  let w' := (@reload production extended_oracle audit_world).2 in
  isLoaded (manager audit_world) = true
  ∧ (@reload production extended_oracle audit_world).1 = Returned tt
  ∧ extensions (manager audit_world) = [audit_extension]
  ∧ extensions (manager w') = [audit_extension; notify_extension]
  ∧ notify_extension
      ∈ added_extensions (extensions (manager audit_world)) (extensions (manager w'))
  ∧ removed_extensions (extensions (manager audit_world)) (extensions (manager w')) = []
  ∧ tracks w' "/srv/node_modules/directus-extension-notify/dist/api.js" = true
  ∧ ∀ tracked tracked' f,
      watcher (manager audit_world) = Some tracked →
      watcher (manager w') = Some tracked' →
      (f ∈ tracked ↔ f ∈ @toPackageExtensionPaths production [audit_extension]) →
      (f ∈ tracked'
       ↔ f ∈ @toPackageExtensionPaths production [audit_extension; notify_extension]).
Proof.
  assert (isLoaded (manager audit_world) = true) as Hloaded
    by (vm_compute; reflexivity).
  assert ((@reload production extended_oracle audit_world).1 = Returned tt) as Hout
    by (vm_compute; reflexivity).
  assert (@reload production extended_oracle audit_world
          = (Returned tt, (@reload production extended_oracle audit_world).2)) as Hrun.
  { destruct (@reload production extended_oracle audit_world) as [r w1].
    simpl in Hout. subst r. reflexivity. }
  assert (extensions (manager audit_world) = [audit_extension]) as Hprev
    by (vm_compute; reflexivity).
  assert (extensions (manager (@reload production extended_oracle audit_world).2)
          = [audit_extension; notify_extension]) as Hnext
    by (vm_compute; reflexivity).
  assert (removed_extensions [audit_extension] [audit_extension; notify_extension] = [])
    as Hremoved by (vm_compute; reflexivity).
  pose proof (@reload_watch_set production extended_oracle audit_world _ Hloaded Hrun)
    as Hthm.
  cbv zeta in Hthm. rewrite Hprev, Hnext in Hthm.
  destruct Hthm as (Hadded & _ & _ & _ & _ & Hfresh).
  cbv zeta. rewrite Hprev, Hnext.
  split; [exact Hloaded|]. split; [exact Hout|].
  split; [reflexivity|]. split; [reflexivity|].
  split.
  { apply Hadded. split; [right; left|].
    intros p Hp Hpath. apply list_elem_of_singleton in Hp. subst p.
    discriminate Hpath. }
  split; [exact Hremoved|]. split; [vm_compute; reflexivity|].
  apply Hfresh.
  - intros p e Hp He Hpath. apply list_elem_of_singleton in Hp. subst p.
    apply elem_of_cons in He as [->|He]; [reflexivity|].
    apply list_elem_of_singleton in He. subst e. discriminate Hpath.
  - intros p e Hp. rewrite Hremoved in Hp. apply elem_of_nil in Hp. destruct Hp.
Defined.

(** A package whose manifest moves its entrypoint keeps its path: it is
    neither added nor removed, the watcher goes on tracking the old file and
    never tracks the new one, which the set computed afresh from the new list
    holds.  Likewise, when two packages resolve to one entrypoint file and
    one of them disappears, the file is unwatched although the set computed
    afresh holds it. *)
Lemma reload_leaves_stale_watch_set :
  let w' := (@reload production rebuilt_oracle audit_world).2 in
  let w'' := (@reload production (nested_oracle [inner_extension]) nested_world).2 in
  let old_file := "/srv/node_modules/directus-extension-audit/dist/index.js" in
  let new_file := "/srv/node_modules/directus-extension-audit/build/index.js" in
  let shared_file := "/srv/node_modules/outer/inner/index.js" in
  (@reload production rebuilt_oracle audit_world).1 = Returned tt
  ∧ @toPackageExtensionPaths production (extensions (manager audit_world)) = [old_file]
  ∧ tracks audit_world old_file = true
  ∧ @toPackageExtensionPaths production (extensions (manager w')) = [new_file]
  ∧ tracks w' old_file = true
  ∧ tracks w' new_file = false
  ∧ (@reload production (nested_oracle [inner_extension]) nested_world).1 = Returned tt
  ∧ @toPackageExtensionPaths production (extensions (manager w'')) = [shared_file]
  ∧ tracks nested_world shared_file = true
  ∧ tracks w'' shared_file = false.
Proof. cbv zeta. repeat (split; [vm_compute; reflexivity|]). vm_compute. reflexivity. Qed.

Lemma watcher_started_at_most_once_witness :
  let events := [Initialize no_options audit_oracle; Reload rebuilt_oracle;
                 Initialize no_options audit_oracle; Tick 0 None] in
  NODE_ENV (@env development) = "development"
  ∧ Forall default_watch events
  ∧ watcher (manager (@run development events)) = None
  ∧ watchersCreated (host (@run development events)) = 0
  ∧ (watchersCreated (host (@run production events)) ≤ 1)%nat.
Proof.
  cbv zeta.
  assert (Forall default_watch
            [Initialize no_options audit_oracle; Reload rebuilt_oracle;
             Initialize no_options audit_oracle; Tick 0 None]) as Hdefault
    by (repeat constructor).
  destruct (@watcher_started_at_most_once development
              [Initialize no_options audit_oracle; Reload rebuilt_oracle;
               Initialize no_options audit_oracle; Tick 0 None])
    as (_ & _ & _ & _ & Hdev).
  destruct (Hdev eq_refl Hdefault) as [Hnone Hzero].
  destruct (@watcher_started_at_most_once production
              [Initialize no_options audit_oracle; Reload rebuilt_oracle;
               Initialize no_options audit_oracle; Tick 0 None])
    as (_ & _ & Hone & _).
  split; [reflexivity|]. split; [exact Hdefault|]. split; [exact Hnone|].
  split; [exact Hzero | exact Hone].
Defined.

(** * What the registrars record *)

Lemma filtered_loop_appends {A B} (π : World → list B) (g : A → option B)
    (P : A → Prop) `{∀ x, Decision (P x)} (l : list A) (body : A → M unit) w :
  (∀ x, returns (body x)) →
  (∀ x w, P x → π (body x w).2 = π w ++ option_list (g x)) →
  (∀ x, ¬ P x → g x = None) →
  π (for_each (filter P l) body w).2 = π w ++ omap g l.
Proof.
  intros Hret Hbody Hskip. revert w. induction l as [|x l IH]; intros w.
  - simpl. by rewrite app_nil_r.
  - rewrite filter_cons, omap_cons_option_list. case_decide as Hx.
    + cbn [for_each].
      destruct (bind_after_returns (body x) (λ _, for_each (filter P l) body) w
                  (Hret x)) as ([] & _ & ->).
      rewrite IH, Hbody by done. by rewrite app_assoc.
    + rewrite IH, Hskip by done. reflexivity.
Qed.

Lemma loop_appends {A B} (π : World → list B) (g : A → option B)
    (l : list A) (body : A → M unit) w :
  (∀ x, returns (body x)) →
  (∀ x w, π (body x w).2 = π w ++ option_list (g x)) →
  π (for_each l body w).2 = π w ++ omap g l.
Proof.
  intros Hret Hbody. revert w. induction l as [|x l IH]; intros w.
  - simpl. by rewrite app_nil_r.
  - rewrite omap_cons_option_list. cbn [for_each].
    destruct (bind_after_returns (body x) (λ _, for_each l body) w (Hret x))
      as ([] & _ & ->).
    rewrite IH, Hbody. by rewrite app_assoc.
Qed.

Lemma omap_fmap_length {A B C} (g : A → option B) (f : A → B → C) (l : list A) :
  length (omap (λ x, f x <$> g x) l) = length (omap g l).
Proof.
  induction l as [|x l IH]; [done|].
  rewrite !omap_cons_option_list, !length_app, IH. by destruct (g x).
Qed.

Section Registry.
Context `{Platform}.

Lemma registerHook_paths register p w :
  hook_paths (registerHook register p w).2
  = hook_paths w ++ match throws register with None => [p] | Some _ => [] end.
Proof.
  unfold registerHook.
  assert (returns (for_fold (calls register) [] registerFunction)) as Hret
    by repeat returns_step.
  assert (keeps hook_paths (for_fold (calls register) [] registerFunction)) as Hkeep
    by repeat keeps_step.
  destruct (bind_after_returns _
              (λ events, throw_if (throws register);;
                 update_api (λ a, set_hooks
                   (hooks a ++ [{| hook_path := p; hook_events := events |}]) a))
              w Hret) as (events & _ & ->).
  specialize (Hkeep w). revert Hkeep.
  generalize ((for_fold (calls register) [] registerFunction w).2). intros w1 Hw1.
  destruct (throws register) as [e|]; simpl.
  - by rewrite app_nil_r.
  - unfold hook_paths in *. simpl. by rewrite fmap_app, Hw1.
Qed.

Lemma registerHookFrom_returns o extension : returns (registerHookFrom o extension).
Proof. repeat returns_step. Qed.

Lemma registerHookFrom_paths o extension w :
  type extension = ApiT hook →
  hook_paths (registerHookFrom o extension w).2
  = hook_paths w ++ option_list (recorded_hook o extension).
Proof.
  destruct extension as [| b [] entrypoint | |]; try discriminate. intros _.
  unfold registerHookFrom, recorded_hook, hook_config.
  rewrite state_after_try_catch by (intros ?; repeat keeps_step).
  cbv zeta. unfold require.
  destruct (require_resolve o _) as [file|]; simpl; [|by rewrite app_nil_r].
  rewrite !bind_run.
  destruct (hook_module o file) as [instance|e]; simpl; [|by rewrite app_nil_r].
  rewrite registerHook_paths.
  by destruct (throws (getModuleDefault instance)).
Qed.

Lemma recorded_hook_other o extension :
  type extension ≠ ApiT hook → recorded_hook o extension = None.
Proof. by destruct extension as [| b [] entrypoint | |]. Qed.

(** X1: the hook registry after [registerHooks] is the registry before it
    followed by one record per hook extension whose module could be required
    and whose [register] returned, in discovery order, under the resolved
    entrypoint; every other hook extension contributes no record. *)
Theorem registerHooks_records (o : Oracle) (w : World) :
  hook_paths (registerHooks o w).2
  = hook_paths w ++ omap (recorded_hook o) (extensions (manager w)).
Proof.
  unfold registerHooks. rewrite bind_run. unfold gets. cbv beta iota.
  apply filtered_loop_appends.
  - apply registerHookFrom_returns.
  - intros x w' Hx. by apply registerHookFrom_paths.
  - apply recorded_hook_other.
Qed.

Lemma registerEndpoint_paths config p name' w :
  endpoint_paths (registerEndpoint config p name' w).2
  = endpoint_paths w
    ++ match throws (match config with
                     | EndpointFunction f => f
                     | EndpointObject _ handler => handler
                     end) with
       | None => [p]
       | Some _ => []
       end.
Proof.
  unfold registerEndpoint.
  destruct config as [register|id register]; cbv beta iota zeta.
  all: match goal with
  | |- context [on_router ?f ≫= ?k] =>
      destruct (bind_after_returns (on_router f) k w) as ([] & _ & ->);
        [repeat returns_step|]
  end.
  all: match goal with
  | |- context [(for_each ?l ?b ≫= ?k) ?w0] =>
      destruct (bind_after_returns (for_each l b) k w0) as ([] & _ & ->);
        [apply returns_for_each, endpointCall_returns|];
      assert (endpoint_paths (for_each l b w0).2 = endpoint_paths w) as Hkeep;
        [|revert Hkeep; generalize ((for_each l b w0).2)]
  end.
  1,3: assert (keeps endpoint_paths (for_each (calls register) endpointCall)) as ->
    by repeat keeps_step; reflexivity.
  all: intros w1 Hw1; destruct (throws register) as [e|]; simpl;
    [by rewrite app_nil_r | unfold endpoint_paths in *; simpl; by rewrite Hw1].
Qed.

Lemma registerEndpointFrom_paths o extension w :
  type extension = ApiT endpoint →
  endpoint_paths (registerEndpointFrom o extension w).2
  = endpoint_paths w ++ option_list (recorded_endpoint o extension).
Proof.
  destruct extension as [| b [] entrypoint | |]; try discriminate. intros _.
  unfold registerEndpointFrom, recorded_endpoint, endpoint_config.
  rewrite state_after_try_catch by (intros ?; repeat keeps_step).
  cbv zeta. unfold require.
  destruct (require_resolve o _) as [file|]; simpl; [|by rewrite app_nil_r].
  rewrite !bind_run.
  destruct (endpoint_module o file) as [instance|e]; simpl; [|by rewrite app_nil_r].
  rewrite registerEndpoint_paths.
  by destruct (throws _).
Qed.

Lemma recorded_endpoint_other o extension :
  type extension ≠ ApiT endpoint → recorded_endpoint o extension = None.
Proof. by destruct extension as [| b [] entrypoint | |]. Qed.

(** X2: the endpoint registry after [registerEndpoints] is the registry
    before it followed by the resolved entrypoint of each endpoint extension
    whose module could be required and whose handler returned, in discovery
    order.  An endpoint whose handler throws is left out of the registry
    although its sub-router has been mounted: the router then holds more
    layers than the registry holds records. *)
Theorem registerEndpoints_records (o : Oracle) (w : World) :
  endpoint_paths (registerEndpoints o w).2
  = endpoint_paths w ++ omap (recorded_endpoint o) (extensions (manager w))
  ∧ (length (router_of (registerEndpoints o w).2)
     = length (router_of w) + length (omap (endpoint_config o) (extensions (manager w))))%nat
  ∧ (length (omap (recorded_endpoint o) (extensions (manager w)))
     ≤ length (omap (endpoint_config o) (extensions (manager w))))%nat.
Proof.
  split; [|split].
  - unfold registerEndpoints. rewrite bind_run. unfold gets. cbv beta iota.
    apply filtered_loop_appends.
    + apply registerEndpointFrom_returns.
    + intros x w' Hx. by apply registerEndpointFrom_paths.
    + apply recorded_endpoint_other.
  - rewrite registerEndpoints_router, length_app.
    pose proof (omap_fmap_length (endpoint_config o)
                  (λ extension config, endpoint_layer config (name extension))
                  (extensions (manager w))) as Hlen.
    unfold mounted_by. rewrite Hlen. lia.
  - induction (extensions (manager w)) as [|x l IH]; [done|].
    rewrite !omap_cons_option_list, !length_app.
    assert (length (option_list (recorded_endpoint o x))
            ≤ length (option_list (endpoint_config o x)))%nat; [|lia].
    unfold recorded_endpoint.
    destruct x as [| b t entrypoint | |]; cbn [option_list length]; try lia.
    destruct (endpoint_config o (ApiExtension b t entrypoint)) as [config|];
      cbn [option_list length]; [|lia].
    cbv zeta. destruct config as [register|id register];
      destruct (throws register); cbn [option_list length]; lia.
Qed.

Lemma registerStorageFrom_returns o extension : returns (registerStorageFrom o extension).
Proof. repeat returns_step. Qed.

Lemma registerStorageFrom_records o extension w :
  type extension = ApiT storage →
  storage_records (registerStorageFrom o extension w).2
  = storage_records w ++ option_list (recorded_storage o extension).
Proof.
  destruct extension as [| b [] entrypoint | |]; try discriminate. intros _.
  unfold registerStorageFrom, recorded_storage.
  rewrite state_after_try_catch by (intros ?; repeat keeps_step).
  cbv zeta. unfold require.
  destruct (require_resolve o _) as [file|]; simpl; [|by rewrite app_nil_r].
  rewrite !bind_run.
  destruct (storage_module o file) as [instance|e]; simpl; [|by rewrite app_nil_r].
  reflexivity.
Qed.

Lemma recorded_storage_other o extension :
  type extension ≠ ApiT storage → recorded_storage o extension = None.
Proof. by destruct extension as [| b [] entrypoint | |]. Qed.

(** X3: the storage registry after [registerStorages] is the registry
    before it followed by one record per storage extension whose module could
    be required, in discovery order: the resolved entrypoint with the value
    [require] returned; storage extensions whose module cannot be required
    and extensions of other types contribute nothing. *)
Theorem registerStorages_records (o : Oracle) (w : World) :
  storage_records (registerStorages o w).2
  = storage_records w ++ omap (recorded_storage o) (extensions (manager w)).
Proof.
  unfold registerStorages. rewrite bind_run. unfold gets. cbv beta iota.
  apply filtered_loop_appends.
  - apply registerStorageFrom_returns.
  - intros x w' Hx. by apply registerStorageFrom_records.
  - apply recorded_storage_other.
Qed.

Lemma registerOperationFrom_paths o source w :
  operation_paths (registerOperationFrom o source w).2
  = operation_paths w ++ option_list (recorded_operation o source).
Proof.
  unfold registerOperationFrom, recorded_operation, operation_binding.
  rewrite state_after_try_catch by (intros ?; repeat keeps_step).
  cbv zeta. unfold require.
  destruct (require_resolve o _) as [file|]; simpl; [|by rewrite app_nil_r].
  rewrite !bind_run.
  destruct (operation_module o file) as [instance|e]; simpl; [|by rewrite app_nil_r].
  reflexivity.
Qed.

(** X4: when the glob of built-in operations resolves, the operation
    registry grows by the resolved entrypoint of each operation whose module
    could be required, built-in ones first, and the flow manager's table
    grows by as many bindings: every registry record has its binding. *)
Theorem registerOperations_records (o : Oracle) (w : World) (paths : list string) :
  globby_operations o = Returned paths →
  let sources :=
    (internalOperation <$> paths) ++ omap operationSource (extensions (manager w)) in
  operation_paths (registerOperations o w).2
  = operation_paths w ++ omap (recorded_operation o) sources
  ∧ (length (operation_paths (registerOperations o w).2) + length (flow_of w)
     = length (flow_of (registerOperations o w).2) + length (operation_paths w))%nat.
Proof.
  intros Hglob sources.
  assert (operation_paths (registerOperations o w).2
          = operation_paths w ++ omap (recorded_operation o) sources) as Hpaths.
  { unfold registerOperations. rewrite bind_run, Hglob. simpl.
    rewrite bind_run. unfold gets. cbv beta iota.
    apply loop_appends.
    - apply registerOperationFrom_returns.
    - intros x w'. apply registerOperationFrom_paths. }
  split; [exact Hpaths|].
  rewrite Hpaths, (registerOperations_flow o w paths Hglob), <-omap_app.
  fold sources. rewrite !length_app.
  assert (length (omap (recorded_operation o) sources)
          = length (omap (operation_binding o) sources)) as Hlen.
  { clear Hpaths. induction sources as [|x l IH]; [done|].
    rewrite !omap_cons_option_list, !length_app, IH. unfold recorded_operation.
    by destruct (operation_binding o x). }
  lia.
Qed.

End Registry.

Lemma registerOperations_records_witness :
  let w := on_manager (set_extensions [notify_extension]) (@new_world production) in
  globby_operations operations_oracle
  = Returned ["dist/operations/log/index.js"; "dist/operations/mail/index.js"]
  ∧ operation_paths (@registerOperations production operations_oracle w).2
    = ["/srv/dist/operations/log/index.js";
       "/srv/node_modules/directus-extension-notify/dist/api.js"].
Proof.
  split; [reflexivity|].
  exact (proj1 (@registerOperations_records production operations_oracle
                  (on_manager (set_extensions [notify_extension]) (@new_world production))
                  _ eq_refl)).
Defined.

(** * Unload *)

Lemma bind_unit_returned {C} (m : M unit) (k : unit → M C) w :
  is_returned ((m ≫= k) w).1 ↔ is_returned (m w).1 ∧ is_returned (k tt (m w).2).1.
Proof.
  rewrite bind_run. destruct (m w) as [[[]|e] w1]; simpl; tauto.
Qed.

Lemma for_each_returned {A} (Q : A → Prop) (l : list A) (body : A → M unit) w :
  (∀ x w, is_returned (body x w).1 ↔ Q x) →
  is_returned (for_each l body w).1 ↔ Forall Q l.
Proof.
  intros Hbody. revert w. induction l as [|x l IH]; intros w.
  - simpl. split; [constructor | done].
  - cbn [for_each]. rewrite bind_unit_returned, Hbody, IH, Forall_cons. tauto.
Qed.

Lemma delete_require_cache_returned o request w :
  is_returned (delete_require_cache o request w).1 ↔ resolvable o request.
Proof.
  unfold delete_require_cache, resolvable.
  destruct (require_resolve o request); simpl; split; try done.
Qed.

Section Unload.
Context `{Platform}.

Lemma unregisterHooks_returned o w :
  is_returned (unregisterHooks o w).1 ↔ Forall (resolvable o) (hook_paths w).
Proof.
  unfold unregisterHooks. rewrite bind_run. unfold gets. cbv beta iota.
  rewrite bind_unit_returned.
  rewrite (for_each_returned (λ record, resolvable o (hook_path record))).
  - unfold hook_paths. rewrite Forall_fmap. simpl. tauto.
  - intros record w'. rewrite bind_unit_returned, delete_require_cache_returned.
    assert (returns (for_each (hook_events record) unregisterEvent)) as Hret
      by repeat returns_step.
    specialize (Hret w'). tauto.
Qed.

Lemma unregisterEndpoints_returned o w :
  is_returned (unregisterEndpoints o w).1 ↔ Forall (resolvable o) (endpoint_paths w).
Proof.
  unfold unregisterEndpoints. rewrite bind_run. unfold gets. cbv beta iota.
  rewrite bind_unit_returned.
  rewrite (for_each_returned (resolvable o)).
  - simpl. unfold endpoint_paths. tauto.
  - intros p w'. apply delete_require_cache_returned.
Qed.

Lemma unregisterStorages_returned o w :
  is_returned (unregisterStorages o w).1 ↔ Forall (resolvable o) (storage_records w).*1.
Proof.
  unfold unregisterStorages. rewrite bind_run. unfold gets. cbv beta iota.
  rewrite bind_unit_returned.
  rewrite (for_each_returned (λ record, resolvable o record.1)).
  - rewrite Forall_fmap. simpl. unfold storage_records. tauto.
  - intros p w'. apply delete_require_cache_returned.
Qed.

Lemma unregisterOperations_returned o w :
  is_returned (unregisterOperations o w).1 ↔ Forall (resolvable o) (operation_paths w).
Proof.
  unfold unregisterOperations. rewrite bind_run. unfold gets. cbv beta iota.
  rewrite bind_unit_returned.
  rewrite (for_each_returned (resolvable o)).
  - simpl. unfold operation_paths. tauto.
  - intros p w'. apply delete_require_cache_returned.
Qed.

Lemma unload_returned o w :
  is_returned (unload o w).1 ↔ Forall (resolvable o) (registry_paths w).
Proof.
  unfold unload, registry_paths.
  rewrite bind_unit_returned, unregisterHooks_returned.
  set (w1 := (unregisterHooks o w).2).
  rewrite bind_unit_returned, unregisterEndpoints_returned.
  set (w2 := (unregisterEndpoints o w1).2).
  rewrite bind_unit_returned, unregisterStorages_returned.
  set (w3 := (unregisterStorages o w2).2).
  rewrite bind_unit_returned, unregisterOperations_returned.
  set (w4 := (unregisterOperations o w3).2).
  assert (endpoint_paths w1 = endpoint_paths w) as ->.
  { assert (keeps endpoint_paths (unregisterHooks o)) as Hk by repeat keeps_step.
    apply Hk. }
  assert (storage_records w2 = storage_records w) as ->.
  { assert (keeps storage_records (unregisterHooks o)) as Hk1 by repeat keeps_step.
    assert (keeps storage_records (unregisterEndpoints o)) as Hk2 by repeat keeps_step.
    subst w2 w1. by rewrite Hk2, Hk1. }
  assert (operation_paths w3 = operation_paths w) as ->.
  { assert (keeps operation_paths (unregisterHooks o)) as Hk1 by repeat keeps_step.
    assert (keeps operation_paths (unregisterEndpoints o)) as Hk2 by repeat keeps_step.
    assert (keeps operation_paths (unregisterStorages o)) as Hk3 by repeat keeps_step.
    subst w3 w2 w1. by rewrite Hk3, Hk2, Hk1. }
  rewrite !Forall_app.
  assert (is_returned
            ((on_apiEmitter emitter_offAll;;
              (if SERVE_APP env then modify (on_manager (set_appExtensions ∅))
               else mret tt);;
              modify (on_manager (set_isLoaded false))) w4).1) as Hrest.
  { assert (returns (on_apiEmitter emitter_offAll;;
              (if SERVE_APP env then modify (on_manager (set_appExtensions ∅))
               else mret tt);;
              modify (on_manager (set_isLoaded false)))) as Hr by repeat returns_step.
    apply Hr. }
  tauto.
Qed.

Lemma delete_require_cache_cache o request w :
  is_returned (delete_require_cache o request w).1 →
  cache_of (delete_require_cache o request w).2
  = cache_of w ∖ resolved_files o [request].
Proof.
  unfold delete_require_cache, resolved_files. simpl.
  destruct (require_resolve o request) as [file|]; [|done]. intros _. simpl.
  by rewrite union_empty_r_L.
Qed.

Lemma eviction_loop {A} o (request : A → string) (body : A → M unit) (l : list A) w :
  (∀ x w, is_returned (body x w).1 →
          cache_of (body x w).2 = cache_of w ∖ resolved_files o [request x]) →
  is_returned (for_each l body w).1 →
  cache_of (for_each l body w).2 = cache_of w ∖ resolved_files o (request <$> l).
Proof.
  intros Hbody. revert w. induction l as [|x l IH]; intros w.
  - intros _. unfold resolved_files. simpl. by rewrite difference_empty_L.
  - cbn [for_each]. rewrite bind_unit_returned. intros [Hx Hl].
    specialize (Hbody x w Hx). rewrite bind_run.
    destruct (body x w) as [[[]|e] w1]; [|done].
    cbn [fst snd] in *. rewrite (IH _ Hl), Hbody. unfold resolved_files.
    rewrite fmap_cons. change (request x :: (request <$> l))
      with ([request x] ++ (request <$> l)).
    by rewrite omap_app, list_to_set_app_L, difference_difference_l_L.
Qed.

Lemma unregister_record_cache o record w :
  is_returned ((for_each (hook_events record) unregisterEvent;;
                delete_require_cache o (hook_path record)) w).1 →
  cache_of ((for_each (hook_events record) unregisterEvent;;
             delete_require_cache o (hook_path record)) w).2
  = cache_of w ∖ resolved_files o [hook_path record].
Proof.
  rewrite bind_unit_returned. intros [_ Hr]. rewrite bind_run.
  assert (keeps cache_of (for_each (hook_events record) unregisterEvent)) as Hkeep
    by repeat keeps_step.
  assert (returns (for_each (hook_events record) unregisterEvent)) as Hret
    by repeat returns_step.
  specialize (Hkeep w). specialize (Hret w).
  destruct (for_each (hook_events record) unregisterEvent w) as [[[]|e] w1]; [|done].
  cbn [fst snd] in *. rewrite <-Hkeep. by apply delete_require_cache_cache.
Qed.

Lemma unregisterHooks_done o w :
  is_returned (unregisterHooks o w).1 →
  hooks_of (unregisterHooks o w).2 = []
  ∧ cache_of (unregisterHooks o w).2 = cache_of w ∖ resolved_files o (hook_paths w).
Proof.
  unfold unregisterHooks. rewrite bind_run. unfold gets. cbv beta iota.
  rewrite bind_unit_returned. intros [Hloop _].
  pose proof (eviction_loop o hook_path _ _ w (unregister_record_cache o) Hloop)
    as Hcache.
  rewrite bind_run.
  destruct (for_each _ _ w) as [[[]|e] w1]; [|done].
  split; [reflexivity|]. exact Hcache.
Qed.

Lemma unregisterEndpoints_done o w :
  is_returned (unregisterEndpoints o w).1 →
  endpoint_paths (unregisterEndpoints o w).2 = []
  ∧ router_of (unregisterEndpoints o w).2 = []
  ∧ cache_of (unregisterEndpoints o w).2
    = cache_of w ∖ resolved_files o (endpoint_paths w).
Proof.
  unfold unregisterEndpoints. rewrite bind_run. unfold gets. cbv beta iota.
  rewrite bind_unit_returned. intros [Hloop _].
  pose proof (eviction_loop o id _ _ w (delete_require_cache_cache o) Hloop) as Hcache.
  rewrite list_fmap_id in Hcache. rewrite bind_run.
  destruct (for_each _ _ w) as [[[]|e] w1]; [|done].
  repeat split. exact Hcache.
Qed.

Lemma unregisterStorages_done o w :
  is_returned (unregisterStorages o w).1 →
  storage_records (unregisterStorages o w).2 = []
  ∧ cache_of (unregisterStorages o w).2
    = cache_of w ∖ resolved_files o (storage_records w).*1.
Proof.
  unfold unregisterStorages. rewrite bind_run. unfold gets. cbv beta iota.
  rewrite bind_unit_returned. intros [Hloop _].
  pose proof (eviction_loop o fst _ _ w
                (λ record, delete_require_cache_cache o record.1) Hloop) as Hcache.
  rewrite bind_run.
  destruct (for_each _ _ w) as [[[]|e] w1]; [|done].
  repeat split. exact Hcache.
Qed.

Lemma unregisterOperations_done o w :
  is_returned (unregisterOperations o w).1 →
  operation_paths (unregisterOperations o w).2 = []
  ∧ flow_of (unregisterOperations o w).2 = []
  ∧ cache_of (unregisterOperations o w).2
    = cache_of w ∖ resolved_files o (operation_paths w).
Proof.
  unfold unregisterOperations. rewrite bind_run. unfold gets. cbv beta iota.
  rewrite bind_unit_returned. intros [Hloop _].
  pose proof (eviction_loop o id _ _ w (delete_require_cache_cache o) Hloop) as Hcache.
  rewrite list_fmap_id in Hcache. rewrite bind_run.
  destruct (for_each _ _ w) as [[[]|e] w1]; [|done].
  repeat split. exact Hcache.
Qed.

Lemma seq_run {C} (m : M unit) (k : unit → M C) w :
  is_returned (m w).1 → (m ≫= k) w = k tt (m w).2.
Proof. rewrite bind_run. by destruct (m w) as [[[]|e] w1]. Qed.

Lemma resolved_files_app o l1 l2 :
  resolved_files o (l1 ++ l2) = resolved_files o l1 ∪ resolved_files o l2.
Proof. unfold resolved_files. by rewrite omap_app, list_to_set_app_L. Qed.

(** What [unload] leaves when it returns. *)
Lemma unload_state (o : Oracle) (w : World) :
  (unload o w).1 = Returned tt →
  let w' := (unload o w).2 in
  hooks_of w' = [] ∧ endpoint_paths w' = [] ∧ storage_records w' = []
  ∧ operation_paths w' = [] ∧ router_of w' = []
  ∧ apiEmitter (manager w') = [] ∧ flow_of w' = []
  ∧ isLoaded (manager w') = false
  ∧ appExtensions (manager w')
    = (if SERVE_APP env then ∅ else appExtensions (manager w))
  ∧ cache_of w' = cache_of w ∖ resolved_files o (registry_paths w).
Proof.
  rewrite <-is_returned_unit. intros Hret. pose proof Hret as Hall. apply unload_returned in Hall.
  unfold registry_paths in Hall. rewrite !Forall_app in Hall.
  destruct Hall as (HH & HE & HS & HO).
  assert (keeps endpoint_paths (unregisterHooks o)) as KH_e by repeat keeps_step.
  assert (keeps storage_records (unregisterHooks o)) as KH_s by repeat keeps_step.
  assert (keeps operation_paths (unregisterHooks o)) as KH_o by repeat keeps_step.
  assert (keeps storage_records (unregisterEndpoints o)) as KE_s by repeat keeps_step.
  assert (keeps operation_paths (unregisterEndpoints o)) as KE_o by repeat keeps_step.
  assert (keeps hooks_of (unregisterEndpoints o)) as KE_h by repeat keeps_step.
  assert (keeps operation_paths (unregisterStorages o)) as KS_o by repeat keeps_step.
  assert (keeps hooks_of (unregisterStorages o)) as KS_h by repeat keeps_step.
  assert (keeps endpoint_paths (unregisterStorages o)) as KS_e by repeat keeps_step.
  assert (keeps router_of (unregisterStorages o)) as KS_r by repeat keeps_step.
  assert (keeps hooks_of (unregisterOperations o)) as KO_h by repeat keeps_step.
  assert (keeps endpoint_paths (unregisterOperations o)) as KO_e by repeat keeps_step.
  assert (keeps storage_records (unregisterOperations o)) as KO_s by repeat keeps_step.
  assert (keeps router_of (unregisterOperations o)) as KO_r by repeat keeps_step.
  assert (keeps (λ w, appExtensions (manager w)) (unregisterHooks o)) as KH_a
    by repeat keeps_step.
  assert (keeps (λ w, appExtensions (manager w)) (unregisterEndpoints o)) as KE_a
    by repeat keeps_step.
  assert (keeps (λ w, appExtensions (manager w)) (unregisterStorages o)) as KS_a
    by repeat keeps_step.
  assert (keeps (λ w, appExtensions (manager w)) (unregisterOperations o)) as KO_a
    by repeat keeps_step.
  set (w1 := (unregisterHooks o w).2).
  set (w2 := (unregisterEndpoints o w1).2).
  set (w3 := (unregisterStorages o w2).2).
  set (w4 := (unregisterOperations o w3).2).
  assert (endpoint_paths w1 = endpoint_paths w) as E1 by apply KH_e.
  assert (storage_records w2 = storage_records w) as E2
    by (subst w2 w1; by rewrite KE_s, KH_s).
  assert (operation_paths w3 = operation_paths w) as E3
    by (subst w3 w2 w1; by rewrite KS_o, KE_o, KH_o).
  assert (is_returned (unregisterHooks o w).1) as R1
    by by apply unregisterHooks_returned.
  assert (is_returned (unregisterEndpoints o w1).1) as R2
    by (apply unregisterEndpoints_returned; by rewrite E1).
  assert (is_returned (unregisterStorages o w2).1) as R3
    by (apply unregisterStorages_returned; by rewrite E2).
  assert (is_returned (unregisterOperations o w3).1) as R4
    by (apply unregisterOperations_returned; by rewrite E3).
  destruct (unregisterHooks_done o w R1) as [D1 C1].
  destruct (unregisterEndpoints_done o w1 R2) as (D2 & D2r & C2).
  destruct (unregisterStorages_done o w2 R3) as [D3 C3].
  destruct (unregisterOperations_done o w3 R4) as (D4 & D4f & C4).
  fold w1 in D1, C1. fold w2 in D2, D2r, C2. fold w3 in D3, C3. fold w4 in D4, D4f, C4.
  assert (unload o w
          = (on_apiEmitter emitter_offAll;;
             (if SERVE_APP env then modify (on_manager (set_appExtensions ∅))
              else mret tt);;
             modify (on_manager (set_isLoaded false))) w4) as ->.
  { unfold unload. rewrite (seq_run _ _ w R1). fold w1.
    rewrite (seq_run _ _ w1 R2). fold w2. rewrite (seq_run _ _ w2 R3). fold w3.
    rewrite (seq_run _ _ w3 R4). reflexivity. }
  assert (hooks_of w4 = []) as F1
    by (subst w4 w3 w2; by rewrite KO_h, KS_h, KE_h).
  assert (endpoint_paths w4 = []) as F2 by (subst w4 w3; by rewrite KO_e, KS_e).
  assert (storage_records w4 = []) as F3 by (subst w4; by rewrite KO_s).
  assert (router_of w4 = []) as F5 by (subst w4 w3; by rewrite KO_r, KS_r).
  assert (appExtensions (manager w4) = appExtensions (manager w)) as F6
    by (subst w4 w3 w2 w1; by rewrite KO_a, KS_a, KE_a, KH_a).
  assert (cache_of w4 = cache_of w ∖ resolved_files o (registry_paths w)) as F7.
  { rewrite C4, C3, C2, C1, E1, E2, E3. unfold registry_paths.
    rewrite !resolved_files_app, !difference_difference_l_L.
    reflexivity. }
  cbv zeta.
  destruct (SERVE_APP env);
    (split; [exact F1|]); (split; [exact F2|]); (split; [exact F3|]);
    (split; [exact D4|]); (split; [exact F5|]); (split; [reflexivity|]);
    (split; [exact D4f|]); (split; [reflexivity|]);
    (split; [first [reflexivity | exact F6] | exact F7]).
Qed.

(** X5: [unload] returns exactly when every path the registry holds still
    resolves; it then leaves the four registry lists, the endpoint router,
    the per-cycle emitter and the flow manager's table empty, marks the
    manager unloaded, clears the bundle map if the app is served and leaves
    it alone otherwise, and has evicted from the module cache exactly the
    files the registry paths resolve to. *)
Theorem unload_resets (o : Oracle) (w : World) :
  ((unload o w).1 = Returned tt ↔ Forall (resolvable o) (registry_paths w))
  ∧ ((unload o w).1 = Returned tt →
     let w' := (unload o w).2 in
     hooks_of w' = [] ∧ endpoint_paths w' = [] ∧ storage_records w' = []
     ∧ operation_paths w' = [] ∧ router_of w' = []
     ∧ apiEmitter (manager w') = [] ∧ flow_of w' = []
     ∧ isLoaded (manager w') = false
     ∧ appExtensions (manager w')
       = (if SERVE_APP env then ∅ else appExtensions (manager w))
     ∧ cache_of w' = cache_of w ∖ resolved_files o (registry_paths w)).
Proof.
  split; [|apply unload_state].
  rewrite <-is_returned_unit. apply unload_returned.
Qed.

Lemma thrown_keeps_bind {B C} (π : World → B) (m : M unit) (k : unit → M C) w :
  keeps π m →
  (¬ is_returned (k tt (m w).2).1 → π (k tt (m w).2).2 = π (m w).2) →
  ¬ is_returned ((m ≫= k) w).1 → π ((m ≫= k) w).2 = π w.
Proof.
  intros Hm Hk. rewrite bind_run. specialize (Hm w).
  destruct (m w) as [[[]|e] w1]; simpl in *.
  - intros Hthrown. by rewrite Hk.
  - intros _. exact Hm.
Qed.

End Unload.

Lemma unload_resets_witness :
  (@unload production audit_oracle audit_world).1 = Returned tt
  ∧ hooks_of (@unload production audit_oracle audit_world).2 = []
  ∧ isLoaded (manager (@unload production audit_oracle audit_world).2) = false.
Proof.
  assert ((@unload production audit_oracle audit_world).1 = Returned tt) as Hret
    by (vm_compute; reflexivity).
  destruct (proj2 (@unload_resets production audit_oracle audit_world) Hret)
    as (Hhooks & _ & _ & _ & _ & _ & _ & Hflag & _).
  split; [exact Hret|]. split; [exact Hhooks | exact Hflag].
Defined.

(** * What a cycle's hooks bind and what [unload] undoes *)

Lemma remove_one_present (b : Binding) (em : Emitter) :
  b ∈ em → b :: remove_one b em ≡ₚ em.
Proof.
  induction em as [|b' em IH]; intros Hin; [by apply elem_of_nil in Hin|].
  cbn [remove_one]. destruct (decide (b = b')) as [->|Hne]; [reflexivity|].
  apply elem_of_cons in Hin as [Heq|Hin]; [contradiction|].
  rewrite Permutation_swap. by rewrite (IH Hin).
Qed.

Lemma remove_one_added (b : Binding) (em rest : Emitter) :
  em ≡ₚ b :: rest → remove_one b em ≡ₚ rest.
Proof.
  intros Hperm. apply (Permutation_cons_inv (a := b)).
  rewrite remove_one_present; [exact Hperm|].
  rewrite Hperm. apply elem_of_cons. by left.
Qed.

Section HookEffects.
Context `{Platform}.

Lemma recorded_events_app calls1 calls2 next :
  recorded_events (calls1 ++ calls2) next
  = recorded_events calls1 next
    ++ recorded_events calls2 (next + length (omap scheduled_task calls1)).
Proof.
  revert next. induction calls1 as [|call calls1 IH]; intros next.
  - simpl. by rewrite Nat.add_0_r.
  - destruct call as [event handler|event handler|event handler|cron handler|k event handler];
      cbn [app recorded_events omap list_omap scheduled_task].
    1-3, 5: by rewrite IH.
    destruct (validate cron); cbn [app length]; rewrite IH; [|done].
    by rewrite Nat.add_succ_comm.
Qed.

(** Undoing the recorded events of some calls removes from the bus one
    binding for each binding the calls added. *)
Lemma events_off_restore calls next (em before : Emitter) :
  em ≡ₚ before ++ omap bus_binding calls →
  foldl event_off em (recorded_events calls next) ≡ₚ before.
Proof.
  revert next em. induction calls as [|call calls IH]; intros next em Hperm.
  - simpl in *. by rewrite app_nil_r in Hperm.
  - destruct call as [event handler|event handler|event handler|cron handler|k event handler];
      cbn [recorded_events omap list_omap bus_binding foldl event_off] in *.
    1-3: apply IH; unfold emitter_off; apply remove_one_added;
         by rewrite Hperm, Permutation_middle.
    + destruct (validate cron); by apply IH.
    + by apply IH.
Qed.

(** Undoing the recorded events of some calls stops each task the calls
    started and no other. *)
Lemma events_stop_tasks calls (before : list ScheduledTask) :
  foldl event_stop (before ++ omap scheduled_task calls)
    (recorded_events calls (length before))
  = before ++ (stop_task <$> omap scheduled_task calls).
Proof.
  revert before. induction calls as [|call calls IH]; intros before; [reflexivity|].
  destruct call as [event handler|event handler|event handler|cron handler|k event handler];
    cbn [recorded_events omap list_omap scheduled_task foldl event_stop].
  1-3, 5: apply IH.
  destruct (validate cron); [|apply IH].
  cbn [foldl event_stop fmap list_fmap].
  set (task := {| task_cron := cron; task_handler := handler; task_running := true |}).
  replace (alter stop_task (length before) (before ++ task :: omap scheduled_task calls))
    with ((before ++ [stop_task task]) ++ omap scheduled_task calls).
  - replace (S (length before)) with (length (before ++ [stop_task task]))
      by (rewrite length_app; simpl; lia).
    rewrite IH. by rewrite <- app_assoc.
  - rewrite <- app_assoc. simpl.
    rewrite alter_app_r_alt by reflexivity.
    by rewrite Nat.sub_diag.
Qed.

Lemma registerFunction_effect call events w :
  (registerFunction call events w).1
  = Returned (events ++ recorded_events [call] (length (cronTasks (host w))))
  ∧ emitter (host (registerFunction call events w).2)
    = emitter (host w) ++ option_list (bus_binding call)
  ∧ cronTasks (host (registerFunction call events w).2)
    = cronTasks (host w) ++ option_list (scheduled_task call)
  ∧ hooks_of (registerFunction call events w).2 = hooks_of w.
Proof.
  destruct call as [event handler|event handler|event handler|cron handler|k event handler];
    cbn [registerFunction recorded_events bus_binding scheduled_task option_list].
  1-3: by rewrite app_nil_r.
  - destruct (validate cron); simpl; by rewrite !app_nil_r.
  - simpl. by rewrite !app_nil_r.
Qed.

Lemma registerFunctions_effect calls events w :
  (for_fold calls events registerFunction w).1
  = Returned (events ++ recorded_events calls (length (cronTasks (host w))))
  ∧ emitter (host (for_fold calls events registerFunction w).2)
    = emitter (host w) ++ omap bus_binding calls
  ∧ cronTasks (host (for_fold calls events registerFunction w).2)
    = cronTasks (host w) ++ omap scheduled_task calls
  ∧ hooks_of (for_fold calls events registerFunction w).2 = hooks_of w.
Proof.
  revert events w. induction calls as [|call calls IH]; intros events w.
  - simpl. by rewrite !app_nil_r.
  - cbn [for_fold]. rewrite bind_run.
    destruct (registerFunction_effect call events w) as (Hr & Hbus & Htasks & Hhooks).
    destruct (registerFunction call events w) as [r w1]. cbn [fst snd] in *. subst r.
    destruct (IH (events ++ recorded_events [call] (length (cronTasks (host w)))) w1)
      as (Hr' & Hbus' & Htasks' & Hhooks').
    rewrite Hr', Hbus', Htasks', Hhooks', Hbus, Htasks, Hhooks.
    change (recorded_events (call :: calls)) with (recorded_events ([call] ++ calls)).
    rewrite recorded_events_app, !omap_cons_option_list, !length_app, !app_assoc.
    cbn [omap list_omap length]. by rewrite ?Nat.add_0_r, ?app_nil_r.
Qed.

Lemma bound_by_nothing w w' : hook_state w' = hook_state w → bound_by [] w w'.
Proof.
  intros Hsame. unfold bound_by. rewrite Hsame. unfold hook_state. simpl.
  by rewrite !app_nil_r.
Qed.

Lemma bound_by_app calls1 calls2 w w1 w2 :
  bound_by calls1 w w1 → bound_by calls2 w1 w2 → bound_by (calls1 ++ calls2) w w2.
Proof.
  unfold bound_by, hook_state. intros [= Hbus Htasks Hevents] [= -> -> ->].
  rewrite Hbus, Htasks, Hevents, recorded_events_app, !omap_app, !length_app, !app_assoc.
  reflexivity.
Qed.

Lemma registerHook_effect register p w :
  throws register = None → bound_by (calls register) w (registerHook register p w).2.
Proof.
  intros Hreturns. unfold registerHook. rewrite bind_run.
  destruct (registerFunctions_effect (calls register) [] w)
    as (Hr & Hbus & Htasks & Hhooks).
  destruct (for_fold (calls register) [] registerFunction w) as [r w1].
  cbn [fst snd] in *. subst r. rewrite Hreturns.
  unfold bound_by, hook_state, recorded_events_of, hooks_of in *. simpl.
  rewrite Hbus, Htasks, Hhooks, fmap_app, concat_app. simpl.
  by rewrite app_nil_r.
Qed.

Lemma hook_calls_cons o extension exts :
  hook_calls o (extension :: exts) = hook_calls o [extension] ++ hook_calls o exts.
Proof.
  unfold hook_calls. rewrite (omap_cons_option_list _ extension exts), concat_app.
  by rewrite (omap_cons_option_list _ extension []), app_nil_r.
Qed.

Lemma hook_calls_single o extension :
  hook_calls o [extension]
  = match hook_config o extension with Some (_, config) => calls config | None => [] end.
Proof.
  unfold hook_calls. cbn [omap list_omap].
  destruct (hook_config o extension) as [[p config]|]; [|reflexivity].
  simpl. by rewrite app_nil_r.
Qed.

Lemma hook_calls_other o extension :
  type extension ≠ ApiT hook → hook_calls o [extension] = [].
Proof. by destruct extension as [| b [] entrypoint | |]. Qed.

Lemma registerHookFrom_effect o extension w :
  type extension = ApiT hook →
  hooks_return o [extension] →
  bound_by (hook_calls o [extension]) w (registerHookFrom o extension w).2.
Proof.
  intros Htype Hreturn.
  assert (∀ p c, hook_config o extension = Some (p, c) → throws c = None) as Hthrows.
  { intros p c. apply Hreturn. apply list_elem_of_singleton. reflexivity. }
  clear Hreturn. revert Hthrows.
  destruct extension as [| b [] entrypoint | |]; try discriminate. clear Htype.
  rewrite hook_calls_single. unfold hook_config, registerHookFrom, bound_by.
  rewrite state_after_try_catch by (intros ?; repeat keeps_step).
  cbv zeta. unfold require.
  destruct (require_resolve o _) as [file|]; [|intros _; by apply bound_by_nothing].
  rewrite !bind_run.
  destruct (hook_module o file) as [instance|e]; [|intros _; by apply bound_by_nothing].
  intros Hthrows. specialize (Hthrows _ _ eq_refl).
  cbn [await mret fst snd].
  refine (bound_by_app [] _ _ _ _ _ (registerHook_effect _ _ _ Hthrows)).
  by apply bound_by_nothing.
Qed.

Lemma registerHooks_effect o exts w :
  hooks_return o exts →
  bound_by (hook_calls o exts) w
    (for_each (filter (λ extension, type extension = ApiT hook) exts)
       (registerHookFrom o) w).2.
Proof.
  revert w. induction exts as [|extension exts IH]; intros w Hreturn.
  - by apply bound_by_nothing.
  - rewrite hook_calls_cons.
    assert (hooks_return o exts) as Hrest.
    { intros x p c Hx. apply Hreturn. by apply list_elem_of_further. }
    destruct (decide (type extension = ApiT hook)) as [Htype|Htype].
    + rewrite filter_cons_True by exact Htype. cbn [for_each].
      rewrite (seq_run (registerHookFrom o extension))
        by apply registerHookFrom_returns.
      eapply bound_by_app; [|by apply IH].
      apply registerHookFrom_effect; [exact Htype|].
      intros x p c Hx. apply Hreturn. apply list_elem_of_singleton in Hx as ->.
      apply list_elem_of_here.
    + rewrite filter_cons_False by exact Htype.
      rewrite (hook_calls_other _ _ Htype). by apply IH.
Qed.

Lemma unregisterEvents_effect events w :
  (for_each events unregisterEvent w).1 = Returned tt
  ∧ emitter (host (for_each events unregisterEvent w).2)
    = foldl event_off (emitter (host w)) events
  ∧ cronTasks (host (for_each events unregisterEvent w).2)
    = foldl event_stop (cronTasks (host w)) events.
Proof.
  revert w. induction events as [|event events IH]; intros w; [done|].
  cbn [for_each foldl]. rewrite bind_run.
  destruct event as [name' handler|name' handler|name' handler|task];
    cbn [unregisterEvent on_emitter task_stop modify];
    match goal with |- context [for_each events unregisterEvent ?w1] =>
      destruct (IH w1) as (Hr & Hbus & Htasks)
    end;
    rewrite Hr, Hbus, Htasks; done.
Qed.

Lemma unregister_records_effect o records w :
  is_returned (for_each records (λ record,
      for_each (hook_events record) unregisterEvent;;
      delete_require_cache o (hook_path record)) w).1 →
  let w' := (for_each records (λ record,
      for_each (hook_events record) unregisterEvent;;
      delete_require_cache o (hook_path record)) w).2 in
  emitter (host w') = foldl event_off (emitter (host w)) (concat (hook_events <$> records))
  ∧ cronTasks (host w')
    = foldl event_stop (cronTasks (host w)) (concat (hook_events <$> records)).
Proof.
  revert w. induction records as [|record records IH]; intros w; [done|].
  cbn [for_each]. rewrite bind_unit_returned. intros [Hrecord Hrest].
  rewrite seq_run by exact Hrecord.
  destruct (IH _ Hrest) as [Hbus Htasks]. cbv zeta. rewrite Hbus, Htasks.
  rewrite fmap_cons. cbn [concat]. rewrite !foldl_app.
  destruct (unregisterEvents_effect (hook_events record) w) as (Hr & Hbus' & Htasks').
  rewrite <- Hbus', <- Htasks'. rewrite seq_run by (by rewrite Hr).
  unfold delete_require_cache.
  by destruct (require_resolve o (hook_path record)).
Qed.

Lemma unregisterHooks_effect o w :
  is_returned (unregisterHooks o w).1 →
  emitter (host (unregisterHooks o w).2)
  = foldl event_off (emitter (host w)) (recorded_events_of w)
  ∧ cronTasks (host (unregisterHooks o w).2)
    = foldl event_stop (cronTasks (host w)) (recorded_events_of w).
Proof.
  unfold unregisterHooks. rewrite bind_run. unfold gets. cbv beta iota.
  rewrite bind_unit_returned. intros [Hloop _].
  rewrite seq_run by exact Hloop.
  apply (unregister_records_effect o _ w Hloop).
Qed.

Lemma recorded_hook_resolvable o exts :
  Forall (resolvable o) (omap (recorded_hook o) exts).
Proof.
  apply Forall_forall. intros p Hp.
  apply list_elem_of_omap in Hp as (extension & _ & Hp).
  unfold recorded_hook, hook_config, resolvable in *.
  destruct extension as [| b [] entrypoint | |]; try discriminate.
  destruct (require_resolve o _) as [file|] eqn:Hfile; [|discriminate].
  destruct (hook_module o file); [|discriminate].
  destruct (throws _); [discriminate|]. injection Hp as <-. by rewrite Hfile.
Qed.

(** X7: a cycle in which no hook's [register] throws, started with an empty
    hook registry.  [registerHooks] adds to the host bus one binding per
    filter, action and init call of the hooks that could be required, and
    starts one task per schedule call with a valid expression, in call
    order; [unregisterHooks] then returns, leaves the host bus a permutation
    of what it was before the cycle, stops exactly the tasks the cycle
    started, and no later firing of such a task invokes anything. *)
Theorem hooks_round_trip (o : Oracle) (w : World) :
  hooks_of w = [] →
  hooks_return o (extensions (manager w)) →
  let calls := hook_calls o (extensions (manager w)) in
  let registered := (registerHooks o w).2 in
  let unregistered := (unregisterHooks o registered).2 in
  emitter (host registered) = emitter (host w) ++ omap bus_binding calls
  ∧ cronTasks (host registered) = cronTasks (host w) ++ omap scheduled_task calls
  ∧ (unregisterHooks o registered).1 = Returned tt
  ∧ emitter (host unregistered) ≡ₚ emitter (host w)
  ∧ cronTasks (host unregistered)
    = cronTasks (host w) ++ (stop_task <$> omap scheduled_task calls)
  ∧ ∀ task outcome, (length (cronTasks (host w)) ≤ task)%nat →
      tick task outcome unregistered = (Returned tt, unregistered).
Proof.
  intros Hempty Hreturn calls registered unregistered.
  assert (bound_by calls w registered) as Hbound.
  { unfold registered, registerHooks. rewrite bind_run. unfold gets. cbv beta iota.
    by apply registerHooks_effect. }
  assert (hook_paths registered = omap (recorded_hook o) (extensions (manager w)))
    as Hpaths.
  { unfold registered, registerHooks. rewrite bind_run. unfold gets. cbv beta iota.
    rewrite (filtered_loop_appends hook_paths (recorded_hook o)).
    - unfold hook_paths. fold (hooks_of w). by rewrite Hempty.
    - apply registerHookFrom_returns.
    - intros x w' Hx. by apply registerHookFrom_paths.
    - apply recorded_hook_other. }
  assert (is_returned (unregisterHooks o registered).1) as Hreturned.
  { apply unregisterHooks_returned. rewrite Hpaths. apply recorded_hook_resolvable. }
  destruct (unregisterHooks_effect o registered Hreturned) as [Hbus Htasks].
  fold unregistered in Hbus, Htasks.
  unfold bound_by, hook_state, recorded_events_of in Hbound.
  rewrite Hempty in Hbound. injection Hbound as Hbus1 Htasks1 Hevents1.
  fold (recorded_events_of registered) in Hevents1. simpl in Hevents1.
  rewrite Hevents1, Hbus1 in Hbus. rewrite Hevents1, Htasks1 in Htasks.
  rewrite events_stop_tasks in Htasks.
  split; [exact Hbus1|]. split; [exact Htasks1|].
  split; [by destruct (unregisterHooks o registered).1 as [[]|]|].
  split; [rewrite Hbus; by apply events_off_restore|].
  split; [exact Htasks|].
  intros task outcome Hlater. unfold tick. rewrite bind_run. unfold gets.
  cbv beta iota. rewrite Htasks.
  rewrite lookup_app_r by exact Hlater. rewrite list_lookup_fmap.
  by destruct (omap scheduled_task calls !! _).
Qed.

End HookEffects.

Lemma hooks_round_trip_witness :
  hooks_of discovered_world = []
  ∧ @hooks_return production audit_oracle (extensions (manager discovered_world))
  ∧ emitter (host (@registerHooks production audit_oracle discovered_world).2)
    = [(filter_kind, "items.create", 1); (action_kind, "items.create", 2)]
  ∧ emitter (host (unregisterHooks audit_oracle
                     (@registerHooks production audit_oracle discovered_world).2).2)
    ≡ₚ [].
Proof.
  assert (hooks_of discovered_world = []) as Hempty by reflexivity.
  assert (@hooks_return production audit_oracle (extensions (manager discovered_world)))
    as Hreturn.
  { intros extension p c Hin Hconfig.
    apply list_elem_of_singleton in Hin. subst extension.
    vm_compute in Hconfig. injection Hconfig as _ <-. reflexivity. }
  destruct (@hooks_round_trip production audit_oracle discovered_world Hempty Hreturn)
    as (Hbus & _ & _ & Hrestored & _).
  split; [exact Hempty|]. split; [exact Hreturn|].
  split; [rewrite Hbus; vm_compute; reflexivity|]. exact Hrestored.
Defined.

(** * The mapping of shared dependencies *)

Lemma logged_nothing w : logged [] w = w.
Proof.
  destruct w as [m h]. destruct h. unfold logged, on_host, set_log. simpl.
  by rewrite app_nil_r.
Qed.

Lemma logged_more entries1 entries2 w :
  logged entries2 (logged entries1 w) = logged (entries1 ++ entries2) w.
Proof. unfold logged, on_host, set_log. simpl. by rewrite app_assoc. Qed.

Section SharedDeps.
Context `{Platform}.

Lemma shared_deps_loop_run appDir deps acc w :
  for_fold deps acc (λ dep depsMapping,
    match find_dep_chunk dep appDir with
    | Some depName => mret (depsMapping ++ [(dep, asset_url (PUBLIC_URL env) depName)])
    | None => logger (WarnMissingSharedDep dep);; mret depsMapping
    end) w
  = (Returned (acc ++ expected_mapping appDir deps),
     logged (WarnMissingSharedDep <$> missing_deps appDir deps) w).
Proof.
  revert acc w. induction deps as [|dep deps IH]; intros acc w.
  - simpl. by rewrite app_nil_r, logged_nothing.
  - cbn [for_fold]. unfold expected_mapping, missing_deps.
    rewrite bind_run, !omap_cons_option_list.
    destruct (find_dep_chunk dep appDir) as [depName|]; simpl.
    + rewrite IH. by rewrite <- app_assoc.
    + rewrite IH.
      change (on_host _ w) with (logged [WarnMissingSharedDep dep] w).
      by rewrite logged_more.
Qed.

Lemma mapping_keys appDir deps :
  (expected_mapping appDir deps).*1 ++ missing_deps appDir deps ≡ₚ deps.
Proof.
  induction deps as [|dep deps IH]; [reflexivity|].
  unfold expected_mapping, missing_deps in *. rewrite !omap_cons_option_list.
  destruct (find_dep_chunk dep appDir) as [depName|]; simpl.
  - by rewrite IH.
  - rewrite <- Permutation_middle. by rewrite IH.
Qed.

(** X8: [getSharedDepsMapping] throws, without logging, exactly when the
    asset directory cannot be listed.  Otherwise it returns, for the
    dependencies whose chunk is found, their URL under the public assets, in
    the order of [deps], and logs one warning for each of the others and
    nothing else; every dependency is either mapped or warned about, and the
    keys of the mapping are distinct when the dependencies are. *)
Theorem getSharedDepsMapping_outcome (o : Oracle) (deps : list string) (w : World) :
  NoDup deps →
  match readdir_assets o with
  | Returned appDir =>
      let mapping := expected_mapping appDir deps in
      getSharedDepsMapping o deps w
      = (Returned mapping, logged (WarnMissingSharedDep <$> missing_deps appDir deps) w)
      ∧ mapping.*1 ++ missing_deps appDir deps ≡ₚ deps
      ∧ NoDup mapping.*1
  | Thrown e => getSharedDepsMapping o deps w = (Thrown e, w)
  end.
Proof.
  intros Hdistinct. unfold getSharedDepsMapping. rewrite bind_run.
  destruct (readdir_assets o) as [appDir|e]; [|reflexivity].
  cbn [await mret]. split; [apply shared_deps_loop_run|].
  pose proof (mapping_keys appDir deps) as Hkeys.
  split; [exact Hkeys|].
  rewrite <- Hkeys in Hdistinct. by apply NoDup_app in Hdistinct as [? _].
Qed.

End SharedDeps.

Lemma getSharedDepsMapping_outcome_witness :
  NoDup APP_SHARED_DEPS
  ∧ (@getSharedDepsMapping production published_oracle APP_SHARED_DEPS
       (@new_world production)).1
    = Returned [("vue", "/admin/assets/vue.3f8a1c2e.entry.js");
                ("pinia", "/admin/assets/pinia.0b7d9e41.entry.js")]
  ∧ @missing_deps production
      ["index.html"; "vue.3f8a1c2e.entry.js"; "vue-router.entry.js";
       "pinia.0b7d9e41.entry.js"]
      APP_SHARED_DEPS
    = ["@directus/extensions-sdk"; "vue-router"; "vue-i18n"].
Proof.
  assert (NoDup APP_SHARED_DEPS) as Hdistinct.
  { refine (bool_decide_unpack _ _). vm_compute. exact I. }
  split; [exact Hdistinct|].
  pose proof (@getSharedDepsMapping_outcome production published_oracle APP_SHARED_DEPS
                (@new_world production) Hdistinct) as Hrun.
  cbn [readdir_assets published_oracle] in Hrun. destruct Hrun as (Hrun & _ & _).
  rewrite Hrun. split; vm_compute; reflexivity.
Defined.

(** * A load that is rejected *)

Section RejectedLoad.
Context `{Platform}.

Lemma registerHooks_keeps_flag o : keeps loaded_flag (registerHooks o).
Proof.
  unfold registerHooks, registerHookFrom, require, registerHook, registerFunction,
    cron_schedule, throw_if.
  repeat keeps_step.
Qed.

Lemma registerEndpoints_keeps_flag o : keeps loaded_flag (registerEndpoints o).
Proof.
  unfold registerEndpoints, registerEndpointFrom, require, registerEndpoint,
    endpointCall, throw_if.
  repeat keeps_step.
Qed.

Lemma registerStorages_keeps_flag o : keeps loaded_flag (registerStorages o).
Proof. unfold registerStorages, registerStorageFrom, require. repeat keeps_step. Qed.

Lemma registerOperations_keeps_flag o : keeps loaded_flag (registerOperations o).
Proof.
  unfold registerOperations, registerOperationFrom, require, registerOperation.
  repeat keeps_step.
Qed.

Lemma bundling_keeps_flag o :
  keeps loaded_flag
    (if SERVE_APP env then
       bundles ← generateExtensionBundles o;
       modify (on_manager (set_appExtensions bundles))
     else mret tt).
Proof.
  unfold generateExtensionBundles, getSharedDepsMapping, bundleType.
  repeat keeps_step.
Qed.

Lemma load_registrations_thrown_flag o w :
  ¬ is_returned (load_registrations o w).1 →
  loaded_flag (load_registrations o w).2 = loaded_flag w.
Proof.
  unfold load_registrations.
  apply thrown_keeps_bind; [apply registerHooks_keeps_flag|].
  apply thrown_keeps_bind; [apply registerEndpoints_keeps_flag|].
  apply thrown_keeps_bind; [apply registerStorages_keeps_flag|].
  apply thrown_keeps_bind; [apply registerOperations_keeps_flag|].
  apply thrown_keeps_bind; [apply bundling_keeps_flag|].
  intros Hthrown. exfalso. apply Hthrown. exact I.
Qed.

(** The registrations made before the operations are reached. *)
Lemma load_registrations_early o w :
  let w' := (load_registrations o w).2 in
  hook_paths w' = hook_paths w ++ omap (recorded_hook o) (extensions (manager w))
  ∧ endpoint_paths w'
    = endpoint_paths w ++ omap (recorded_endpoint o) (extensions (manager w))
  ∧ storage_records w'
    = storage_records w ++ omap (recorded_storage o) (extensions (manager w)).
Proof.
  assert (∀ w, extensions (manager (registerHooks o w).2) = extensions (manager w))
    as Hexts1.
  { intros w0. pose proof (registerHooks_keeps_settings o w0) as Hs.
    unfold settings in Hs. congruence. }
  assert (∀ w, extensions (manager (registerEndpoints o w).2) = extensions (manager w))
    as Hexts2.
  { intros w0. pose proof (registerEndpoints_keeps_settings o w0) as Hs.
    unfold settings in Hs. congruence. }
  assert (∀ w, hook_paths (registerHooks o w).2
               = hook_paths w ++ omap (recorded_hook o) (extensions (manager w)))
    as Hhooks.
  { intros w0. unfold registerHooks. rewrite bind_run. unfold gets. cbv beta iota.
    apply filtered_loop_appends.
    - apply registerHookFrom_returns.
    - intros x w' Hx. by apply registerHookFrom_paths.
    - apply recorded_hook_other. }
  assert (∀ w, endpoint_paths (registerEndpoints o w).2
               = endpoint_paths w ++ omap (recorded_endpoint o) (extensions (manager w)))
    as Hendpoints.
  { intros w0. unfold registerEndpoints. rewrite bind_run. unfold gets. cbv beta iota.
    apply filtered_loop_appends.
    - apply registerEndpointFrom_returns.
    - intros x w' Hx. by apply registerEndpointFrom_paths.
    - apply recorded_endpoint_other. }
  assert (∀ w, storage_records (registerStorages o w).2
               = storage_records w ++ omap (recorded_storage o) (extensions (manager w)))
    as Hstorages.
  { intros w0. unfold registerStorages. rewrite bind_run. unfold gets. cbv beta iota.
    apply filtered_loop_appends.
    - apply registerStorageFrom_returns.
    - intros x w' Hx. by apply registerStorageFrom_records.
    - apply recorded_storage_other. }
  assert (keeps endpoint_paths (registerHooks o)) as Hkeep1.
  { unfold registerHooks, registerHookFrom, require, registerHook, registerFunction,
      cron_schedule, throw_if.
    repeat keeps_step. }
  assert (keeps storage_records (registerHooks o)) as Hkeep2.
  { unfold registerHooks, registerHookFrom, require, registerHook, registerFunction,
      cron_schedule, throw_if.
    repeat keeps_step. }
  assert (keeps storage_records (registerEndpoints o)) as Hkeep3.
  { unfold registerEndpoints, registerEndpointFrom, require, registerEndpoint,
      endpointCall, throw_if.
    repeat keeps_step. }
  cbv zeta. unfold load_registrations.
  split; [|split].
  - rewrite state_after; [apply Hhooks|]. intros _.
    unfold registerEndpoints, registerEndpointFrom, require, registerEndpoint,
      endpointCall, throw_if, registerStorages, registerStorageFrom,
      registerOperations, registerOperationFrom, registerOperation,
      generateExtensionBundles, getSharedDepsMapping, bundleType.
    repeat keeps_step.
  - rewrite (seq_run (registerHooks o)) by apply registerHooks_returns.
    rewrite state_after; [by rewrite Hendpoints, Hkeep1, Hexts1|]. intros _.
    unfold registerStorages, registerStorageFrom, require,
      registerOperations, registerOperationFrom, registerOperation,
      generateExtensionBundles, getSharedDepsMapping, bundleType.
    repeat keeps_step.
  - rewrite (seq_run (registerHooks o)) by apply registerHooks_returns.
    rewrite (seq_run (registerEndpoints o)) by apply registerEndpoints_returns.
    rewrite state_after; [by rewrite Hstorages, Hkeep3, Hkeep2, Hexts2, Hexts1|].
    intros _.
    unfold registerOperations, registerOperationFrom, require, registerOperation,
      generateExtensionBundles, getSharedDepsMapping, bundleType.
    repeat keeps_step.
Qed.

(** After the [try] block of [load], the registrations run on a world that
    differs from the first in its descriptor list and log only. *)
Lemma load_as_registrations o w :
  ∃ w0, load o w = load_registrations o w0
        ∧ loaded_flag w0 = loaded_flag w
        ∧ apiExtensions (manager w0) = apiExtensions (manager w)
        ∧ router_of w0 = router_of w
        ∧ flow_of w0 = flow_of w
        ∧ appExtensions (manager w0) = appExtensions (manager w).
Proof.
  destruct (discovery o w).1 as [exts|err] eqn:Hdiscovery.
  - exists (on_manager (set_extensions exts) w).
    split; [by apply load_discovery_returned|]. by repeat split.
  - exists ((logger WarnCouldntLoad;; logger (WarnError err)) w).2.
    split; [|by repeat split].
    rewrite (load_discovery_thrown o w err Hdiscovery).
    by rewrite (seq_run (logger WarnCouldntLoad;; logger (WarnError err))).
Qed.

(** X9: a [load] that is rejected.  It is rejected only because the glob of
    built-in operations is, or, when the app is served, because the asset
    directory cannot be listed.  By then the hooks, endpoints and storages of
    the descriptor list have been registered, but the manager is not marked
    loaded: if it was not before, a later reload job unloads nothing and
    only logs that the extensions have to be loaded first. *)
Theorem load_rejected (o : Oracle) (w : World) :
  ¬ is_returned (load o w).1 →
  let w' := (load o w).2 in
  (¬ is_returned (globby_operations o)
   ∨ SERVE_APP env = true ∧ ¬ is_returned (readdir_assets o))
  ∧ isLoaded (manager w') = isLoaded (manager w)
  ∧ hook_paths w' = hook_paths w ++ omap (recorded_hook o) (extensions (manager w'))
  ∧ endpoint_paths w'
    = endpoint_paths w ++ omap (recorded_endpoint o) (extensions (manager w'))
  ∧ storage_records w'
    = storage_records w ++ omap (recorded_storage o) (extensions (manager w'))
  ∧ (isLoaded (manager w) = false →
     ∀ o', reload o' w' = (Returned tt, logged [WarnNotLoaded] w')).
Proof.
  destruct (load_as_registrations o w) as (w0 & -> & Hflag & Hregistry & _ & _).
  intros Hthrown. cbv zeta.
  pose proof (load_registrations_thrown_flag o w0 Hthrown) as Hflag'.
  rewrite Hflag in Hflag'. unfold loaded_flag in Hflag'.
  destruct (load_registrations_early o w0) as (Hhooks & Hendpoints & Hstorages).
  assert (extensions (manager (load_registrations o w0).2) = extensions (manager w0))
    as Hexts.
  { pose proof (load_registrations_keeps_settings o w0) as Hs.
    unfold settings in Hs. congruence. }
  unfold hook_paths, endpoint_paths, storage_records in *.
  rewrite Hregistry in Hhooks, Hendpoints, Hstorages. rewrite Hexts.
  split; [|split; [exact Hflag'|]].
  - pose proof (load_registrations_returned o w0) as Hreturned.
    rewrite <- is_returned_unit in Hreturned.
    destruct (globby_operations o) as [paths|e]; [|left; intros []].
    right. destruct (SERVE_APP env); [|exfalso; apply Hthrown, Hreturned; by split].
    split; [reflexivity|]. intros Hlisted. apply Hthrown, Hreturned. by split.
  - split; [exact Hhooks|]. split; [exact Hendpoints|]. split; [exact Hstorages|].
    intros Hunloaded o'. unfold reload. rewrite bind_run. unfold gets.
    cbv beta iota. rewrite Hflag', Hunloaded. reflexivity.
Qed.

End RejectedLoad.

Lemma load_rejected_witness :
  let w' := (@load production rejected_oracle (@new_world production)).2 in
  ¬ is_returned (@load production rejected_oracle (@new_world production)).1
  ∧ isLoaded (manager w') = false
  ∧ hook_paths w' = ["/srv/node_modules/directus-extension-audit/dist/index.js"]
  ∧ (@reload production audit_oracle w').1 = Returned tt.
Proof.
  assert (¬ is_returned (@load production rejected_oracle (@new_world production)).1)
    as Hthrown.
  { assert ((@load production rejected_oracle (@new_world production)).1
            = Thrown "EMFILE") as -> by (vm_compute; reflexivity).
    intros []. }
  destruct (@load_rejected production rejected_oracle (@new_world production) Hthrown)
    as (_ & Hflag & Hhooks & _ & _ & Hreload).
  cbv zeta. split; [exact Hthrown|]. split; [exact Hflag|].
  split; [rewrite Hhooks; vm_compute; reflexivity|].
  by rewrite (Hreload eq_refl audit_oracle).
Defined.

(** * Initializing again *)

Lemma set_options_same v w :
  options (manager w) = v → on_manager (set_options v) w = w.
Proof. destruct w as [m h]. destruct m. simpl. by intros <-. Qed.

Section Initialize.
Context `{Platform}.

Lemma load_returned_loaded o w :
  (load o w).1 = Returned tt → isLoaded (manager (load o w).2) = true.
Proof.
  destruct (load_as_registrations o w) as (w0 & -> & _).
  apply load_registrations_loaded.
Qed.

Lemma initialize_on_initialized given o w :
  initialized given w → initialize given o w = (Returned tt, w).
Proof.
  intros (Hoptions & Hloaded & Hwatcher). unfold initialize.
  rewrite bind_run. unfold modify at 1. cbv beta iota.
  rewrite (set_options_same _ _ Hoptions).
  assert (initializeWatcher w = (Returned tt, w)) as Hsame.
  { unfold initializeWatcher. rewrite bind_run. unfold gets at 1. cbv beta iota.
    rewrite bind_run. unfold gets at 1. cbv beta iota. rewrite Hoptions.
    destruct (watch (merge_options given)); [|reflexivity].
    by rewrite bool_decide_eq_false_2 by (by apply Hwatcher). }
  rewrite bind_run, Hsame, bind_run. unfold gets at 1. cbv beta iota.
  by rewrite Hloaded.
Qed.

Lemma initialize_initialized given o w :
  (initialize given o w).1 = Returned tt → initialized given (initialize given o w).2.
Proof.
  intros Hreturned. split; [|split].
  - unfold initialize.
    assert (keeps (λ w, options (manager w)) (load o)) as Hload.
    { intros w0. pose proof (load_keeps_watching o w0) as Hk.
      unfold watching in Hk. congruence. }
    etrans; [apply (state_after (λ w, options (manager w)))|reflexivity].
    intros _. unfold initializeWatcher, updateWatchedExtensions, log_names.
    repeat keeps_step.
  - destruct (initialize given o w) as [r w'] eqn:Hrun.
    cbn [fst snd] in *. subst r. unfold initialize in Hrun.
    apply bind_returned in Hrun as ([] & w0 & _ & Hrun).
    apply bind_returned in Hrun as ([] & w1 & _ & Hrun).
    apply bind_returned in Hrun as (loaded & w1' & Hget & Hrun).
    injection Hget as <- <-.
    destruct (isLoaded (manager w1)) eqn:Hloaded; cbn [negb] in Hrun.
    + injection Hrun as <-. exact Hloaded.
    + apply bind_returned in Hrun as ([] & w2 & Hload & Hrun).
      pose proof (load_returned_loaded o w1) as Hflag.
      rewrite Hload in Hflag. specialize (Hflag eq_refl). cbn [snd] in Hflag.
      assert (keeps loaded_flag
                (exts ← gets (λ w, extensions (manager w));
                 updateWatchedExtensions exts [];;
                 loadedExtensions ← gets (λ w, getExtensionsList None (manager w));
                 log_names InfoLoaded loadedExtensions)) as Hrest.
      { unfold updateWatchedExtensions, log_names. repeat keeps_step. }
      specialize (Hrest w2). rewrite Hrun in Hrest.
      unfold loaded_flag in Hrest. cbn [snd] in Hrest. by rewrite Hrest.
  - intros Hwatch. pose proof (initialize_census given o w) as Hcensus.
    rewrite Hwatch in Hcensus. unfold census in Hcensus. cbn [andb fst snd] in Hcensus.
    intros Hnone. rewrite Hnone in Hcensus.
    destruct (bool_decide (watcher (manager w) = None)); discriminate Hcensus.
Qed.

(** X10: once a call of [initialize] has returned, a further call with the
    same options does nothing at all: the options are already the merged
    ones, no second watcher is created, and since the manager is loaded
    neither discovery nor registration runs, whatever is on the disk by
    then. *)
Theorem initialize_again (given : PartialOptions) (o o' : Oracle) (w : World) :
  (initialize given o w).1 = Returned tt →
  initialize given o' (initialize given o w).2
  = (Returned tt, (initialize given o w).2).
Proof.
  intros Hreturned. apply initialize_on_initialized.
  by apply initialize_initialized.
Qed.

End Initialize.

Lemma initialize_again_witness :
  (@initialize production no_options audit_oracle (@new_world production)).1
  = Returned tt
  ∧ (@initialize production no_options removed_oracle audit_world).1 = Returned tt.
Proof.
  assert ((@initialize production no_options audit_oracle (@new_world production)).1
          = Returned tt) as Hreturned by (vm_compute; reflexivity).
  split; [exact Hreturned|].
  exact (f_equal fst (@initialize_again production no_options audit_oracle
                        removed_oracle (@new_world production) Hreturned)).
Defined.

(** * The names accessor, by type *)

Lemma filter_disjoint_app {A} (P Q : A → Prop)
    `{∀ x, Decision (P x)} `{∀ x, Decision (Q x)} (l : list A) :
  (∀ x, P x → Q x → False) →
  filter P l ++ filter Q l ≡ₚ filter (λ x, P x ∨ Q x) l.
Proof.
  intros Hdisjoint. induction l as [|x l IH]; [reflexivity|].
  rewrite !filter_cons.
  destruct (decide (P x)) as [HP|HP], (decide (Q x)) as [HQ|HQ].
  - destruct (Hdisjoint x HP HQ).
  - rewrite decide_True by (by left). cbn [app]. by rewrite IH.
  - rewrite decide_True by (by right). rewrite <- Permutation_middle. by rewrite IH.
  - rewrite decide_False by (by intros [?|?]). exact IH.
Qed.

Lemma filter_by_types (ts : list ExtensionType) (l : list Extension) :
  NoDup ts →
  concat ((λ t, filter (λ extension, type extension = t) l) <$> ts)
  ≡ₚ filter (λ extension, type extension ∈ ts) l.
Proof.
  induction 1 as [|t ts Hfresh Hdistinct IH].
  - simpl. induction l as [|x l IHl]; [reflexivity|].
    rewrite filter_cons, decide_False by apply not_elem_of_nil. exact IHl.
  - rewrite fmap_cons. cbn [concat]. rewrite IH.
    rewrite filter_disjoint_app by (intros x <- Hin; by apply Hfresh).
    erewrite list_filter_iff; [reflexivity|].
    intros x. rewrite elem_of_cons. naive_solver.
Qed.

(** X11: the names [getExtensionsList(type)] returns over the extension
    types and the pack type are, together, the names [getExtensionsList()]
    returns: each descriptor is listed under exactly one type; and the names
    listed under one type keep the order they have in the full list. *)
Theorem getExtensionsList_by_type (m : Manager) :
  concat ((λ t, getExtensionsList (Some t) m) <$> EXTENSION_PACKAGE_TYPES)
  ≡ₚ getExtensionsList None m
  ∧ ∀ t, getExtensionsList (Some t) m `sublist_of` getExtensionsList None m.
Proof.
  split.
  - unfold getExtensionsList.
    assert (∀ ts, concat ((λ t, name <$> filter (λ extension, type extension = t)
                                  (extensions m)) <$> ts)
                  = name <$> concat ((λ t, filter (λ extension, type extension = t)
                                        (extensions m)) <$> ts)) as ->.
    { induction ts as [|t ts IH]; [reflexivity|].
      rewrite !fmap_cons. cbn [concat]. by rewrite fmap_app, IH. }
    apply fmap_Permutation. rewrite filter_by_types.
    + induction (extensions m) as [|x l IH]; [reflexivity|].
      rewrite filter_cons, decide_True, IH; [reflexivity|].
      destruct x as [b []|b []|b []|b]; vm_compute; set_solver.
    + refine (bool_decide_unpack _ _). vm_compute. exact I.
  - intros t. unfold getExtensionsList. apply fmap_sublist, sublist_filter.
Qed.

(** * Built-in operations, from their globbed path *)

Lemma string_app_assoc (a b c : string) : a +:+ (b +:+ c) = (a +:+ b) +:+ c.
Proof.
  induction a as [|ch a IH]; [reflexivity|].
  change (String ch (a +:+ (b +:+ c)) = String ch ((a +:+ b) +:+ c)).
  by rewrite IH.
Qed.

Lemma join_with_snoc sep init x :
  init ≠ [] → join_with sep (init ++ [x]) = join_with sep init +:+ String sep x.
Proof.
  induction init as [|y init IH]; [done|]. intros _.
  destruct init as [|z init]; [reflexivity|].
  change ((y :: z :: init) ++ [x]) with (y :: z :: (init ++ [x])).
  rewrite !join_with_cons.
  change (z :: (init ++ [x])) with ((z :: init) ++ [x]).
  rewrite IH by done. by rewrite <- string_app_assoc.
Qed.

Section InternalOperations.
Context `{Platform}.

(** X12: what [registerOperations] makes of a globbed path.  When the path
    holds a separator, the directory and the entrypoint it is cut into give
    the path back when joined by the separator, and the operation is named
    by the last directory; when it holds none, the directory is empty, the
    entrypoint is the whole path and the name is undefined. *)
Theorem internalOperation_splits (internalPath : string) :
  let dirs := split_on path_sep internalPath in
  let source := internalOperation internalPath in
  if decide (2 ≤ length dirs)%nat
  then source_path source +:+ String path_sep (source_api source) = internalPath
       ∧ dirs !! (length dirs - 2)%nat = Some (source_name source)
       ∧ last dirs = Some (source_api source)
  else source = {| source_name := "undefined"; source_path := "";
                   source_api := internalPath |}.
Proof.
  cbv zeta. unfold internalOperation. cbv zeta.
  pose proof (join_split_on path_sep internalPath) as Hjoin.
  destruct (split_on_cons path_sep internalPath) as (x & xs & Hdirs).
  rewrite Hdirs in *. clear Hdirs.
  destruct (decide (2 ≤ length (x :: xs))%nat) as [Hlong|Hshort]; cbn [source_name source_path source_api].
  - destruct (exists_last (l := x :: xs)) as (init & lst & Hsnoc); [done|].
    rewrite Hsnoc in *. rewrite last_snoc. cbn [default].
    rewrite length_app in *. cbn [length] in *.
    replace (length init + 1 - 1)%nat with (length init) by lia.
    rewrite take_app_length.
    assert (init ≠ []) as Hinit by (intros ->; simpl in Hlong; lia).
    rewrite join_with_snoc in Hjoin by exact Hinit.
    split; [exact Hjoin|]. split; [|reflexivity].
    destruct (init !! (length init + 1 - 2)%nat) as [d|] eqn:Hd.
    + rewrite lookup_app_l by (apply lookup_lt_Some in Hd; exact Hd).
      by rewrite Hd.
    + apply lookup_ge_None in Hd. lia.
  - destruct xs as [|y xs]; [|cbn [length] in Hshort; lia].
    change (x = internalPath) in Hjoin. subst x. reflexivity.
Qed.

End InternalOperations.

(** * The manager of the process *)

Section Singleton.
Context `{Platform}.

(** X13: [getExtensionManager] constructs a manager only when the module
    variable holds none, and leaves the variable holding the manager it
    returns: every later call returns that same manager and constructs
    nothing. *)
Theorem getExtensionManager_once (extensionManager : option Manager) :
  let first := getExtensionManager extensionManager in
  first.2 = Some first.1
  ∧ getExtensionManager first.2 = first
  ∧ first.1 = default new_manager extensionManager.
Proof. by destruct extensionManager. Qed.

End Singleton.

(** * The theme of the app *)

(** X14: [getTheme] returns the theme the user has chosen, whatever the
    browser prefers; when there is no user, or the user has no theme or
    leaves it to the system, it returns dark exactly when the browser
    offers [matchMedia] and reports a preference for dark, and light
    otherwise.  The result is light or dark as long as the theme of the
    user is one of auto, light and dark. *)
Theorem getTheme_chosen_or_system (currentUser : option User) (window : Window) :
  getTheme currentUser window
  = match chosen_theme currentUser with
    | Some theme => theme
    | None => if prefers_dark window then "dark" else "light"
    end
  ∧ ((∀ theme, currentUser ≫= user_theme = Some theme →
               theme ∈ ["auto"; "light"; "dark"]) →
     getTheme currentUser window ∈ ["light"; "dark"]).
Proof.
  assert (getTheme currentUser window
          = match chosen_theme currentUser with
            | Some theme => theme
            | None => if prefers_dark window then "dark" else "light"
            end) as Hresult.
  { unfold getTheme, chosen_theme, prefers_dark.
    destruct currentUser as [[[theme|]]|]; cbn [mbind option_bind user_theme].
    - destruct (decide (theme = "auto")) as [->|Hchosen].
      + by rewrite bool_decide_eq_true_2 by (right; by right).
      + rewrite bool_decide_eq_false_2; [reflexivity|].
        intros [?|[?|?]]; [discriminate|discriminate|]. apply Hchosen. congruence.
    - by rewrite bool_decide_eq_true_2 by (right; by left).
    - by rewrite bool_decide_eq_true_2 by (by left). }
  split; [exact Hresult|]. intros Htyped. rewrite Hresult. unfold chosen_theme.
  destruct (currentUser ≫= user_theme) as [theme|].
  - destruct (decide (theme = "auto")) as [->|Hchosen].
    + destruct (prefers_dark window); rewrite !elem_of_cons; auto.
    + specialize (Htyped theme eq_refl). revert Htyped.
      rewrite !elem_of_cons, elem_of_nil.
      intros [->|[->|[->|[]]]]; [by destruct Hchosen|auto|auto].
  - destruct (prefers_dark window); rewrite !elem_of_cons; auto.
Qed.

Lemma getTheme_chosen_or_system_witness :
  let currentUser := Some {| user_theme := Some "dark" |} in
  let window := {| matchMedia := Some (λ query, false) |} in
  (∀ theme, currentUser ≫= user_theme = Some theme → theme ∈ ["auto"; "light"; "dark"])
  ∧ getTheme currentUser window ∈ ["light"; "dark"].
Proof.
  cbv zeta.
  assert (∀ theme, Some {| user_theme := Some "dark" |} ≫= user_theme = Some theme →
                   theme ∈ ["auto"; "light"; "dark"]) as Htyped.
  { intros theme [= <-]. rewrite !elem_of_cons. auto. }
  split; [exact Htyped|].
  exact (proj2 (getTheme_chosen_or_system (Some {| user_theme := Some "dark" |})
                  {| matchMedia := Some (λ query, false) |}) Htyped).
Defined.


(** * A reload replaces the registry *)

Section Cycle.
Context `{Platform}.

(** The registrations of [load] that come after the storages. *)
Lemma load_registrations_late o w paths :
  globby_operations o = Returned paths →
  let w' := (load_registrations o w).2 in
  router_of w' = router_of w ++ omap (mounted_by o) (extensions (manager w))
  ∧ operation_paths w'
    = operation_paths w
      ++ omap (recorded_operation o)
           ((internalOperation <$> paths)
            ++ omap operationSource (extensions (manager w))).
Proof.
  intros Hglob. cbv zeta. unfold load_registrations.
  rewrite (seq_run (registerHooks o)) by apply registerHooks_returns.
  set (w1 := (registerHooks o w).2).
  assert (settings w1 = settings w) as Hs1 by apply registerHooks_keeps_settings.
  assert (extensions (manager w1) = extensions (manager w)) as Hexts1
    by (unfold settings in Hs1; congruence).
  split.
  - rewrite state_after.
    + rewrite registerEndpoints_router, Hexts1.
      assert (keeps router_of (registerHooks o)) as Hkeep.
      { unfold registerHooks, registerHookFrom, require, registerHook,
          registerFunction, cron_schedule, throw_if.
        repeat keeps_step. }
      unfold w1. by rewrite Hkeep.
    + intros _.
      unfold registerStorages, registerStorageFrom, require,
        registerOperations, registerOperationFrom, registerOperation,
        generateExtensionBundles, getSharedDepsMapping, bundleType.
      repeat keeps_step.
  - rewrite (seq_run (registerEndpoints o)) by apply registerEndpoints_returns.
    set (w2 := (registerEndpoints o w1).2).
    rewrite (seq_run (registerStorages o)) by apply registerStorages_returns.
    set (w3 := (registerStorages o w2).2).
    assert (settings w2 = settings w1) as Hs2 by apply registerEndpoints_keeps_settings.
    assert (settings w3 = settings w2) as Hs3 by apply registerStorages_keeps_settings.
    assert (extensions (manager w3) = extensions (manager w)) as Hexts3
      by (unfold settings in Hs2, Hs3; congruence).
    assert (operation_paths w3 = operation_paths w) as Hpaths3.
    { assert (keeps operation_paths (registerHooks o)) as Hkeep1.
      { unfold registerHooks, registerHookFrom, require, registerHook,
          registerFunction, cron_schedule, throw_if.
        repeat keeps_step. }
      assert (keeps operation_paths (registerEndpoints o)) as Hkeep2.
      { unfold registerEndpoints, registerEndpointFrom, require, registerEndpoint,
          endpointCall, throw_if.
        repeat keeps_step. }
      assert (keeps operation_paths (registerStorages o)) as Hkeep3.
      { unfold registerStorages, registerStorageFrom, require. repeat keeps_step. }
      unfold w3, w2, w1. by rewrite Hkeep3, Hkeep2, Hkeep1. }
    rewrite state_after.
    + rewrite <- Hpaths3, <- Hexts3.
      unfold registerOperations. rewrite bind_run, Hglob. simpl.
      rewrite bind_run. unfold gets. cbv beta iota.
      apply loop_appends.
      * apply registerOperationFrom_returns.
      * intros x w'. apply registerOperationFrom_paths.
    + intros _. unfold generateExtensionBundles, getSharedDepsMapping, bundleType.
      repeat keeps_step.
Qed.

(** A reload job that returns is the unload and the load it is made of,
    both returning; what comes after them touches the watcher and the log
    only. *)
Lemma reload_returned_steps o w :
  isLoaded (manager w) = true →
  (reload o w).1 = Returned tt →
  let w0 := logged [InfoReloading] w in
  (unload o w0).1 = Returned tt
  ∧ (load o (unload o w0).2).1 = Returned tt
  ∧ registrations (reload o w).2 = registrations (load o (unload o w0).2).2.
Proof.
  intros Hloaded Hreturned. destruct (reload o w) as [r w'] eqn:Hrun.
  cbn [fst snd] in *. subst r. unfold reload in Hrun.
  rewrite bind_run in Hrun. unfold gets at 1 in Hrun. cbv beta iota in Hrun.
  rewrite Hloaded in Hrun.
  apply bind_returned in Hrun as ([] & w0 & Hlog & Hrun).
  assert (w0 = logged [InfoReloading] w) as -> by (by injection Hlog).
  apply bind_returned in Hrun as (prevExtensions & w0' & Hprev & Hrun).
  injection Hprev as <- <-.
  apply bind_returned in Hrun as ([] & w1 & Hunload & Hrun).
  apply bind_returned in Hrun as ([] & w2 & Hload & Hrun).
  cbv zeta. rewrite Hunload. cbn [fst snd]. rewrite Hload. cbn [fst snd].
  split; [reflexivity|]. split; [reflexivity|].
  match type of Hrun with
  | ?rest w2 = _ =>
      assert (keeps registrations rest) as Hrest
        by (unfold updateWatchedExtensions, log_names; repeat keeps_step)
  end.
  specialize (Hrest w2). rewrite Hrun in Hrest. exact Hrest.
Qed.

(** X15: a reload job that returns leaves a registry that holds the records
    of the descriptor list it leaves and nothing of the previous cycle: one
    hook, endpoint and storage record per extension that could be
    registered, the operations with the built-in ones first, one router
    layer per endpoint that could be required, one flow binding per
    operation; and the manager is marked loaded. *)
Theorem reload_replaces_registry (o : Oracle) (w : World) :
  isLoaded (manager w) = true →
  (reload o w).1 = Returned tt →
  let w' := (reload o w).2 in
  let exts := extensions (manager w') in
  ∃ paths,
    globby_operations o = Returned paths
    ∧ let sources := (internalOperation <$> paths) ++ omap operationSource exts in
      hook_paths w' = omap (recorded_hook o) exts
      ∧ endpoint_paths w' = omap (recorded_endpoint o) exts
      ∧ storage_records w' = omap (recorded_storage o) exts
      ∧ operation_paths w' = omap (recorded_operation o) sources
      ∧ router_of w' = omap (mounted_by o) exts
      ∧ flow_of w' = omap (operation_binding o) sources
      ∧ isLoaded (manager w') = true.
Proof.
  intros Hloaded Hreturned.
  destruct (reload_returned_steps o w Hloaded Hreturned) as (Hunload & Hload & Hsame).
  set (w0 := logged [InfoReloading] w) in *.
  destruct (unload_state o w0 Hunload)
    as (Hhooks0 & Hendpoints0 & Hstorages0 & Hoperations0 & Hrouter0 & _ & Hflow0 & _).
  set (w1 := (unload o w0).2) in *.
  destruct (load_as_registrations o w1)
    as (w2 & Hregistrations & _ & Hregistry & Hrouter & Hflow & _).
  rewrite Hregistrations in Hload, Hsame.
  pose proof (proj1 (load_registrations_returned o w2) Hload) as [Hglob _].
  destruct (globby_operations o) as [paths|e] eqn:Hpaths; [clear Hglob|destruct Hglob].
  exists paths. split; [reflexivity|].
  destruct (load_registrations_early o w2) as (Hhooks & Hendpoints & Hstorages).
  destruct (load_registrations_late o w2 paths Hpaths) as (Hmounted & Hoperations).
  pose proof (load_registrations_flow o w2 paths Hpaths) as Hbindings.
  pose proof (load_registrations_loaded o w2 Hload) as Hflag.
  assert (extensions (manager (load_registrations o w2).2) = extensions (manager w2))
    as Hexts.
  { pose proof (load_registrations_keeps_settings o w2) as Hs.
    unfold settings in Hs. congruence. }
  unfold registrations in Hsame. injection Hsame as Hsame1 Hsame2 Hsame3 Hsame4 Hsame5.
  unfold hooks_of, hook_paths, endpoint_paths, storage_records, operation_paths,
    router_of, flow_of in *.
  cbv zeta.
  rewrite Hsame1, Hsame2, Hsame3, Hsame4, Hsame5, Hexts.
  rewrite Hregistry in Hhooks, Hendpoints, Hstorages, Hoperations.
  rewrite Hrouter in Hmounted. rewrite Hflow in Hbindings.
  rewrite Hhooks0 in Hhooks. rewrite Hendpoints0 in Hendpoints.
  rewrite Hstorages0 in Hstorages. rewrite Hoperations0 in Hoperations.
  rewrite Hrouter0 in Hmounted. rewrite Hflow0 in Hbindings.
  split; [exact Hhooks|]. split; [exact Hendpoints|]. split; [exact Hstorages|].
  split; [exact Hoperations|]. split; [exact Hmounted|].
  split; [|exact Hflag]. rewrite Hbindings. by rewrite omap_app.
Qed.

End Cycle.

Lemma reload_replaces_registry_witness :
  isLoaded (manager audit_world) = true
  ∧ (@reload production audit_oracle audit_world).1 = Returned tt
  ∧ hook_paths (@reload production audit_oracle audit_world).2
    = ["/srv/node_modules/directus-extension-audit/dist/index.js"].
Proof.
  assert (isLoaded (manager audit_world) = true) as Hloaded
    by (vm_compute; reflexivity).
  assert ((@reload production audit_oracle audit_world).1 = Returned tt) as Hreturned
    by (vm_compute; reflexivity).
  destruct (@reload_replaces_registry production audit_oracle audit_world
              Hloaded Hreturned) as (paths & _ & Hhooks & _).
  split; [exact Hloaded|]. split; [exact Hreturned|].
  rewrite Hhooks. vm_compute. reflexivity.
Defined.

(** * The watch set after start-up *)

Section InitialWatchSet.
Context `{Platform}.

Lemma initializeWatcher_first w :
  watcher (manager w) = None →
  watcher (manager (initializeWatcher w).2)
  = (if watch (options (manager w))
     then Some (chokidar_watch (path_resolve ["package.json"] :: localExtensionPaths))
     else None)
  ∧ loaded_flag (initializeWatcher w).2 = loaded_flag w.
Proof.
  intros Hnone. split.
  - unfold initializeWatcher.
    rewrite bind_run. unfold gets at 1. cbv beta iota.
    rewrite bind_run. unfold gets at 1. cbv beta iota.
    rewrite Hnone, bool_decide_eq_true_2 by reflexivity.
    destruct (watch (options (manager w))); [reflexivity|exact Hnone].
  - assert (keeps loaded_flag initializeWatcher) as Hkeep
      by (unfold initializeWatcher; repeat keeps_step).
    apply Hkeep.
Qed.

(** X16: the first [initialize] of a process, on a manager that is not
    loaded and has no watcher, when it returns.  With watching off there is
    still no watcher.  With watching on, the watcher tracks the package
    manifest, the entrypoint patterns of the local extension folders, and
    the files of the package extensions that were discovered: what it was
    created with, then what [updateWatchedExtensions] added for the loaded
    list, nothing having been unwatched. *)
Theorem initialize_watch_set (given : PartialOptions) (o : Oracle) (w w' : World) :
  watcher (manager w) = None →
  isLoaded (manager w) = false →
  initialize given o w = (Returned tt, w') →
  watcher (manager w')
  = (if watch (merge_options given)
     then Some (watcher_add (toPackageExtensionPaths (extensions (manager w')))
                  (chokidar_watch (path_resolve ["package.json"] :: localExtensionPaths)))
     else None)
  ∧ ∀ tracked file,
      watcher (manager w') = Some tracked →
      file ∈ tracked ↔
      file = path_resolve ["package.json"]
      ∨ file ∈ localExtensionPaths
      ∨ file ∈ toPackageExtensionPaths (extensions (manager w')).
Proof.
  intros Hnone Hunloaded Hrun.
  assert (watcher (manager w')
          = (if watch (merge_options given)
             then Some (watcher_add (toPackageExtensionPaths (extensions (manager w')))
                          (chokidar_watch
                             (path_resolve ["package.json"] :: localExtensionPaths)))
             else None)) as Hwatcher.
  { unfold initialize in Hrun.
    apply bind_returned in Hrun as ([] & w0 & Hset & Hrun).
    assert (w0 = on_manager (set_options (merge_options given)) w) as ->
      by (by injection Hset).
    apply bind_returned in Hrun as ([] & w1 & Hcreated & Hrun).
    destruct (initializeWatcher_first
                (on_manager (set_options (merge_options given)) w) Hnone)
      as [Hfirst Hflag].
    rewrite Hcreated in Hfirst, Hflag. cbn [snd] in Hfirst, Hflag.
    change (options (manager (on_manager (set_options (merge_options given)) w)))
      with (merge_options given) in Hfirst.
    apply bind_returned in Hrun as (loaded & w1' & Hget & Hrun).
    injection Hget as <- <-. unfold loaded_flag in Hflag. cbn in Hflag.
    rewrite Hflag, Hunloaded in Hrun. cbn [negb] in Hrun.
    apply bind_returned in Hrun as ([] & w2 & Hload & Hrun).
    pose proof (load_keeps_watching o w1) as Hkept.
    rewrite Hload in Hkept. unfold watching in Hkept. cbn [snd] in Hkept.
    injection Hkept as Hkept _ _.
    apply bind_returned in Hrun as (exts & w2' & Hget & Hrun).
    injection Hget as <- <-.
    apply bind_returned in Hrun as ([] & w3 & Hupdate & Hrun).
    apply bind_returned in Hrun as (names & w3' & Hget & Hrun).
    injection Hget as <- <-.
    match type of Hrun with
    | log_names ?entry ?names w3 = _ =>
        pose proof (log_names_keeps_settings entry names w3) as Hlogged
    end.
    rewrite Hrun in Hlogged. unfold settings in Hlogged. cbn [snd] in Hlogged.
    injection Hlogged as Hexts Hsame _ _.
    pose proof (updateWatchedExtensions_run (extensions (manager w2)) [] w2) as Hupdated.
    rewrite Hupdate in Hupdated. cbn [snd] in Hupdated.
    rewrite Hsame, Hexts. rewrite Hkept, Hfirst in Hupdated.
    destruct (watch (merge_options given)); rewrite Hupdated;
      [|by rewrite Hkept].
    cbn [manager on_manager watcher set_watcher extensions].
    unfold watcher_unwatch.
    change (toPackageExtensionPaths []) with (@nil string). cbn [list_to_set].
    by rewrite difference_empty_L. }
  split; [exact Hwatcher|].
  intros tracked file Htracked. rewrite Hwatcher in Htracked.
  destruct (watch (merge_options given)); [|discriminate].
  injection Htracked as <-. unfold watcher_add, chokidar_watch.
  rewrite elem_of_union, !elem_of_list_to_set, elem_of_cons. tauto.
Qed.

End InitialWatchSet.

Lemma initialize_watch_set_witness :
  watcher (manager (@new_world production)) = None
  ∧ isLoaded (manager (@new_world production)) = false
  ∧ (@initialize production no_options audit_oracle (@new_world production)).1
    = Returned tt
  ∧ ∀ tracked,
      watcher (manager
        (@initialize production no_options audit_oracle (@new_world production)).2)
      = Some tracked →
      @path_resolve production ["package.json"] ∈ tracked.
Proof.
  assert ((@initialize production no_options audit_oracle (@new_world production)).1
          = Returned tt) as Hreturned by (vm_compute; reflexivity).
  assert (@initialize production no_options audit_oracle (@new_world production)
          = (Returned tt,
             (@initialize production no_options audit_oracle (@new_world production)).2))
    as Hrun by (rewrite <- Hreturned; apply surjective_pairing).
  split; [reflexivity|]. split; [reflexivity|]. split; [exact Hreturned|].
  intros tracked Htracked.
  apply (proj2 (@initialize_watch_set production no_options audit_oracle
                  (@new_world production) _ eq_refl eq_refl Hrun) tracked _ Htracked).
  left. reflexivity.
Defined.

(** * The bundles a load leaves *)

Lemma Returned_inj {A} (a b : A) : Returned a = Returned b → a = b.
Proof. by intros [= ->]. Qed.

Section LoadedBundles.
Context `{Platform}.

Lemma generateExtensionBundles_value o w appDir :
  readdir_assets o = Returned appDir →
  (generateExtensionBundles o w).1
  = Returned (foldl (bundle_step o (expected_mapping appDir APP_SHARED_DEPS)
                       (extensions (manager w))) ∅ APP_EXTENSION_TYPES).
Proof.
  intros Hdir. unfold generateExtensionBundles. rewrite bind_run.
  pose proof (getSharedDepsMapping_run o appDir APP_SHARED_DEPS w Hdir) as Hmap.
  assert (keeps settings (getSharedDepsMapping o APP_SHARED_DEPS)) as Hkeep
    by (unfold getSharedDepsMapping; repeat keeps_step).
  specialize (Hkeep w).
  destruct (getSharedDepsMapping o APP_SHARED_DEPS w) as [[mapping'|e] w1];
    cbn [fst snd] in Hmap, Hkeep; [|discriminate].
  injection Hmap as ->. rewrite bind_run. unfold gets. cbv beta iota.
  rewrite bundle_loop. unfold settings in Hkeep.
  by replace (extensions (manager w1)) with (extensions (manager w)) by congruence.
Qed.

(** X17: what [getAppExtensions] answers after a [load] that has returned.
    When the app is served, the asset directory was listed, and each app
    extension type whose entry module compiled has the code compiled from
    the descriptor list the load leaves, every other type nothing, whatever
    the bundle map held before; when the app is not served, the bundle map
    is the one the manager held before the load. *)
Theorem load_app_bundles (o : Oracle) (w : World) :
  (load o w).1 = Returned tt →
  let w' := (load o w).2 in
  if SERVE_APP env
  then ∃ appDir,
         readdir_assets o = Returned appDir
         ∧ ∀ t, getAppExtensions t (manager w')
                = if decide (t ∈ APP_EXTENSION_TYPES)
                  then compiled o (expected_mapping appDir APP_SHARED_DEPS)
                         (extensions (manager w')) t
                  else None
  else ∀ t, getAppExtensions t (manager w') = getAppExtensions t (manager w).
Proof.
  destruct (load_as_registrations o w) as (w0 & -> & _ & _ & _ & _ & Happ).
  intros Hreturned. cbv zeta.
  pose proof (proj1 (load_registrations_returned o w0) Hreturned) as [_ Hlisted].
  assert (extensions (manager (load_registrations o w0).2) = extensions (manager w0))
    as Hexts.
  { pose proof (load_registrations_keeps_settings o w0) as Hs.
    unfold settings in Hs. congruence. }
  rewrite Hexts. clear Hexts.
  destruct (load_registrations o w0) as [r w'] eqn:Hrun.
  cbn [fst snd] in *. subst r. unfold load_registrations in Hrun.
  apply bind_returned in Hrun as ([] & w1 & Hhooks & Hrun).
  apply bind_returned in Hrun as ([] & w2 & Hendpoints & Hrun).
  apply bind_returned in Hrun as ([] & w3 & Hstorages & Hrun).
  apply bind_returned in Hrun as ([] & w4 & Hoperations & Hrun).
  apply bind_returned in Hrun as ([] & w5 & Hbundles & Hflag).
  injection Hflag as <-.
  assert (keeps (λ w, (appExtensions (manager w), extensions (manager w)))
            (registerHooks o)) as Hkeep1.
  { unfold registerHooks, registerHookFrom, require, registerHook, registerFunction,
      cron_schedule, throw_if.
    repeat keeps_step. }
  assert (keeps (λ w, (appExtensions (manager w), extensions (manager w)))
            (registerEndpoints o)) as Hkeep2.
  { unfold registerEndpoints, registerEndpointFrom, require, registerEndpoint,
      endpointCall, throw_if.
    repeat keeps_step. }
  assert (keeps (λ w, (appExtensions (manager w), extensions (manager w)))
            (registerStorages o)) as Hkeep3.
  { unfold registerStorages, registerStorageFrom, require. repeat keeps_step. }
  assert (keeps (λ w, (appExtensions (manager w), extensions (manager w)))
            (registerOperations o)) as Hkeep4.
  { unfold registerOperations, registerOperationFrom, require, registerOperation.
    repeat keeps_step. }
  specialize (Hkeep1 w0). specialize (Hkeep2 w1).
  specialize (Hkeep3 w2). specialize (Hkeep4 w3).
  rewrite Hhooks in Hkeep1. rewrite Hendpoints in Hkeep2.
  rewrite Hstorages in Hkeep3. rewrite Hoperations in Hkeep4.
  cbn [snd] in Hkeep1, Hkeep2, Hkeep3, Hkeep4.
  assert (appExtensions (manager w4) = appExtensions (manager w)
          ∧ extensions (manager w4) = extensions (manager w0)) as [Happ4 Hexts4].
  { split; congruence. }
  destruct (SERVE_APP env).
  - specialize (Hlisted eq_refl).
    destruct (readdir_assets o) as [appDir|e] eqn:Hdir; [|destruct Hlisted].
    exists appDir. split; [reflexivity|]. intros t.
    apply bind_returned in Hbundles as (bundles & w4' & Hgenerated & Hset).
    injection Hset as <-.
    pose proof (generateExtensionBundles_value o w4 appDir Hdir) as Hvalue.
    rewrite Hgenerated in Hvalue.
    change (getAppExtensions t _) with (bundles !! t).
    cbn [fst] in Hvalue. apply Returned_inj in Hvalue. subst bundles.
    rewrite bundle_steps_lookup, lookup_empty, Hexts4.
    destruct (decide (t ∈ APP_EXTENSION_TYPES)); [|reflexivity].
    by destruct (compiled o _ (extensions (manager w0)) t).
  - injection Hbundles as <-. intros t.
    change (getAppExtensions t _) with (appExtensions (manager w4) !! t) at 1.
    by rewrite Happ4.
Qed.

End LoadedBundles.

Lemma load_app_bundles_witness :
  (@load production bundling_oracle (@new_world production)).1 = Returned tt
  ∧ ∃ appDir,
      readdir_assets bundling_oracle = Returned appDir
      ∧ getAppExtensions (AppT layout)
          (manager (@load production bundling_oracle (@new_world production)).2)
        = None
      ∧ getAppExtensions (AppT panel)
          (manager (@load production bundling_oracle (@new_world production)).2)
        = Some "/*export panel: */".
Proof.
  assert ((@load production bundling_oracle (@new_world production)).1 = Returned tt)
    as Hreturned by (vm_compute; reflexivity).
  split; [exact Hreturned|].
  pose proof (@load_app_bundles production bundling_oracle (@new_world production)
                Hreturned) as Hbundles.
  cbv zeta in Hbundles. change (SERVE_APP env) with true in Hbundles.
  destruct Hbundles as (appDir & Hdir & Hlookup).
  exists appDir. split; [exact Hdir|].
  rewrite !Hlookup. injection Hdir as <-. split; vm_compute; reflexivity.
Defined.

(** * The descriptor list a load leaves *)

Section Discovered.
Context `{Platform}.

Lemma discovery_outcome o w :
  (discovery o w).1
  = match ensureExtensionDirs o (EXTENSIONS_PATH env) extension_types with
    | Returned _ =>
        match getPackageExtensions o "."
                (if SERVE_APP env then EXTENSION_PACKAGE_TYPES
                 else API_EXTENSION_PACKAGE_TYPES) with
        | Returned packageExtensions =>
            match getLocalExtensions o (EXTENSIONS_PATH env) extension_types with
            | Returned localExtensions => Returned (packageExtensions ++ localExtensions)
            | Thrown e => Thrown e
            end
        | Thrown e => Thrown e
        end
    | Thrown e => Thrown e
    end.
Proof.
  unfold discovery, getExtensions. rewrite !bind_run.
  destruct (ensureExtensionDirs o _ _) as [[]|e]; simpl; [|reflexivity].
  rewrite !bind_run.
  destruct (getPackageExtensions o _ _) as [ps|e]; simpl; [|reflexivity].
  rewrite !bind_run.
  destruct (getLocalExtensions o _ _) as [ls|e]; reflexivity.
Qed.

(** X18: the descriptor list [load] leaves, whether or not the rest of the
    load is rejected.  When the extension folders could be prepared and both
    scans resolved, it is the package extensions followed by the local
    ones, in that order; in every other case it is the list the manager
    held before. *)
Theorem load_descriptor_list (o : Oracle) (w : World) :
  let w' := (load o w).2 in
  match (discovery o w).1 with
  | Returned exts =>
      extensions (manager w') = exts
      ∧ ∃ packageExtensions localExtensions,
          getPackageExtensions o "."
            (if SERVE_APP env then EXTENSION_PACKAGE_TYPES
             else API_EXTENSION_PACKAGE_TYPES) = Returned packageExtensions
          ∧ getLocalExtensions o (EXTENSIONS_PATH env) extension_types
            = Returned localExtensions
          ∧ exts = packageExtensions ++ localExtensions
  | Thrown _ => extensions (manager w') = extensions (manager w)
  end.
Proof.
  cbv zeta. pose proof (discovery_outcome o w) as Houtcome.
  destruct (discovery o w).1 as [exts|error] eqn:Hdiscovery.
  - rewrite (load_discovery_returned o w exts Hdiscovery).
    split.
    + exact (f_equal (λ s, s.1.1.1)
               (load_registrations_keeps_settings o
                  (on_manager (set_extensions exts) w))).
    + destruct (ensureExtensionDirs o _ _) as [[]|e]; [|discriminate].
      destruct (getPackageExtensions o _ _) as [ps|e]; [|discriminate].
      destruct (getLocalExtensions o _ _) as [ls|e]; [|discriminate].
      exists ps, ls. split; [reflexivity|]. split; [reflexivity|]. congruence.
  - rewrite (load_discovery_thrown o w error Hdiscovery).
    rewrite (seq_run (logger WarnCouldntLoad;; logger (WarnError error))) by exact I.
    exact (f_equal (λ s, s.1.1.1)
             (load_registrations_keeps_settings o
                ((logger WarnCouldntLoad;; logger (WarnError error)) w).2)).
Qed.

End Discovered.

(** * When a load completes *)

Section Completion.
Context `{Platform}.

(** X19: [load] returns exactly when the glob of built-in operations
    resolves and, if the app is served, the asset directory can be listed:
    neither a failed discovery, nor a module that cannot be required, nor a
    [register] function or handler that throws, nor a bundle that does not
    compile makes it reject.  When it returns the manager is marked
    loaded. *)
Theorem load_completes (o : Oracle) (w : World) :
  ((load o w).1 = Returned tt ↔
     is_returned (globby_operations o)
     ∧ (SERVE_APP env = true → is_returned (readdir_assets o)))
  ∧ ((load o w).1 = Returned tt → isLoaded (manager (load o w).2) = true).
Proof.
  split; [|apply load_returned_loaded].
  destruct (load_as_registrations o w) as (w0 & -> & _).
  apply load_registrations_returned.
Qed.

End Completion.

Lemma load_completes_witness :
  (@load production leaky_oracle (@new_world production)).1 = Returned tt
  ∧ isLoaded (manager (@load production leaky_oracle (@new_world production)).2) = true.
Proof.
  assert ((@load production leaky_oracle (@new_world production)).1 = Returned tt)
    as Hreturned.
  { apply (@load_completes production leaky_oracle (@new_world production)).
    split; [exact I|]. intros _. exact I. }
  split; [exact Hreturned|].
  exact (proj2 (@load_completes production leaky_oracle (@new_world production))
           Hreturned).
Defined.
